(** * WordParser: text extraction, metadata and rendering of word-parser.ts

    A shallow embedding of the [WordParser] class.  JavaScript strings are
    sequences of UTF-16 code units; the parsed XML tree produced by xml2js
    (explicitArray: false, mergeAttrs: true) is a string, an array or an
    object whose properties are kept in insertion order. *)

From Stdlib Require Import NArith ZArith Lia Bool Ascii String DecimalString.
From stdpp Require Import base list strings gmap.

Set Default Proof Using "Type".
Set Warnings "-register-all".
Set Warnings "-abstract-large-number".

(** ** JavaScript strings *)

Module JsString.

(** A string is the list of its UTF-16 code units. *)
Definition jsstring := list N.

(** ASCII literal to code units. *)
Definition js (s : string) : jsstring :=
  List.map N_of_ascii (list_ascii_of_string s).

Definition str_eqb (a b : jsstring) : bool := bool_decide (a = b).

Definition between (lo hi c : N) : bool := (lo <=? c)%N && (c <=? hi)%N.

Definition is_lower (c : N) : bool := between 97 122 c.   (* [a-z] *)
Definition is_upper (c : N) : bool := between 65 90 c.    (* [A-Z] *)
Definition is_digit (c : N) : bool := between 48 57 c.    (* [0-9] *)
Definition is_hex_upper (c : N) : bool :=                 (* [0-9A-F] *)
  is_digit c || between 65 70 c.
Definition is_newline (c : N) : bool := (c =? 10)%N.      (* \n *)
Definition is_blank (c : N) : bool :=                     (* [ \t] *)
  (c =? 32)%N || (c =? 9)%N.

(** The class [\s] of an ECMAScript regular expression, which is also the
    set of code units removed by [String.prototype.trim]: WhiteSpace and
    LineTerminator. *)
Definition is_space (c : N) : bool :=
  between 9 13 c || (c =? 32)%N || (c =? 160)%N || (c =? 5760)%N
  || between 8192 8202 c || (c =? 8232)%N || (c =? 8233)%N
  || (c =? 8239)%N || (c =? 8287)%N || (c =? 12288)%N || (c =? 65279)%N.

Definition SP : N := 32.
Definition LF : N := 10.
Definition TAB : N := 9.

(** Longest prefix of code units in a class, and what follows it. *)
Fixpoint run_length (p : N -> bool) (s : jsstring) : nat :=
  match s with
  | c :: t => if p c then S (run_length p t) else 0
  | [] => 0
  end.

Fixpoint skip_while (p : N -> bool) (s : jsstring) : jsstring :=
  match s with
  | c :: t => if p c then skip_while p t else s
  | [] => []
  end.

(** [s.trim()] *)
Definition trimStart (s : jsstring) : jsstring := skip_while is_space s.
Definition trimEnd (s : jsstring) : jsstring :=
  rev (skip_while is_space (rev s)).
Definition trim (s : jsstring) : jsstring := trimEnd (trimStart s).

(** [s.startsWith(p)], [s.endsWith(p)], [s.includes(p)] *)
Fixpoint startsWith (p s : jsstring) : bool :=
  match p, s with
  | [], _ => true
  | a :: p', b :: s' => (a =? b)%N && startsWith p' s'
  | _ :: _, [] => false
  end.

Definition endsWith (p s : jsstring) : bool := startsWith (rev p) (rev s).

Fixpoint includes (p s : jsstring) : bool :=
  startsWith p s ||
  match s with
  | [] => false
  | _ :: t => includes p t
  end.

(** [parts.join(sep)] *)
Fixpoint join (sep : jsstring) (parts : list jsstring) : jsstring :=
  match parts with
  | [] => []
  | [x] => x
  | x :: rest => x ++ sep ++ join sep rest
  end.

(** A string is truthy when it is not empty. *)
Definition nonempty (s : jsstring) : bool :=
  match s with [] => false | _ => true end.

(** *** [s.replace(/re/g, ...)]

    A matcher looks at the text from the current position and, when the
    pattern matches there, gives the replacement and the number of code
    units the match covers (all patterns below match at least one).  The
    scan goes left to right; after a match it resumes behind the match. *)
Definition matcher := jsstring -> option (jsstring * nat).

Fixpoint replace_from (m : matcher) (skip : nat) (s : jsstring) : jsstring :=
  match s with
  | [] => []
  | c :: t =>
      match skip with
      | S k => replace_from m k t
      | O =>
          match m s with
          | Some (out, n) => out ++ replace_from m (Nat.pred n) t
          | None => c :: replace_from m 0 t
          end
      end
  end.

Definition replace_all (m : matcher) (s : jsstring) : jsstring :=
  replace_from m 0 s.

(** [/[class]{min,}/g] replaced by a fixed text: the quantifier is greedy
    and nothing follows it, so a match is a maximal run. *)
Definition run_matcher (p : N -> bool) (min : nat) (out : jsstring) : matcher :=
  fun s => let n := run_length p s in
           if (min <=? n)%nat then Some (out, n) else None.

(** [/(a)(b)/g] replaced by ['$1 $2'], for two single-unit classes. *)
Definition pair_matcher (p q : N -> bool) : matcher :=
  fun s => match s with
           | a :: b :: _ => if p a && q b then Some ([a; SP; b], 2) else None
           | _ => None
           end.

(** [/\n /g] replaced by ['\n'] *)
Definition newline_space_matcher : matcher :=
  fun s => match s with
           | a :: b :: _ =>
               if is_newline a && (b =? SP)%N then Some ([LF], 2) else None
           | _ => None
           end.

(** [/([A-Z])([A-Z][a-z])/g] replaced by ['$1 $2'] *)
Definition caps_matcher : matcher :=
  fun s => match s with
           | a :: b :: c :: _ =>
               if is_upper a && is_upper b && is_lower c
               then Some ([a; SP; b; c], 3) else None
           | _ => None
           end.

(** [s.replace(/\s+/g, ' ')] *)
Definition collapse_whitespace (s : jsstring) : jsstring :=
  replace_all (run_matcher is_space 1 [SP]) s.

End JsString.

Import JsString.

(** ** The parsed XML tree *)

Module Tree.

(** What xml2js hands to the extractor: a text leaf, an ordered sequence
    of nodes (a repeated tag), an element mapping tag and attribute
    names to nodes, or [null] (what the parser resolves with for a text
    without any element, such as a part of white space only). *)
Inductive node :=
| Str (s : jsstring)
| Arr (items : list node)
| Obj (props : list (jsstring * node))
| Null.

(** [props[k]]: the first property named [k], [None] for [undefined]. *)
Fixpoint lookup_prop (k : jsstring) (props : list (jsstring * node)) : option node :=
  match props with
  | [] => None
  | (k', v) :: rest => if str_eqb k' k then Some v else lookup_prop k rest
  end.

(** [value[k]] on a node that is not [null]; strings and arrays have no
    such property.  On [null] the access throws: the two places that
    can meet [null] here, [read_core] and [read_app], test for it
    first. *)
Definition get (k : jsstring) (value : node) : option node :=
  match value with
  | Obj props => lookup_prop k props
  | _ => None
  end.

(** JavaScript truthiness: only the empty string, [null] and
    [undefined] are falsy among the values of a tree. *)
Definition truthy_node (v : node) : bool :=
  match v with
  | Str s => nonempty s
  | Null => false
  | _ => true
  end.

Definition truthy (o : option node) : bool :=
  match o with
  | Some v => truthy_node v
  | None => false
  end.

Definition has (k : jsstring) (props : list (jsstring * node)) : bool :=
  truthy (lookup_prop k props).

(** Traversal combinators over the children of a node; [f] is the visit
    of one child, threading the accumulator. *)
Section Children.
Context {A : Type} (f : node -> A -> A).

(** visit [props[k]] *)
Fixpoint at_key (k : jsstring) (props : list (jsstring * node)) (acc : A) : A :=
  match props with
  | [] => acc
  | (k', v) :: rest => if str_eqb k' k then f v acc else at_key k rest acc
  end.

(** [items.forEach(f)] *)
Fixpoint each_item (items : list node) (acc : A) : A :=
  match items with
  | [] => acc
  | x :: rest => each_item rest (f x acc)
  end.

(** [for (const [key, value] of Object.entries(props)) if (keep(key)) f(value)] *)
Fixpoint each_entry (keep : jsstring -> bool)
    (props : list (jsstring * node)) (acc : A) : A :=
  match props with
  | [] => acc
  | (k, v) :: rest => each_entry keep rest (if keep k then f v acc else acc)
  end.
End Children.

(** Structural induction that reaches the nodes inside arrays and
    objects. *)
Section NodeInd.
Variable P : node -> Prop.
Hypothesis HStr : forall s, P (Str s).
Hypothesis HArr : forall items, Forall P items -> P (Arr items).
Hypothesis HObj : forall props, Forall (fun kv => P (snd kv)) props -> P (Obj props).
Hypothesis HNull : P Null.

Fixpoint node_ind' (t : node) : P t :=
  match t with
  | Str s => HStr s
  | Arr items =>
      HArr items
        ((fix go (l : list node) : Forall P l :=
            match l with
            | [] => List.Forall_nil P
            | x :: r => List.Forall_cons P x r (node_ind' x) (go r)
            end) items)
  | Obj props =>
      HObj props
        ((fix go (l : list (jsstring * node)) : Forall (fun kv => P (snd kv)) l :=
            match l with
            | [] => List.Forall_nil _
            | kv :: r => List.Forall_cons _ kv r (node_ind' (snd kv)) (go r)
            end) props)
  | Null => HNull
  end.
End NodeInd.

End Tree.

Import Tree.

(** ** Text extraction *)

Module Extract.

Definition NS_MICROSOFT : jsstring := js "http://schemas.microsoft.com".
Definition NS_SCHEMAS : jsstring := js "http://schemas".

(** The test guarding the generic recursion over [Object.entries]. *)
Definition recursed (key : jsstring) : bool :=
  startsWith (js "w:") key
  && negb (includes (js "Pr") key)
  && negb (includes (js "Style") key)
  && negb (includes (js "Properties") key)
  && negb (includes (js "Fonts") key)
  && negb (includes (js "Settings") key)
  && negb (str_eqb key (js "w:t")).

(** The value pushed for an element with a truthy ['w:t'] property
    ([None] when nothing is pushed). *)
Definition literal_text (wt : node) : option jsstring :=
  let text : node :=
    match wt with
    | Str s => Str s
    | _ =>
        if truthy (get (js "_") wt) then default (Str []) (get (js "_") wt)
        else if truthy (get (js "$") wt) then
          match get (js "xml:space") (default (Str []) (get (js "$") wt)) with
          | Some (Str p) =>
              if str_eqb p (js "preserve")
              then (if truthy (get (js "_") wt)
                    then default (Str []) (get (js "_") wt) else Str [])
              else Str []
          | _ => Str []
          end
        else Str []
    end in
  match text with
  | Str s =>
      if nonempty s && nonempty (trim s) && negb (includes NS_SCHEMAS s)
      then Some s else None
  | _ => None
  end.

Definition push (textParts : list jsstring) (s : jsstring) : list jsstring :=
  textParts ++ [s].

(** [textParts.length > 0 && !textParts[textParts.length - 1].endsWith('\n')] *)
Definition needs_break (textParts : list jsstring) : bool :=
  match last textParts with
  | Some l => negb (endsWith [LF] l)
  | None => false
  end.

(** The inner function [extractTextFromElement]; the array [textParts] it
    pushes to is threaded through. *)
Fixpoint extractTextFromElement (element : node) (textParts : list jsstring)
    : list jsstring :=
  match element with
  | Str s =>
      let cleanText := trim s in
      if nonempty cleanText && negb (includes NS_MICROSOFT cleanText)
      then push textParts cleanText else textParts
  | Arr items => each_item extractTextFromElement items textParts
  | Obj props =>
      if has (js "w:t") props then
        match lookup_prop (js "w:t") props with
        | Some wt =>
            match literal_text wt with
            | Some text => push textParts text
            | None => textParts
            end
        | None => textParts
        end
      else if has (js "w:p") props then
        at_key extractTextFromElement (js "w:p") props
          (if needs_break textParts then push textParts [LF; LF] else textParts)
      else if has (js "w:r") props then
        at_key extractTextFromElement (js "w:r") props textParts
      else if has (js "w:tab") props then push textParts [TAB]
      else if has (js "w:br") props then push textParts [LF]
      else if has (js "w:document") props then
        at_key extractTextFromElement (js "w:document") props textParts
      else if has (js "w:body") props then
        at_key extractTextFromElement (js "w:body") props textParts
      else each_entry extractTextFromElement recursed props textParts
  | Null => textParts
  end.

(** The clean-up chain applied to the joined parts. *)
Definition cleanup (s : jsstring) : jsstring :=
  let s := replace_all (run_matcher is_newline 3 [LF; LF]) s in
  let s := replace_all (run_matcher is_blank 1 [SP]) s in
  let s := replace_all newline_space_matcher s in
  let s := replace_all (pair_matcher is_lower is_upper) s in
  let s := replace_all caps_matcher s in
  let s := replace_all (pair_matcher is_digit is_upper) s in
  let s := replace_all (pair_matcher is_lower is_digit) s in
  let s := replace_all (run_matcher is_hex_upper 8 []) s in
  let s := collapse_whitespace s in
  trim s.

(** The value of [finalText] before the fallback is considered. *)
Definition primaryText (parsedDoc : node) : jsstring :=
  cleanup (join [SP] (extractTextFromElement parsedDoc [])).

(** The inner function [findText] of [extractTextFallback]. *)
Fixpoint findText (element : node) (textParts : list jsstring) : list jsstring :=
  match element with
  | Str s =>
      if nonempty (trim s) && negb (includes NS_SCHEMAS s)
      then push textParts (trim s) else textParts
  | Arr items => each_item findText items textParts
  | Obj props => each_entry findText (fun _ => true) props textParts
  | Null => textParts
  end.

(** [/^[0-9]+$/.test(text)] *)
Definition all_digits (text : jsstring) : bool :=
  nonempty text && forallb is_digit text.

Definition extractTextFallback (obj : node) : jsstring :=
  trim (collapse_whitespace
          (join [SP]
             (List.filter
                (fun text => (2 <? length text)%nat && negb (all_digits text))
                (findText obj [])))).

Definition extractText (parsedDoc : node) : jsstring :=
  let finalText := primaryText parsedDoc in
  if negb (nonempty finalText) || (length finalText <? 10)%nat then
    let fallbackText := extractTextFallback parsedDoc in
    if nonempty fallbackText && (length finalText <? length fallbackText)%nat
    then fallbackText else finalText
  else finalText.

End Extract.

Import Extract.

(** ** Metadata record and format rendering *)

Module Render.

(** [String(value)]: what a template literal or [parseInt] sees. *)
Fixpoint toString (value : node) : jsstring :=
  match value with
  | Str s => s
  | Arr items => join (js ",") (List.map toString items)
  | Obj _ => js "[object Object]"
  | Null => js "null"
  end.

(** A JavaScript date, kept as the text it was constructed from. *)
Inductive date := DateOf (text : jsstring).

(** A number as far as this program meets one, a double: [NaN], an
    integer that a double holds exactly, minus zero, or an infinity. *)
Inductive number := NaN | Int (z : Z) | NegZero | Infinity (negative : bool).

(** The double nearest to a positive integer, ties to even: integers of
    at most 53 bits are exact, longer ones keep their 53 leading bits,
    rounded, and overflow to infinity from [2^1024] on. *)
Definition nearest_double (m : Z) : number :=
  let bits := (Z.log2 m + 1)%Z in
  if (bits <=? 53)%Z then Int m
  else
    let e := (bits - 53)%Z in
    let q := Z.shiftr m e in
    let r := Z.land m (Z.ones e) in
    let half := Z.shiftl 1 (e - 1) in
    let q := if (half <? r)%Z || ((r =? half)%Z && Z.odd q) then (q + 1)%Z else q in
    let v := Z.shiftl q e in
    if (Z.shiftl 1 1024 <=? v)%Z then Infinity false else Int v.

(** The number value of [sign * mathInt] at the end of [parseInt]. *)
Definition number_of_integer (negative : bool) (mathInt : Z) : number :=
  if (mathInt =? 0)%Z then (if negative then NegZero else Int 0)
  else
    match nearest_double mathInt with
    | Int v => Int (if negative then (- v)%Z else v)
    | Infinity _ => Infinity negative
    | other => other
    end.

(** [DocumentMetadata]; [None] is an absent (or [undefined]) field.  The
    textual fields hold whatever node the property parser produced. *)
Record DocumentMetadata := {
  title : option node;
  author : option node;
  subject : option node;
  creator : option node;
  created : option date;
  modified : option date;
  pages : option number;
  words : option number;
  characters : option number
}.

Definition empty_metadata : DocumentMetadata :=
  {| title := None; author := None; subject := None; creator := None;
     created := None; modified := None;
     pages := None; words := None; characters := None |}.

Definition is_sentence_end (c : N) : bool :=     (* [.!?] *)
  (c =? 46)%N || (c =? 33)%N || (c =? 63)%N.

(** [content.split(/(?<=[.!?])\s+/)]: a separator is a maximal run of
    white space that directly follows a full stop, an exclamation mark or
    a question mark.  [after_end] tells whether the previous code unit is
    such a mark, [in_sep] whether the scan is inside a separator, [cur]
    is the piece being read. *)
Fixpoint split_from (s : jsstring) (after_end in_sep : bool) (cur : jsstring)
    : list jsstring :=
  match s with
  | [] => [cur]
  | c :: t =>
      if in_sep then
        if is_space c then split_from t false true []
        else split_from t (is_sentence_end c) false [c]
      else if after_end && is_space c then cur :: split_from t false true []
      else split_from t (is_sentence_end c) false (cur ++ [c])
  end.

Definition split_sentences (content : jsstring) : list jsstring :=
  split_from content false false [].

(** [/^[A-Z][a-z]*\s*[A-Z]/.test(s)] *)
Definition heading_shape (s : jsstring) : bool :=
  match s with
  | c :: t =>
      is_upper c &&
      match skip_while is_space (skip_while is_lower t) with
      | d :: _ => is_upper d
      | [] => false
      end
  | [] => false
  end.

(** The two variables updated by the loop over the sentences. *)
Record md_state := { markdown : jsstring; currentParagraph : jsstring }.

Definition flush (st : md_state) : md_state :=
  {| markdown := markdown st ++ trim (currentParagraph st) ++ [LF; LF];
     currentParagraph := [] |}.

(** One iteration of [for (const sentence of sentences)]. *)
Definition md_step (st : md_state) (sentence : jsstring) : md_state :=
  let cleanSentence := trim sentence in
  if negb (nonempty cleanSentence) then st
  else if (length cleanSentence <? 50)%nat && heading_shape cleanSentence then
    let st := if nonempty (currentParagraph st) then flush st else st in
    {| markdown := markdown st ++ js "## " ++ cleanSentence ++ [LF; LF];
       currentParagraph := currentParagraph st |}
  else
    let st := {| markdown := markdown st;
                 currentParagraph := currentParagraph st ++ cleanSentence ++ [SP] |} in
    if (200 <? length (currentParagraph st))%nat then flush st else st.

Definition md_header (metadata : option DocumentMetadata) : jsstring :=
  let t := match metadata with
           | Some m => if truthy (title m)
                       then js "# " ++ toString (default (Str []) (title m)) ++ [LF; LF]
                       else []
           | None => []
           end in
  let a := match metadata with
           | Some m => if truthy (author m)
                       then js "**Author:** " ++ toString (default (Str []) (author m))
                              ++ [LF; LF]
                       else []
           | None => []
           end in
  t ++ a.

Definition convertToMarkdown (content : jsstring)
    (metadata : option DocumentMetadata) : jsstring :=
  let st := fold_left md_step (split_sentences content)
              {| markdown := md_header metadata; currentParagraph := [] |} in
  let st := if nonempty (trim (currentParagraph st)) then flush st else st in
  trim (markdown st).

End Render.

Import Render.

(** ** Collaborators and effects *)

Module Effects.

(** A thrown value: an [Error] with its message, or anything else. *)
Inductive exn := Error (message : jsstring) | NotAnError.

(** Calls that leave the parser: the safety manager, yauzl and xml2js. *)
Inductive event :=
| EvValidate (filePath : jsstring)
| EvOpenContainer (filePath : jsstring)
| EvParseXml (xml : jsstring).

Record SafetyResult := {
  isSafe : bool;
  issues : list jsstring;
  hash : jsstring;
  fileSize : Z
}.

(** What a read stream of one container entry emits: its chunks (as the
    text they decode to) and ['end'], or some chunks and then ['error']. *)
Inductive read_stream :=
| StreamEnd (chunks : list jsstring)
| StreamError (chunks : list jsstring) (e : exn).

(** What [zipfile.openReadStream] passes to its callback. *)
Inductive open_stream :=
| OpenError (e : exn)
| NoStream
| Stream (s : read_stream).

(** What the zipfile emits once the entries are exhausted. *)
Inductive zip_ending := ZipEnd | ZipError (e : exn).

(** An opened container: the ['entry'] events it delivers, one for each
    [readEntry()], each with the outcome of opening its read stream, and
    the event that follows the last of them. *)
Record zip_file := {
  zip_entries : list (jsstring * open_stream);
  zip_ending_event : zip_ending
}.

(** The outside world of one parser.  The safety manager and the XML
    parser either throw (reject) or answer; [yauzl.open] calls back with
    an error, with nothing, or with a zipfile; the clock is read from the
    calls made so far.  The XML parser may answer [Null].  The parts of
    a container are kept by entry name in the order in which they were
    first stored; [object_keys] gives the order in which [Object.keys]
    lists them. *)
Record collaborators := {
  safety_validateFile : jsstring -> exn + SafetyResult;
  yauzl_open : jsstring -> exn + option zip_file;
  xml2js_parse : jsstring -> exn + node;
  date_now : list event -> Z;
  date_toISOString : Z -> jsstring;
  (* JSON.stringify({content, metadata, format: 'json', timestamp}, null, 2) *)
  json_stringify : jsstring -> option DocumentMetadata -> jsstring -> jsstring
}.

(** How an awaited computation ends: with a value, with a throw (a
    rejected promise) that a [try] can catch, or with an error raised
    outside the promise chain, after which the awaiting code never
    resumes. *)
Inductive outcome (A : Type) :=
| Returned (a : A)
| Thrown (e : exn)
| Uncaught (e : exn).

Arguments Returned {A} a.
Arguments Thrown {A} e.
Arguments Uncaught {A} e.

Definition settle {A} (answer : exn + A) : outcome A :=
  match answer with
  | inr a => Returned a
  | inl e => Thrown e
  end.

(** Computations that may throw, log collaborator calls, and update the
    object [L] that the running method builds. *)
Section Monad.
Context {L : Type}.

Record state := { local : L; log : list event }.

Definition M (A : Type) : Type := state -> outcome A * state.

Definition ret {A} (a : A) : M A := fun st => (Returned a, st).

Definition bind {A B} (m : M A) (k : A -> M B) : M B :=
  fun st => match m st with
            | (Returned a, st') => k a st'
            | (Thrown e, st') => (Thrown e, st')
            | (Uncaught e, st') => (Uncaught e, st')
            end.

Definition throw {A} (e : exn) : M A := fun st => (Thrown e, st).

(** [try { body } catch (error) { handler }] *)
Definition try_catch {A} (body : M A) (handler : exn -> M A) : M A :=
  fun st => match body st with
            | (Returned a, st') => (Returned a, st')
            | (Thrown e, st') => handler e st'
            | (Uncaught e, st') => (Uncaught e, st')
            end.

Definition read : M L := fun st => (Returned (local st), st).

Definition update (f : L -> L) : M unit :=
  fun st => (Returned tt, {| local := f (local st); log := log st |}).

(** A call to a collaborator: logged, then its answer or its throw. *)
Definition call {A} (ev : event) (answer : exn + A) : M A :=
  fun st => (settle answer, {| local := local st; log := log st ++ [ev] |}).

(** The end of a computation that was worked out apart. *)
Definition finish {A} (o : outcome A) : M A := fun st => (o, st).

Definition history : M (list event) := fun st => (Returned (log st), st).
End Monad.

Arguments state : clear implicits.
Arguments M : clear implicits.

(** Run a method of another local object inside the current one: it
    starts from [init] and shares the log. *)
Definition nested {L L' A} (init : L') (m : M L' A) : M L A :=
  fun st =>
    let '(r, st') := m {| local := init; log := log st |} in
    (r, {| local := local st; log := log st' |}).

End Effects.

Import Effects.

Declare Scope monad_scope.
Delimit Scope monad_scope with monad.
Notation "x <- m ;; k" := (bind m (fun x => k))
  (at level 100, m at next level, right associativity) : monad_scope.
Notation "'do' m ;; k" := (bind m (fun _ => k))
  (at level 100, m at next level, right associativity) : monad_scope.

Local Open Scope monad_scope.

(** ** Metadata extraction *)

Module Metadata.

(** Value of a digit or letter as a numeral digit. *)
Definition digit_of (c : N) : option Z :=
  if is_digit c then Some (Z.of_N c - 48)%Z
  else if is_lower c then Some (Z.of_N c - 97 + 10)%Z
  else if is_upper c then Some (Z.of_N c - 65 + 10)%Z
  else None.

(** The longest prefix of radix-[radix] digits; [acc] is [None] until a
    digit has been read. *)
Fixpoint read_digits (radix : Z) (s : jsstring) (acc : option Z) : option Z :=
  match s with
  | c :: t =>
      match digit_of c with
      | Some d =>
          if (d <? radix)%Z
          then read_digits radix t (Some (default 0 acc * radix + d))%Z
          else acc
      | None => acc
      end
  | [] => acc
  end.

(** [parseInt(s)] without a radix argument: leading white space is
    skipped, then a sign is read, then a [0x] or [0X] prefix selects
    radix 16, then the digits are read; the result is the double
    nearest to the integer read. *)
Definition parseInt (s : jsstring) : number :=
  let s := trimStart s in
  let negative := match s with c :: _ => (c =? 45)%N | [] => false end in
  let s := match s with
           | c :: t => if (c =? 45)%N || (c =? 43)%N then t else s
           | [] => s
           end in
  let hex := match s with
             | z :: x :: _ => (z =? 48)%N && ((x =? 120)%N || (x =? 88)%N)
             | _ => false
             end in
  let radix := if hex then 16%Z else 10%Z in
  let s := if hex then skipn 2 s else s in
  match read_digits radix s None with
  | Some v => number_of_integer negative v
  | None => NaN
  end.

(** [docxContent[name]], a string when the part exists. *)
Fixpoint part (name : jsstring) (docxContent : list (jsstring * jsstring))
    : option jsstring :=
  match docxContent with
  | [] => None
  | (n, text) :: rest => if str_eqb n name then Some text else part name rest
  end.

(** [value || {}] *)
Definition or_empty (o : option node) : node :=
  if truthy o then default (Obj []) o else Obj [].

Definition set_title v (m : DocumentMetadata) : DocumentMetadata :=
  {| title := v; author := author m; subject := subject m; creator := creator m;
     created := created m; modified := modified m;
     pages := pages m; words := words m; characters := characters m |}.
Definition set_author v (m : DocumentMetadata) : DocumentMetadata :=
  {| title := title m; author := v; subject := subject m; creator := creator m;
     created := created m; modified := modified m;
     pages := pages m; words := words m; characters := characters m |}.
Definition set_subject v (m : DocumentMetadata) : DocumentMetadata :=
  {| title := title m; author := author m; subject := v; creator := creator m;
     created := created m; modified := modified m;
     pages := pages m; words := words m; characters := characters m |}.
Definition set_created v (m : DocumentMetadata) : DocumentMetadata :=
  {| title := title m; author := author m; subject := subject m; creator := creator m;
     created := Some v; modified := modified m;
     pages := pages m; words := words m; characters := characters m |}.
Definition set_modified v (m : DocumentMetadata) : DocumentMetadata :=
  {| title := title m; author := author m; subject := subject m; creator := creator m;
     created := created m; modified := Some v;
     pages := pages m; words := words m; characters := characters m |}.
Definition set_pages v (m : DocumentMetadata) : DocumentMetadata :=
  {| title := title m; author := author m; subject := subject m; creator := creator m;
     created := created m; modified := modified m;
     pages := Some v; words := words m; characters := characters m |}.
Definition set_words v (m : DocumentMetadata) : DocumentMetadata :=
  {| title := title m; author := author m; subject := subject m; creator := creator m;
     created := created m; modified := modified m;
     pages := pages m; words := Some v; characters := characters m |}.
Definition set_characters v (m : DocumentMetadata) : DocumentMetadata :=
  {| title := title m; author := author m; subject := subject m; creator := creator m;
     created := created m; modified := modified m;
     pages := pages m; words := words m; characters := Some v |}.

(** [if (props[k]) metadata.f = g(props[k])] *)
Definition when_present {A} (v : option node) (g : jsstring -> A)
    (set : A -> DocumentMetadata -> DocumentMetadata) : M DocumentMetadata unit :=
  if truthy v then update (set (g (toString (default (Str []) v)))) else ret tt.

(** [parsed[k]] where [parsed] may be [null]: a [TypeError] then. *)
Definition property_of (k : string) (parsed : node) : M DocumentMetadata (option node) :=
  match parsed with
  | Null => throw (Error (js "Cannot read properties of null (reading '" ++ js k ++ js "')"))
  | _ => ret (get (js k) parsed)
  end.

(** The assignments made from the parsed core properties. *)
Definition read_core (parsed : node) : M DocumentMetadata unit :=
  found <- property_of "cp:coreProperties" parsed ;;
  let props := or_empty found in
  do update (set_title (get (js "dc:title") props)) ;;
  do update (set_author (get (js "dc:creator") props)) ;;
  do update (set_subject (get (js "dc:subject") props)) ;;
  do when_present (get (js "dcterms:created") props) DateOf set_created ;;
  when_present (get (js "dcterms:modified") props) DateOf set_modified.

(** The assignments made from the parsed application properties. *)
Definition read_app (parsed : node) : M DocumentMetadata unit :=
  found <- property_of "Properties" parsed ;;
  let props := or_empty found in
  do when_present (get (js "Pages") props) parseInt set_pages ;;
  do when_present (get (js "Words") props) parseInt set_words ;;
  when_present (get (js "Characters") props) parseInt set_characters.

(** The two [if] statements of the [try] block. *)
Definition core_properties (w : collaborators)
    (docxContent : list (jsstring * jsstring)) : M DocumentMetadata unit :=
  match part (js "docProps/core.xml") docxContent with
  | Some coreProps =>
      if nonempty coreProps then
        parsed <- call (EvParseXml coreProps) (xml2js_parse w coreProps) ;;
        read_core parsed
      else ret tt
  | None => ret tt
  end.

Definition app_properties (w : collaborators)
    (docxContent : list (jsstring * jsstring)) : M DocumentMetadata unit :=
  match part (js "docProps/app.xml") docxContent with
  | Some appProps =>
      if nonempty appProps then
        parsed <- call (EvParseXml appProps) (xml2js_parse w appProps) ;;
        read_app parsed
      else ret tt
  | None => ret tt
  end.

(** [extractMetadata]; the local object is [metadata], initially [{}]. *)
Definition extractMetadata (w : collaborators)
    (docxContent : list (jsstring * jsstring)) : M DocumentMetadata DocumentMetadata :=
  do try_catch
       (do core_properties w docxContent ;; app_properties w docxContent)
       (fun _ => ret tt) ;;
  read.

(** Result of a call of [extractMetadata] with no earlier calls logged. *)
Definition run_extractMetadata (w : collaborators)
    (docxContent : list (jsstring * jsstring)) : DocumentMetadata :=
  local (snd (extractMetadata w docxContent {| local := empty_metadata; log := [] |})).

End Metadata.

Import Metadata.

(** ** The parser object *)

Module Parser.

(** Values a configuration property can hold. *)
Inductive value := VUndefined | VBool (b : bool) | VStr (s : jsstring).

Definition truthy_value (v : value) : bool :=
  match v with
  | VUndefined => false
  | VBool b => b
  | VStr s => nonempty s
  end.

(** The store of configuration objects, by reference; an object maps its
    property names to values. *)
Abbreviation object := (gmap string value).
Abbreviation heap := (gmap nat object).

(** An object literal evaluates to a reference not yet in the store. *)
Definition alloc (o : object) (h : heap) : nat * heap :=
  let r := fresh (dom h) in (r, <[r := o]> h).

(** The one mutable field of a [WordParser] read by its methods. *)
Record WordParser := { config : nat }.

Definition defaults : object :=
  <["extractImages" := VBool false]>
    (<["preserveFormatting" := VBool true]>
       (<["includeMetadata" := VBool true]>
          (<["outputFormat" := VStr (js "text")]>
             (<["safetyChecks" := VBool true]> ∅)))).

(** [{ ...a, ...b }]: the properties of [b] win. *)
Definition spread (a b : object) : object := b ∪ a.

Definition deref (r : nat) (h : heap) : object := default ∅ (h !! r).

(** [new WordParser(config)] *)
Definition new_parser (cfg : object) (h : heap) : WordParser * heap :=
  let '(r, h') := alloc (spread defaults cfg) h in ({| config := r |}, h').

(** [updateConfig(newConfig)] *)
Definition updateConfig (this : WordParser) (newConfig : object) (h : heap)
    : WordParser * heap :=
  let '(r, h') := alloc (spread (deref (config this) h) newConfig) h in
  ({| config := r |}, h').

(** [getConfig()]: [{ ...this.config }] *)
Definition getConfig (this : WordParser) (h : heap) : nat * heap :=
  alloc (spread (deref (config this) h) ∅) h.

(** [this.config[k]] in a boolean context *)
Definition enabled (cfg : object) (k : string) : bool :=
  truthy_value (default VUndefined (cfg !! k)).

(** What a caller can do to an object it holds a reference to. *)
Inductive mutation :=
| SetProp (k : string) (v : value)
| DeleteProp (k : string).

Definition mutate (r : nat) (h : heap) (m : mutation) : heap :=
  match h !! r with
  | Some o =>
      match m with
      | SetProp k v => <[r := <[k := v]> o]> h
      | DeleteProp k => <[r := delete k o]> h
      end
  | None => h
  end.

Definition mutate_all (r : nat) (ms : list mutation) (h : heap) : heap :=
  fold_left (mutate r) ms h.

(** A [Buffer], kept as the call that made it. *)
Inductive buffer := BufferFromBase64 (data : jsstring).

Record ProcessingResult := {
  success : bool;
  content : option jsstring;
  metadata : option DocumentMetadata;
  images : option (list buffer);
  warnings : list jsstring;
  errors : list jsstring;
  processingTime : option Z
}.

(** [{ success: false, warnings: [], errors: [] }] *)
Definition new_result : ProcessingResult :=
  {| success := false; content := None; metadata := None; images := None;
     warnings := []; errors := []; processingTime := None |}.

Definition set_errors v (r : ProcessingResult) : ProcessingResult :=
  {| success := success r; content := content r; metadata := metadata r;
     images := images r; warnings := warnings r; errors := v;
     processingTime := processingTime r |}.
Definition push_error e (r : ProcessingResult) : ProcessingResult :=
  set_errors (errors r ++ [e]) r.
Definition set_content v (r : ProcessingResult) : ProcessingResult :=
  {| success := success r; content := Some v; metadata := metadata r;
     images := images r; warnings := warnings r; errors := errors r;
     processingTime := processingTime r |}.
Definition set_metadata v (r : ProcessingResult) : ProcessingResult :=
  {| success := success r; content := content r; metadata := Some v;
     images := images r; warnings := warnings r; errors := errors r;
     processingTime := processingTime r |}.
Definition set_images v (r : ProcessingResult) : ProcessingResult :=
  {| success := success r; content := content r; metadata := metadata r;
     images := Some v; warnings := warnings r; errors := errors r;
     processingTime := processingTime r |}.
Definition set_success v (r : ProcessingResult) : ProcessingResult :=
  {| success := v; content := content r; metadata := metadata r;
     images := images r; warnings := warnings r; errors := errors r;
     processingTime := processingTime r |}.
Definition set_processingTime v (r : ProcessingResult) : ProcessingResult :=
  {| success := success r; content := content r; metadata := metadata r;
     images := images r; warnings := warnings r; errors := errors r;
     processingTime := Some v |}.

(** ASCII case folding, as done by the [i] flag on an ASCII pattern. *)
Definition fold_case (c : N) : N := if is_upper c then (c + 32)%N else c.

(** [/\.(png|jpg|jpeg|gif|bmp)$/i.test(fileName)] *)
Definition is_image_name (fileName : jsstring) : bool :=
  let lowered := List.map fold_case fileName in
  existsb (fun ext => endsWith (js ext) lowered)
    [".png"; ".jpg"; ".jpeg"; ".gif"; ".bmp"]%string.

(** A canonical array index: ["0"], or decimal digits without a leading
    zero that denote a number below [2^32 - 1]. *)
Definition array_index (name : jsstring) : option N :=
  match name with
  | [] => None
  | c :: t =>
      if forallb is_digit name && (negb (c =? 48)%N || negb (nonempty t)) then
        let v := fold_left (fun acc d => acc * 10 + (d - 48))%N name 0%N in
        if (v <? 4294967295)%N then Some v else None
      else None
  end.

Fixpoint insert_index (v : N) (name : jsstring) (sorted : list (N * jsstring))
    : list (N * jsstring) :=
  match sorted with
  | [] => [(v, name)]
  | (u, n) :: rest =>
      if (v <? u)%N then (v, name) :: sorted else (u, n) :: insert_index v name rest
  end.

(** [Object.keys(docxContent)]: the names that are array indices come
    first, in ascending numeric order, then the other names in the
    order in which they were first stored. *)
Definition object_keys (docxContent : list (jsstring * jsstring)) : list jsstring :=
  let names := List.map fst docxContent in
  let indexed :=
    fold_right (fun name acc => match array_index name with
                                | Some v => insert_index v name acc
                                | None => acc
                                end) [] names in
  List.map snd indexed
  ++ List.filter (fun name => match array_index name with
                              | Some _ => false
                              | None => true
                              end) names.

(** [extractImages]: nothing in it throws. *)
Definition extractImages (docxContent : list (jsstring * jsstring)) : list buffer :=
  let imageFiles :=
    List.filter (fun fileName =>
                   startsWith (js "word/media/") fileName && is_image_name fileName)
      (object_keys docxContent) in
  flat_map (fun imageFile =>
              match part imageFile docxContent with
              | Some imageData =>
                  if nonempty imageData then [BufferFromBase64 imageData] else []
              | None => []
              end) imageFiles.

Section Methods.
Variable w : collaborators.

(** An own property of the record of parts is overwritten in place or
    created behind the others. *)
Fixpoint define_part (fileName text : jsstring) (content : list (jsstring * jsstring))
    : list (jsstring * jsstring) :=
  match content with
  | [] => [(fileName, text)]
  | (n, t) :: rest =>
      if str_eqb n fileName then (n, text) :: rest
      else (n, t) :: define_part fileName text rest
  end.

(** [content[fileName] = text] on the plain object [content].  For the
    name [__proto__] the assignment goes to the accessor inherited from
    [Object.prototype], which ignores a string: nothing is stored. *)
Definition set_part (fileName text : jsstring) (content : list (jsstring * jsstring))
    : list (jsstring * jsstring) :=
  if str_eqb fileName (js "__proto__") then content
  else define_part fileName text content.

(** The listeners of [extractDocxContent] run over the events of the
    zipfile.  A directory entry asks for the next entry; a failed
    [openReadStream] rejects; a missing stream asks for the next entry; a
    stream that ends stores its text and asks for the next entry; for a
    stream that emits ['error'] no listener is registered, so the error
    is raised outside the promise, which never settles.  ['end']
    resolves, ['error'] on the zipfile rejects. *)
Fixpoint read_entries (entries : list (jsstring * open_stream)) (ending : zip_ending)
    (content : list (jsstring * jsstring)) : outcome (list (jsstring * jsstring)) :=
  match entries with
  | [] =>
      match ending with
      | ZipEnd => Returned content
      | ZipError e => Thrown e
      end
  | (fileName, opened) :: rest =>
      if endsWith (js "/") fileName then read_entries rest ending content
      else
        match opened with
        | OpenError e => Thrown e
        | NoStream => read_entries rest ending content
        | Stream (StreamEnd chunks) =>
            read_entries rest ending (set_part fileName (concat chunks) content)
        | Stream (StreamError _ e) => Uncaught e
        end
  end.

(** [extractDocxContent] *)
Definition extractDocxContent {L} (filePath : jsstring)
    : M L (list (jsstring * jsstring)) :=
  zipfile <- call (EvOpenContainer filePath) (yauzl_open w filePath) ;;
  match zipfile with
  | None => throw (Error (js "Failed to open DOCX file"))
  | Some z => finish (read_entries (zip_entries z) (zip_ending_event z) [])
  end.

Definition now {L} : M L Z := l <- history ;; ret (date_now w l).

Definition failure_message (error : exn) : jsstring :=
  js "Parsing failed: " ++
  match error with
  | Error message => message
  | NotAnError => js "Unknown error"
  end.

(** The [try] block of [parseDocument]; [true] stands for the two
    early [return result] statements, after which nothing else runs. *)
Definition parseDocument_try (cfg : object) (filePath : jsstring) (startTime : Z)
    : M ProcessingResult unit :=
  stopped <-
    (if enabled cfg "safetyChecks" then
       safetyResult <- call (EvValidate filePath) (safety_validateFile w filePath) ;;
       if negb (isSafe safetyResult)
       then do update (set_errors (issues safetyResult)) ;; ret true
       else ret false
     else ret false) ;;
  if (stopped : bool) then ret tt
  else
    docxContent <- extractDocxContent filePath ;;
    match part (js "word/document.xml") docxContent with
    | Some ((_ :: _) as documentXml) =>
        parsedDoc <- call (EvParseXml documentXml) (xml2js_parse w documentXml) ;;
        do update (set_content (extractText parsedDoc)) ;;
        do (if enabled cfg "includeMetadata" then
              md <- nested empty_metadata (extractMetadata w docxContent) ;;
              update (set_metadata md)
            else ret tt) ;;
        do (if enabled cfg "extractImages" then
              update (set_images (extractImages docxContent))
            else ret tt) ;;
        do update (set_success true) ;;
        endTime <- now ;;
        update (set_processingTime (endTime - startTime)%Z)
    | _ => update (push_error (js "Invalid DOCX: Missing document.xml"))
    end.

Definition parseDocument (cfg : object) (filePath : jsstring)
    : M ProcessingResult ProcessingResult :=
  startTime <- now ;;
  do try_catch (parseDocument_try cfg filePath startTime)
       (fun error => update (push_error (failure_message error))) ;;
  read.

(** [text.replace(/c/g, out)] for one code unit [c] *)
Definition unit_matcher (c : N) (out : jsstring) : matcher :=
  fun s => match s with
           | a :: _ => if (a =? c)%N then Some (out, 1) else None
           | [] => None
           end.

Definition escapeHtml (text : jsstring) : jsstring :=
  let text := replace_all (unit_matcher 38 (js "&amp;")) text in
  let text := replace_all (unit_matcher 60 (js "&lt;")) text in
  let text := replace_all (unit_matcher 62 (js "&gt;")) text in
  let text := replace_all (unit_matcher 34 (js "&quot;")) text in
  replace_all (unit_matcher 39 (js "&#39;")) text.

(** [content.split('\n')] *)
Fixpoint split_lines (s : jsstring) (cur : jsstring) : list jsstring :=
  match s with
  | [] => [cur]
  | c :: t => if is_newline c then cur :: split_lines t []
              else split_lines t (cur ++ [c])
  end.

Definition QUOTE : N := 34.

(** [convertToHtml]; [escapeHtml] of a title that is not a string
    throws a [TypeError]. *)
Definition convertToHtml (content : jsstring) (metadata : option DocumentMetadata)
    : exn + jsstring :=
  let head := js "<!DOCTYPE html>" ++ [LF] ++ js "<html>" ++ [LF] ++ js "<head>" ++ [LF]
              ++ js "<meta charset=" ++ [QUOTE] ++ js "utf-8" ++ [QUOTE] ++ js ">" ++ [LF] in
  let paragraphs := List.filter (fun p => nonempty (trim p)) (split_lines content []) in
  let body := concat (List.map (fun paragraph =>
                                  js "<p>" ++ escapeHtml paragraph ++ js "</p>" ++ [LF])
                        paragraphs) in
  let foot := js "</body>" ++ [LF] ++ js "</html>" in
  match (match metadata with Some m => title m | None => None end) with
  | Some (Str ((_ :: _) as t)) =>
      inr (head ++ js "<title>" ++ escapeHtml t ++ js "</title>" ++ [LF]
           ++ js "</head>" ++ [LF] ++ js "<body>" ++ [LF]
           ++ js "<h1>" ++ escapeHtml t ++ js "</h1>" ++ [LF] ++ body ++ foot)
  | Some (Str []) | Some Null | None =>
      inr (head ++ js "</head>" ++ [LF] ++ js "<body>" ++ [LF] ++ body ++ foot)
  | Some _ => inl (Error (js "text.replace is not a function"))
  end.

(** [format.toLowerCase() === target] for a lower-case ASCII [target]:
    besides the capital letters only the Kelvin sign lowers to an
    ASCII letter. *)
Fixpoint lowers_to (target format : jsstring) : bool :=
  match target, format with
  | [], [] => true
  | x :: target', c :: format' =>
      ((c =? x)%N || (is_lower x && (c + 32 =? x)%N) || ((x =? 107)%N && (c =? 8490)%N))
      && lowers_to target' format'
  | _, _ => false
  end.

(** [convertToFormat]; no property of [this] is read. *)
Definition convertToFormat (calls : list event) (content format : jsstring)
    (metadata : option DocumentMetadata) : exn + jsstring :=
  if lowers_to (js "markdown") format then inr (convertToMarkdown content metadata)
  else if lowers_to (js "html") format then convertToHtml content metadata
  else if lowers_to (js "json") format then
    inr (json_stringify w content metadata (date_toISOString w (date_now w calls)))
  else inr content.

Definition run_convertToFormat (h : heap) (this : WordParser)
    (calls : list event) (content format : jsstring)
    (metadata : option DocumentMetadata) : exn + jsstring :=
  convertToFormat calls content format metadata.

(** A call of [parseDocument] on parser [this] in store [h]: how the
    awaited promise ends, with the collaborator calls made, in order. *)
Definition run_parseDocument (h : heap) (this : WordParser) (filePath : jsstring)
    : outcome ProcessingResult * list event :=
  let '(r, st) := parseDocument (deref (config this) h) filePath
                    {| local := new_result; log := [] |} in
  (r, log st).
End Methods.

End Parser.

Import Parser.

(** ** The safety manager *)

Module Safety.

(** What one call of [validateFile] uses from outside: [fs], [path],
    [crypto], [Buffer] and the string built-ins.  [statSync] and
    [readFileSync] throw or answer; a file is the list of its bytes. *)
Record file_system := {
  fs_existsSync : jsstring -> bool;
  fs_statSync_size : jsstring -> exn + Z;
  fs_readFileSync : jsstring -> exn + list N;
  path_extname : jsstring -> jsstring;
  path_join : jsstring -> jsstring -> jsstring;
  process_cwd : jsstring;
  toLowerCase : jsstring -> jsstring;
  sha256_hex : list N -> jsstring;
  (* buffer.toString('utf8') of the given bytes *)
  toString_utf8 : list N -> jsstring;
  (* a number inside a template literal *)
  number_toString : number -> jsstring
}.

Record SafetyManager := {
  maxFileSize : number;
  allowedExtensions : gset (list N);
  backupDir : jsstring
}.

Definition setMaxFileSize (size : number) (this : SafetyManager) : SafetyManager :=
  {| maxFileSize := size; allowedExtensions := allowedExtensions this;
     backupDir := backupDir this |}.

Definition setBackupDirectory (dir : jsstring) (this : SafetyManager) : SafetyManager :=
  {| maxFileSize := maxFileSize this; allowedExtensions := allowedExtensions this;
     backupDir := dir |}.

Definition suspiciousPatterns : list string :=
  ["eval("; "exec("; "system("; "shell_exec("; "base64_decode(";
   "javascript:"; "<script"; "vbscript:"]%string.

(** [fileSize > this.maxFileSize]; a comparison with [NaN] is false. *)
Definition exceeds (fileSize : Z) (limit : number) : bool :=
  match limit with
  | Int m => (m <? fileSize)%Z
  | NegZero => (0 <? fileSize)%Z
  | Infinity negative => negative
  | NaN => false
  end.

(** [error instanceof Error ? error.message : 'Unknown error'] *)
Definition error_message (error : exn) : jsstring :=
  match error with
  | Error message => message
  | NotAnError => js "Unknown error"
  end.

Section Methods.
Variable fs : file_system.

(** [new SafetyManager()] *)
Definition new_manager : SafetyManager :=
  {| maxFileSize := Int (100 * 1024 * 1024);
     allowedExtensions := {[js ".docx"; js ".doc"; js ".rtf"; js ".odt"]};
     backupDir := path_join fs (process_cwd fs) (js ".fss-word-backups") |}.

Definition addAllowedExtension (ext : jsstring) (this : SafetyManager) : SafetyManager :=
  {| maxFileSize := maxFileSize this;
     allowedExtensions := {[toLowerCase fs ext]} ∪ allowedExtensions this;
     backupDir := backupDir this |}.

(** [basicMalwareCheck]: the patterns are looked for in the lowered text
    of the first 10000 bytes. *)
Definition basicMalwareCheck (buffer : list N) : bool :=
  let content := toString_utf8 fs (take (Nat.min (length buffer) 10000) buffer) in
  existsb (fun pattern =>
             includes (toLowerCase fs (js pattern)) (toLowerCase fs content))
    suspiciousPatterns.

(** A call into [fs] inside the [try] block. *)
Definition attempt {L A} (answer : exn + A) : M L A := finish (settle answer).

Definition push_issue (issue : jsstring) : M (list jsstring) unit :=
  update (fun issues => issues ++ [issue]).

(** [validateFile]; the object being built is the [issues] array, which
    the [catch] block shares with the [try] block. *)
Definition validateFile (this : SafetyManager) (filePath : jsstring)
    : M (list jsstring) SafetyResult :=
  try_catch
    (if negb (fs_existsSync fs filePath) then
       do push_issue (js "File does not exist") ;;
       found <- read ;;
       ret {| isSafe := false; issues := found; hash := []; fileSize := 0 |}
     else
       let ext := toLowerCase fs (path_extname fs filePath) in
       do (if negb (bool_decide (ext ∈ allowedExtensions this))
           then push_issue (js "Unsupported file extension: " ++ ext)
           else ret tt) ;;
       size <- attempt (fs_statSync_size fs filePath) ;;
       do (if exceeds size (maxFileSize this)
           then push_issue (js "File too large: " ++ number_toString fs (Int size)
                            ++ js " bytes (max: "
                            ++ number_toString fs (maxFileSize this) ++ js ")")
           else ret tt) ;;
       fileBuffer <- attempt (fs_readFileSync fs filePath) ;;
       let digest := sha256_hex fs fileBuffer in
       do (if basicMalwareCheck fileBuffer
           then push_issue (js "Potential security risk detected")
           else ret tt) ;;
       found <- read ;;
       ret {| isSafe := (length found =? 0)%nat; issues := found;
              hash := digest; fileSize := size |})
    (fun error =>
       do push_issue (js "Validation error: " ++ error_message error) ;;
       found <- read ;;
       ret {| isSafe := false; issues := found; hash := []; fileSize := 0 |}).

(** One call of [validateFile]: how the awaited promise ends. *)
Definition run_validateFile (this : SafetyManager) (filePath : jsstring)
    : outcome SafetyResult :=
  fst (validateFile this filePath {| local := []; log := [] |}).

End Methods.

End Safety.

Import Safety.

(** * Vocabulary of the properties and sample inputs *)

(** Every white-space unit is a space that is not followed by another
    white-space unit. *)
Fixpoint single_spaced (s : jsstring) : bool :=
  match s with
  | [] => true
  | c :: t =>
      (negb (is_space c)
       || ((c =? SP)%N && match t with d :: _ => negb (is_space d) | [] => true end))
      && single_spaced t
  end.

Definition starts_clean (s : jsstring) : Prop :=
  match s with c :: _ => is_space c = false | [] => True end.

(** The shape of a string after [.replace(/\s+/g, ' ').trim()]. *)
Record normalised (s : jsstring) : Prop := {
  norm_no_newline : LF ∉ s;
  norm_no_tab : TAB ∉ s;
  norm_only_spaces : forall c, c ∈ s -> is_space c = true -> c = SP;
  norm_single : forall a b, s <> a ++ SP :: SP :: b;
  norm_no_leading : forall c r, s = c :: r -> is_space c = false;
  norm_no_trailing : forall r c, s = r ++ [c] -> is_space c = false
}.

(** Scenario B as xml2js delivers it: one ['w:p'] property holding the
    two paragraphs. *)
Definition two_paragraphs : node :=
  Obj [(js "w:body",
        Obj [(js "w:p",
              Arr [Obj [(js "w:r", Obj [(js "w:t", Str (js "First"))])];
                   Obj [(js "w:r", Obj [(js "w:t", Str (js "Second"))])]])])].

(** The same two paragraphs as a sequence of one-paragraph elements. *)
Definition two_paragraph_elements : node :=
  Obj [(js "w:body",
        Arr [Obj [(js "w:p", Obj [(js "w:r", Obj [(js "w:t", Str (js "First"))])])];
             Obj [(js "w:p", Obj [(js "w:r", Obj [(js "w:t", Str (js "Second"))])])]])].

(** Every string leaf of a tree, in document order. *)
Fixpoint leaves (t : node) : list jsstring :=
  match t with
  | Str s => [s]
  | Arr items => flat_map leaves items
  | Obj props => flat_map (fun kv => leaves (snd kv)) props
  | Null => []
  end.

(** What the fallback scan collects, as the specification words it:
    every trimmed string leaf that is not empty and holds no namespace
    URI. *)
Definition collected (t : node) : list jsstring :=
  List.filter (fun leaf => nonempty leaf && negb (includes (js "http://schemas") leaf))
    (List.map trim (leaves t)).

(** A purely numeric token: one or more code units, each of them one of
    the ten decimal digits ["0"] to ["9"]. *)
Definition purely_numeric (token : jsstring) : Prop :=
  token <> [] /\ Forall (fun c => (48 <= c <= 57)%N) token.

#[global] Instance purely_numeric_dec (token : jsstring) : Decision (purely_numeric token) :=
  (_ : Decision (token <> [] /\ Forall (fun c => (48 <= c <= 57)%N) token)).

(** The tokens it joins: those collected that are longer than 2 units
    and not purely numeric. *)
Definition fallback_tokens (t : node) : list jsstring :=
  filter (fun token => 2 < length token /\ ~ purely_numeric token) (collected t).

(** A sparse tree outside the tag vocabulary: the walk finds nothing and
    the fallback scan supplies the text. *)
Definition sparse_tree : node :=
  Obj [(js "body", Obj [(js "year", Str (js "2024"));
                        (js "text", Str (js "  Some readable words "));
                        (js "n", Str (js "42")); (js "id", Str (js "ab"))])].

(** The children the specification excludes: their tag names hold
    "Pr", "Style", "Properties", "Fonts" or "Settings", or lack the
    markup prefix. *)
Definition excluded (key : jsstring) : bool :=
  negb (startsWith (js "w:") key)
  || includes (js "Pr") key
  || includes (js "Style") key
  || includes (js "Properties") key
  || includes (js "Fonts") key
  || includes (js "Settings") key.

(** The tree without its excluded children, at every level.  The value
    of a literal-text property is kept as it is: the literal-text rule
    reads it whole. *)
Fixpoint prune (t : node) : node :=
  match t with
  | Str s => Str s
  | Arr items => Arr (List.map prune items)
  | Obj props =>
      Obj ((fix prune_props (l : list (jsstring * node)) :=
              match l with
              | [] => []
              | (k, v) :: rest =>
                  if str_eqb k (js "w:t") then (k, v) :: prune_props rest
                  else if excluded k then prune_props rest
                  else (k, prune v) :: prune_props rest
              end) props)
  | Null => Null
  end.

Definition prune_props : list (jsstring * node) -> list (jsstring * node) :=
  fix prune_props (l : list (jsstring * node)) :=
    match l with
    | [] => []
    | (k, v) :: rest =>
        if str_eqb k (js "w:t") then (k, v) :: prune_props rest
        else if excluded k then prune_props rest
        else (k, prune v) :: prune_props rest
    end.

Definition walk_invariant (v : node) : Prop :=
  forall acc, extractTextFromElement (prune v) acc = extractTextFromElement v acc.

(** Property text under a section-properties element, nowhere else. *)
Definition settings_only : node :=
  Obj [(js "w:document",
        Obj [(js "w:body",
              Obj [(js "w:sectPr",
                    Obj [(js "w:note", Str (js "Hidden settings text"))])])])].

(** A paragraph with run properties next to its text. *)
Definition styled_paragraph : node :=
  Obj [(js "w:body",
        Obj [(js "w:sdt",
              Obj [(js "w:sdtPr", Obj [(js "w:alias", Str (js "Title style name"))]);
                   (js "w:sdtContent",
                    Obj [(js "w:p",
                          Obj [(js "w:pPr", Obj [(js "w:jc", Str (js "center"))]);
                               (js "w:r", Obj [(js "w:t", Str (js "Quarterly results"))])])])])])].

(** A namespace URI as the text of a paragraph element. *)
Definition uri_leaf : jsstring :=
  js "http://schemas.openxmlformats.org/wordprocessingml/2006/main".
Definition uri_paragraph : node := Obj [(js "w:p", Str uri_leaf)].


(** What [read_core] and [read_app] do to the three counts. *)
Definition counts (m : DocumentMetadata) : option number * option number * option number :=
  (pages m, words m, characters m).

Definition count_of (props : node) (k : string) (before : option number) : option number :=
  if truthy (get (js k) props)
  then Some (parseInt (toString (default (Str []) (get (js k) props))))
  else before.

(** The parser used in the examples: it knows two documents. *)
Definition app_xml : jsstring := js "<Properties><Pages>abc</Pages></Properties>".
Definition doc_xml : jsstring := js "<w:document/>".

Definition sample_world (verdict : exn + SafetyResult)
    (container : exn + option zip_file) : collaborators :=
  {| safety_validateFile := fun _ => verdict;
     yauzl_open := fun _ => container;
     xml2js_parse := fun xml =>
       if str_eqb xml app_xml
       then inr (Obj [(js "Properties", Obj [(js "Pages", Str (js "abc"))])])
       else if str_eqb xml doc_xml
       then inr (Obj [(js "w:document", Str [])])
       else inl (Error (js "Unexpected end"));
     date_now := fun calls => Z.of_nat (length calls);
     date_toISOString := fun _ => js "2024-01-01T00:00:00.000Z";
     json_stringify := fun content _ _ => content |}.




(** A parser that knows one more document: application properties with
    a numeric, a non-numeric and an empty count. *)
Definition counted_xml : jsstring :=
  js "<Properties><Pages>12</Pages><Words>many</Words><Characters/></Properties>".

Definition counting_world : collaborators :=
  {| safety_validateFile := fun _ => inl NotAnError;
     yauzl_open := fun _ => inl NotAnError;
     xml2js_parse := fun xml =>
       if str_eqb xml counted_xml
       then inr (Obj [(js "Properties",
                       Obj [(js "Pages", Str (js "12")); (js "Words", Str (js "many"));
                            (js "Characters", Str [])])])
       else if nonempty (trim xml) then inl (Error (js "Unexpected end"))
       else inr Null;
     date_now := fun calls => Z.of_nat (length calls);
     date_toISOString := fun _ => js "2024-01-01T00:00:00.000Z";
     json_stringify := fun content _ _ => content |}.


(** A container with the two parts, read in two chunks each. *)
Definition sample_zip : zip_file :=
  {| zip_entries :=
       [(js "word/", NoStream);
        (js "word/document.xml", Stream (StreamEnd [js "<w:docu"; js "ment/>"]));
        (js "docProps/app.xml",
         Stream (StreamEnd [js "<Properties><Pages>abc</Pa"; js "ges></Properties>"]))];
     zip_ending_event := ZipEnd |}.

(** The same container with a document entry whose compressed data is
    damaged: its read stream emits ['error']. *)
Definition damaged_zip : zip_file :=
  {| zip_entries :=
       [(js "word/", NoStream);
        (js "word/document.xml",
         Stream (StreamError [js "<w:docu"] (Error (js "invalid stored block lengths"))))];
     zip_ending_event := ZipEnd |}.

Definition safe_verdict : SafetyResult :=
  {| isSafe := true; issues := []; hash := js "9f86d081"; fileSize := 2048 |}.

(** The container at [filePath] opens and one of its entries has a read
    stream that emits ['error'] with [e]. *)
Definition stream_fails (w : collaborators) (filePath : jsstring) (e : exn) : Prop :=
  exists z fileName chunks,
    yauzl_open w filePath = inr (Some z) /\
    (fileName, Stream (StreamError chunks e)) ∈ zip_entries z.

(** The invariant of a [ProcessingResult]. *)
Definition well_formed (r : ProcessingResult) : Prop :=
  (success r = true -> is_Some (content r)) /\
  (errors r <> [] -> success r = false).

Definition unsafe_verdict : SafetyResult :=
  {| isSafe := false; issues := [js "Unsupported file extension: .txt"];
     hash := []; fileSize := 0 |}.

(** A parser built with safety checks switched off. *)
Definition lenient_parser : WordParser * heap :=
  new_parser (<["safetyChecks" := VBool false]> ∅) ∅.

Definition tampering : list mutation :=
  [SetProp "safetyChecks" (VBool true); DeleteProp "includeMetadata"].

(** What [md_step] does with a sentence that is not blank. *)
Definition md_step_spec (st : md_state) (sentence : jsstring) : md_state :=
  let clean := trim sentence in
  if (length clean <? 50)%nat && heading_shape clean then
    {| markdown := markdown st
                   ++ (if nonempty (currentParagraph st)
                       then trim (currentParagraph st) ++ [LF; LF] else [])
                   ++ js "## " ++ clean ++ [LF; LF];
       currentParagraph := [] |}
  else
    let buffer := currentParagraph st ++ clean ++ [SP] in
    if (200 <? length buffer)%nat
    then {| markdown := markdown st ++ trim buffer ++ [LF; LF]; currentParagraph := [] |}
    else {| markdown := markdown st; currentParagraph := buffer |}.

(** A short sentence that begins with a capital and has a later
    capital, but not right after its first word. *)
Definition later_capital : jsstring := js "Hello world Again.".

Definition heading30 : jsstring := js "Annual Reports Of Our Company.".
Definition body250 : jsstring :=
  js "the figures for the year were gathered from every branch office and checked twice against the ledgers before they went into this summary which the board reads in spring and which the auditors then compare with the bank statements of each one of them.".

(** The fragments that are not text: the paragraph break, the tab and
    the line break. *)
Definition separator_fragment (f : jsstring) : Prop :=
  f = [LF; LF] \/ f = [TAB] \/ f = [LF].

(** A fragment taken from one of the string leaves [ls] that has visible
    text: the leaf as it is, or trimmed. *)
Definition leaf_fragment (ls : list jsstring) (f : jsstring) : Prop :=
  exists leaf, leaf ∈ ls /\ trim leaf <> [] /\ (f = leaf \/ f = trim leaf).

(** Fragment lists in which every paragraph break was pushed behind a
    fragment that does not end in a newline. *)
Inductive well_broken : list jsstring -> Prop :=
| wb_nil : well_broken []
| wb_text l f : well_broken l -> f <> [LF; LF] -> well_broken (l ++ [f])
| wb_break l : well_broken l -> needs_break l = true -> well_broken (l ++ [[LF; LF]]).

(** What the walk may append for a tree with string leaves [ls]. *)
Definition from_tree (ls : list jsstring) (f : jsstring) : Prop :=
  f <> [] /\ (separator_fragment f \/ leaf_fragment ls f).

Definition appends_from_tree (v : node) : Prop :=
  forall acc, exists added,
    extractTextFromElement v acc = acc ++ added /\ Forall (from_tree (leaves v)) added.

(** A white-space code unit. *)
Definition blank (c : N) : Prop := is_space c = true.

(** The assignments of [read_core] and [read_app] as functions on the
    metadata record. *)
Definition core_fields (parsed : node) (m : DocumentMetadata) : DocumentMetadata :=
  let props := or_empty (get (js "cp:coreProperties") parsed) in
  let m := set_title (get (js "dc:title") props) m in
  let m := set_author (get (js "dc:creator") props) m in
  let m := set_subject (get (js "dc:subject") props) m in
  let m := if truthy (get (js "dcterms:created") props)
           then set_created
                  (DateOf (toString (default (Str []) (get (js "dcterms:created") props)))) m
           else m in
  if truthy (get (js "dcterms:modified") props)
  then set_modified
         (DateOf (toString (default (Str []) (get (js "dcterms:modified") props)))) m
  else m.

Definition app_fields (parsed : node) (m : DocumentMetadata) : DocumentMetadata :=
  let props := or_empty (get (js "Properties") parsed) in
  let count k := parseInt (toString (default (Str []) (get (js k) props))) in
  let m := if truthy (get (js "Pages") props) then set_pages (count "Pages") m else m in
  let m := if truthy (get (js "Words") props) then set_words (count "Words") m else m in
  if truthy (get (js "Characters") props)
  then set_characters (count "Characters") m else m.

(** A part that is present and not empty. *)
Definition present_part (name : jsstring) (docxContent : list (jsstring * jsstring))
    : option jsstring :=
  match part name docxContent with
  | Some (c :: x) => Some (c :: x)
  | _ => None
  end.

(** What [extractMetadata] returns and which documents it hands to the
    XML parser, by cases on the two parts and on the parser's answers. *)
Definition metadata_outcome (w : collaborators) (docxContent : list (jsstring * jsstring))
    : DocumentMetadata * list event :=
  let app_step (m : DocumentMetadata) (calls : list event) :=
    match present_part (js "docProps/app.xml") docxContent with
    | Some app =>
        match xml2js_parse w app with
        | inr parsed => (app_fields parsed m, calls ++ [EvParseXml app])
        | inl _ => (m, calls ++ [EvParseXml app])
        end
    | None => (m, calls)
    end in
  match present_part (js "docProps/core.xml") docxContent with
  | Some core =>
      match xml2js_parse w core with
      | inr Null | inl _ => (empty_metadata, [EvParseXml core])
      | inr parsed => app_step (core_fields parsed empty_metadata) [EvParseXml core]
      end
  | None => app_step empty_metadata []
  end.

(** A failed result with the given errors. *)
Definition failed (errs : list jsstring) : ProcessingResult := set_errors errs new_result.

Definition MISSING_DOCUMENT : jsstring := js "Invalid DOCX: Missing document.xml".

(** The course of one call of [parseDocument], by cases on the
    configuration and on what the collaborators answer: how the call
    ends and which collaborator calls it makes. *)
Definition parse_outcome (w : collaborators) (cfg : object) (filePath : jsstring)
    : outcome ProcessingResult * list event :=
  let thrown (e : exn) (calls : list event) :=
    (Returned (failed [failure_message e]), calls) in
  let after_gate (calls : list event) :=
    let calls := calls ++ [EvOpenContainer filePath] in
    match yauzl_open w filePath with
    | inl e => thrown e calls
    | inr None => thrown (Error (js "Failed to open DOCX file")) calls
    | inr (Some z) =>
        match read_entries (zip_entries z) (zip_ending_event z) [] with
        | Thrown e => thrown e calls
        | Uncaught e => (Uncaught e, calls)
        | Returned docxContent =>
            match present_part (js "word/document.xml") docxContent with
            | None => (Returned (failed [MISSING_DOCUMENT]), calls)
            | Some xml =>
                let calls := calls ++ [EvParseXml xml] in
                match xml2js_parse w xml with
                | inl e => thrown e calls
                | inr parsed =>
                    let m := metadata_outcome w docxContent in
                    let calls := if enabled cfg "includeMetadata"
                                 then calls ++ snd m else calls in
                    (Returned
                       {| success := true;
                          content := Some (extractText parsed);
                          metadata := if enabled cfg "includeMetadata"
                                      then Some (fst m) else None;
                          images := if enabled cfg "extractImages"
                                    then Some (extractImages docxContent) else None;
                          warnings := [];
                          errors := [];
                          processingTime := Some (date_now w calls - date_now w [])%Z |},
                     calls)
                end
            end
        end
    end in
  if enabled cfg "safetyChecks" then
    match safety_validateFile w filePath with
    | inl e => thrown e [EvValidate filePath]
    | inr verdict =>
        if isSafe verdict then after_gate [EvValidate filePath]
        else (Returned (failed (issues verdict)), [EvValidate filePath])
    end
  else after_gate [].

Definition is_parse_event (ev : event) : Prop :=
  match ev with EvParseXml _ => True | _ => False end.

(** An entry whose reading cannot fail: a directory (never opened), a
    missing stream, or a stream that ends. *)
Definition healthy_entry (entry : jsstring * open_stream) : Prop :=
  endsWith (js "/") (fst entry) = true \/
  match snd entry with
  | NoStream | Stream (StreamEnd _) => True
  | _ => False
  end.

(** The file entries of a container with the text of their streams: the
    entries that are no directories, whose stream ends and whose name is
    not [__proto__]. *)
Fixpoint stored_parts (entries : list (jsstring * open_stream))
    : list (jsstring * jsstring) :=
  match entries with
  | [] => []
  | (fileName, opened) :: rest =>
      if endsWith (js "/") fileName then stored_parts rest
      else match opened with
           | Stream (StreamEnd chunks) =>
               if str_eqb fileName (js "__proto__") then stored_parts rest
               else (fileName, concat chunks) :: stored_parts rest
           | _ => stored_parts rest
           end
  end.

(** The parts that [extractImages] turns into buffers. *)
Definition is_image_part (kv : jsstring * jsstring) : bool :=
  startsWith (js "word/media/") (fst kv) && is_image_name (fst kv) && nonempty (snd kv).

(** In any letter case: [c] is the code unit [x] of a pattern or, when
    [x] is a small letter, its capital. *)
Definition letter_of (x c : N) : Prop :=
  c = x \/ ((97 <= x <= 122)%N /\ (c + 32 = x)%N).

Definition image_extensions : list string :=
  [".png"; ".jpg"; ".jpeg"; ".gif"; ".bmp"]%string.

(** A part name under [word/media/] that ends, in any letter case, in
    one of the five image extensions. *)
Definition media_image (name : jsstring) : Prop :=
  (exists rest, name = js "word/media/" ++ rest) /\
  exists stem ending ext,
    name = stem ++ ending /\ ext ∈ image_extensions /\ Forall2 letter_of (js ext) ending.

(** A name that [Object.keys] lists among the array indices. *)
Definition indexed_name (name : jsstring) : bool :=
  match array_index name with Some _ => true | None => false end.

(** A container with an entry named [__proto__], two entries whose
    names are array indices, and a media entry. *)
Definition odd_zip : zip_file :=
  {| zip_entries :=
       [(js "word/document.xml", Stream (StreamEnd [doc_xml]));
        (js "10", Stream (StreamEnd [js "ten"]));
        (js "__proto__", Stream (StreamEnd [js "polluted"]));
        (js "9", Stream (StreamEnd [js "nine"]));
        (js "word/media/a.png", Stream (StreamEnd [js "QUJD"]))];
     zip_ending_event := ZipEnd |}.

(** The text that stands for one code unit in escaped HTML. *)
Definition html_entity (c : N) : jsstring :=
  if (c =? 38)%N then js "&amp;"
  else if (c =? 60)%N then js "&lt;"
  else if (c =? 62)%N then js "&gt;"
  else if (c =? 34)%N then js "&quot;"
  else if (c =? 39)%N then js "&#39;"
  else [c].

(** The four code units that must not stand in escaped text: [<], [>],
    the double and the single quote. *)
Definition raw_markup (c : N) : bool :=
  (c =? 60)%N || (c =? 62)%N || (c =? 34)%N || (c =? 39)%N.

(** ASCII upper-casing of a format name. *)
Definition ascii_upper (c : N) : N := if is_lower c then (c - 32)%N else c.

(** A piece that ends in a full stop, an exclamation mark or a question
    mark. *)
Definition ends_sentence (piece : jsstring) : Prop :=
  exists r c, piece = r ++ [c] /\ is_sentence_end c = true.

(** The [Paragraphs] figure of the [info --detailed] command:
    [content.split('\n').filter(p => p.trim()).length]. *)
Definition paragraph_count (content : jsstring) : nat :=
  length (List.filter (fun p => nonempty (trim p)) (split_lines content [])).

(** The page that [convertToHtml] builds around the paragraphs when no
    title is given. *)
Definition html_page (body : jsstring) : jsstring :=
  js "<!DOCTYPE html>" ++ [LF] ++ js "<html>" ++ [LF] ++ js "<head>" ++ [LF]
  ++ js "<meta charset=" ++ [QUOTE] ++ js "utf-8" ++ [QUOTE] ++ js ">" ++ [LF]
  ++ js "</head>" ++ [LF] ++ js "<body>" ++ [LF] ++ body
  ++ js "</body>" ++ [LF] ++ js "</html>".

(** The last code unit, if any, is no white space. *)
Definition ends_clean (s : jsstring) : Prop := starts_clean (rev s).

(** The pieces of a text, each followed by one space. *)
Definition spaced (pieces : list jsstring) : jsstring :=
  concat (List.map (fun p => p ++ [SP]) pieces).

(** A sentence that the markdown loop adds to the paragraph buffer. *)
Definition plain_sentence (sentence : jsstring) : Prop :=
  (length (trim sentence) <? 50)%nat && heading_shape (trim sentence) = false.

Definition visible (c : N) : bool := negb (is_space c).

(** The issues that [validateFile] reports for the extension and for
    the size of a file. *)
Definition extension_issue (fs : file_system) (this : SafetyManager)
    (filePath : jsstring) : list jsstring :=
  let ext := toLowerCase fs (path_extname fs filePath) in
  if bool_decide (ext ∈ allowedExtensions this) then []
  else [js "Unsupported file extension: " ++ ext].

Definition size_issue (fs : file_system) (this : SafetyManager) (size : Z)
    : list jsstring :=
  if exceeds size (maxFileSize this)
  then [js "File too large: " ++ number_toString fs (Int size) ++ js " bytes (max: "
        ++ number_toString fs (maxFileSize this) ++ js ")"]
  else [].

Definition content_issue (fs : file_system) (fileBuffer : list N) : list jsstring :=
  if basicMalwareCheck fs fileBuffer then [js "Potential security risk detected"] else [].

Definition validation_error (error : exn) : jsstring :=
  js "Validation error: " ++ error_message error.

(** A verdict without hash and size. *)
Definition rejected (found : list jsstring) : SafetyResult :=
  {| isSafe := false; issues := found; hash := []; fileSize := 0 |}.

(** The verdict of [validateFile], by cases on what the file system
    answers. *)
Definition verdict_of (fs : file_system) (this : SafetyManager) (filePath : jsstring)
    : SafetyResult :=
  if fs_existsSync fs filePath then
    match fs_statSync_size fs filePath with
    | inl error =>
        rejected (extension_issue fs this filePath ++ [validation_error error])
    | inr size =>
        match fs_readFileSync fs filePath with
        | inl error =>
            rejected (extension_issue fs this filePath ++ size_issue fs this size
                      ++ [validation_error error])
        | inr fileBuffer =>
            let found := extension_issue fs this filePath ++ size_issue fs this size
                         ++ content_issue fs fileBuffer in
            {| isSafe := (length found =? 0)%nat; issues := found;
               hash := sha256_hex fs fileBuffer; fileSize := size |}
        end
    end
  else rejected [js "File does not exist"].

(** A file system with one file content under every path, present or
    not; extensions are read off three known endings, text is ASCII. *)
Definition sample_fs (present : bool) (bytes : exn + list N) : file_system :=
  {| fs_existsSync := fun _ => present;
     fs_statSync_size := fun _ =>
       match bytes with
       | inr b => inr (Z.of_nat (length b))
       | inl _ => inr 4096%Z
       end;
     fs_readFileSync := fun _ => bytes;
     path_extname := fun p =>
       if endsWith (js ".docx") p then js ".docx"
       else if endsWith (js ".DOCX") p then js ".DOCX"
       else if endsWith (js ".txt") p then js ".txt"
       else [];
     path_join := fun a b => a ++ js "/" ++ b;
     process_cwd := js "/home/user";
     toLowerCase := List.map fold_case;
     sha256_hex := fun _ => js "9f86d081";
     toString_utf8 := fun b => b;
     number_toString := fun n =>
       match n with
       | Int z => js (NilEmpty.string_of_int (Z.to_int z))
       | NegZero => js "0"
       | Infinity negative => if negative then js "-Infinity" else js "Infinity"
       | NaN => js "NaN"
       end |}.

(** The safety manager of the parser, made by its constructor over the
    file system [fs], is what answers for [filePath]. *)
Definition guarded_by (fs : file_system) (w : collaborators) (filePath : jsstring) : Prop :=
  settle (safety_validateFile w filePath) = run_validateFile fs (new_manager fs) filePath.

Definition guarded_world (fs : file_system) (container : exn + option zip_file)
    : collaborators :=
  {| safety_validateFile := fun filePath => inr (verdict_of fs (new_manager fs) filePath);
     yauzl_open := fun _ => container;
     xml2js_parse := xml2js_parse (sample_world (inl NotAnError) container);
     date_now := fun calls => Z.of_nat (length calls);
     date_toISOString := fun _ => js "2024-01-01T00:00:00.000Z";
     json_stringify := fun content _ _ => content |}.

(** A file of 10000 letters followed by a script tag. *)
Definition late_script : list N := replicate 10000 65%N ++ js "<script>".

(** * Properties *)

(** ** Worked examples *)

Section Examples.

(** Scenario A: a single run. *)
Example scenario_A :
  extractText
    (Obj [(js "w:document",
           Obj [(js "w:body",
                 Obj [(js "w:p", Obj [(js "w:r", Obj [(js "w:t", Str (js "Hello"))])])])])])
  = js "Hello".
Proof. by vm_compute. Qed.

Example cleanup_word_boundaries :
  cleanup (js "helloWorld XMLParser abc123 9Lives")
  = js "hello World XML Parser abc 123 9 Lives".
Proof. by vm_compute. Qed.

Example cleanup_hex_runs :
  cleanup (js "id 12345678 ABCDEFAB end") = js "id end" /\
  cleanup (js "rev 00A1B2C3D4") = js "rev 00 A1 B2 C3 D4".
Proof. by vm_compute. Qed.

Example newline_steps :
  replace_all (run_matcher is_newline 3 [LF; LF]) (js "a" ++ [LF; LF; LF; LF] ++ js "b")
  = js "a" ++ [LF; LF] ++ js "b" /\
  replace_all (run_matcher is_blank 1 [SP]) (js "a " ++ [TAB; SP] ++ js "b") = js "a b" /\
  replace_all newline_space_matcher (js "a" ++ [LF; SP; SP] ++ js "b")
  = js "a" ++ [LF; SP] ++ js "b".
Proof. by vm_compute. Qed.

Example literal_text_shapes :
  literal_text (Obj [(js "_", Str (js "Hi ")); (js "xml:space", Str (js "preserve"))])
  = Some (js "Hi ") /\
  literal_text (Str [SP]) = None /\
  literal_text (Obj [(js "$", Obj [(js "xml:space", Str (js "preserve"))])]) = None /\
  literal_text (Arr [Str (js "Hi")]) = None.
Proof. by vm_compute. Qed.

(** A break is pushed before a paragraph only after text that does not
    end in a newline. *)
Example paragraph_break_once :
  extractTextFromElement
    (Arr [Obj [(js "w:r", Obj [(js "w:t", Str (js "a"))])];
          Obj [(js "w:br", Obj [])];
          Obj [(js "w:p", Obj [(js "w:r", Obj [(js "w:t", Str (js "b"))])])];
          Obj [(js "w:p", Obj [(js "w:r", Obj [(js "w:t", Str (js "c"))])])]]) []
  = [js "a"; [LF]; js "b"; [LF; LF]; js "c"].
Proof. by vm_compute. Qed.

Example split_sentences_example :
  split_sentences (js "One. Two!  Three? Four") = [js "One."; js "Two!"; js "Three?"; js "Four"] /\
  split_sentences (js "Hello. ") = [js "Hello."; []] /\
  split_sentences (js "v1.2 is out") = [js "v1.2 is out"].
Proof. by vm_compute. Qed.

Example markdown_with_metadata :
  convertToMarkdown (js "Intro. this is text.")
    (Some (set_author (Some (Str (js "A"))) (set_title (Some (Str (js "T"))) empty_metadata)))
  = js "# T" ++ [LF; LF] ++ js "**Author:** A" ++ [LF; LF] ++ js "Intro. this is text.".
Proof. by vm_compute. Qed.

Example parseInt_examples :
  parseInt (js "12") = Int 12 /\ parseInt (js "  -12abc") = Int (-12) /\
  parseInt (js "0x1F") = Int 31 /\ parseInt (js "0abc") = Int 0 /\
  parseInt (js "abc") = NaN /\ parseInt (js "-") = NaN /\ parseInt [] = NaN.
Proof. by vm_compute. Qed.

(** The value stored is a double: integers beyond 53 bits are rounded,
    a digit string beyond the range gives infinity, and ["-0"] gives
    minus zero. *)
Example parseInt_doubles :
  parseInt (js "9007199254740993") = Int 9007199254740992 /\
  parseInt (js "9007199254740995") = Int 9007199254740996 /\
  parseInt (js "-0") = NegZero /\
  parseInt (js "1" ++ replicate 309 48%N) = Infinity false /\
  parseInt (js "-1" ++ replicate 309 48%N) = Infinity true.
Proof. by vm_compute. Qed.

(** A core part of white space only: the parser resolves with [null],
    the property access throws, and the application part is not read,
    although its [Pages] field holds a number. *)
Example null_core_part :
  let docxContent := [(js "docProps/core.xml", [SP]);
                      (js "docProps/app.xml", counted_xml)] in
  xml2js_parse counting_world [SP] = inr Null /\
  extractMetadata counting_world docxContent {| local := empty_metadata; log := [] |}
  = (Returned empty_metadata, {| local := empty_metadata; log := [EvParseXml [SP]] |}).
Proof. by vm_compute. Qed.

(** A document part of white space only parses to [null], from which
    the empty text is extracted. *)
Example null_document_part :
  let blank_zip :=
    {| zip_entries := [(js "word/document.xml", Stream (StreamEnd [[SP; LF]]))];
       zip_ending_event := ZipEnd |} in
  let w :=
    {| safety_validateFile := fun _ => inl NotAnError;
       yauzl_open := fun _ => inr (Some blank_zip);
       xml2js_parse := xml2js_parse counting_world;
       date_now := fun calls => Z.of_nat (length calls);
       date_toISOString := fun _ => [];
       json_stringify := fun content _ _ => content |} in
  extractText Null = [] /\
  match fst (run_parseDocument w (snd lenient_parser) (fst lenient_parser)
               (js "blank.docx")) with
  | Returned r => success r = true /\ content r = Some [] /\ errors r = []
  | _ => False
  end.
Proof. by vm_compute. Qed.

Example extractImages_example :
  extractImages [(js "word/document.xml", doc_xml);
                 (js "word/media/image1.PNG", js "QUJD");
                 (js "word/media/notes.txt", js "x");
                 (js "media/image2.png", js "QUJE")]
  = [BufferFromBase64 (js "QUJD")].
Proof. by vm_compute. Qed.

End Examples.

(** ** White space of the extracted text *)

Section Whitespace.

Lemma skip_while_starts_clean s : starts_clean (skip_while is_space s).
Proof.
  induction s as [|c t IH]; simpl; [done|].
  destruct (is_space c) eqn:E; [done|]. simpl. exact E.
Qed.

Lemma skip_while_length p s : length (skip_while p s) <= length s.
Proof. induction s as [|c t IH]; simpl; [lia|]. destruct (p c); simpl; lia. Qed.

Lemma skip_while_suffix p s : exists a, s = a ++ skip_while p s /\ forallb p a = true.
Proof.
  induction s as [|c t [a [Ha Hp]]]; simpl.
  - by exists [].
  - destruct (p c) eqn:E.
    + exists (c :: a). simpl. rewrite E, Hp. split; [by f_equal | done].
    + by exists [].
Qed.

(** Skipping a matched run resumes the scan behind the run. *)
Lemma replace_skip_run p min out s :
  replace_from (run_matcher p min out) (run_length p s) s
  = replace_from (run_matcher p min out) 0 (skip_while p s).
Proof.
  induction s as [|c t IH]; simpl; [done|].
  destruct (p c) eqn:E; simpl; [exact IH|].
  reflexivity.
Qed.

Lemma collapse_cons c t :
  collapse_whitespace (c :: t)
  = if is_space c then SP :: collapse_whitespace (skip_while is_space t)
    else c :: collapse_whitespace t.
Proof.
  unfold collapse_whitespace, replace_all. simpl.
  unfold run_matcher at 1. simpl. destruct (is_space c) eqn:E; simpl; [|done].
  by rewrite replace_skip_run.
Qed.

Lemma collapse_starts_clean s :
  starts_clean s -> starts_clean (collapse_whitespace s).
Proof.
  destruct s as [|c t]; [done|]. simpl. intros E.
  rewrite collapse_cons, E. exact E.
Qed.

Lemma collapse_single_spaced s : single_spaced (collapse_whitespace s) = true.
Proof.
  remember (length s) as n eqn:Hn.
  revert s Hn. induction n as [n IH] using lt_wf_ind. intros [|c t] Hn; [done|].
  rewrite collapse_cons. destruct (is_space c) eqn:E.
  - cbn [single_spaced]. rewrite (IH (length (skip_while is_space t))); [| |done].
    + pose proof (collapse_starts_clean _ (skip_while_starts_clean t)) as Hc.
      destruct (collapse_whitespace (skip_while is_space t)); simpl in *.
      * done.
      * by rewrite Hc.
    + pose proof (skip_while_length is_space t). simpl in Hn. lia.
  - cbn [single_spaced]. rewrite E. simpl.
    apply (IH (length t)); [simpl in Hn; lia | done].
Qed.

Lemma single_spaced_app_r a b :
  single_spaced (a ++ b) = true -> single_spaced b = true.
Proof.
  induction a as [|c a IH]; simpl; [done|].
  intros H. apply andb_true_iff in H as [_ H]. by apply IH.
Qed.

Lemma single_spaced_app_l a b :
  single_spaced (a ++ b) = true -> single_spaced a = true.
Proof.
  induction a as [|c a IH]; simpl; [done|].
  intros H. apply andb_true_iff in H as [H1 H2].
  rewrite (IH H2), andb_true_r.
  destruct (is_space c); simpl in *; [|done].
  destruct a as [|d a]; simpl in *.
  - apply andb_true_iff in H1 as [-> _]. done.
  - exact H1.
Qed.

Lemma single_spaced_spaces s c :
  single_spaced s = true -> c ∈ s -> is_space c = true -> c = SP.
Proof.
  induction s as [|d s IH]; simpl; intros H Hin Hc.
  - by apply elem_of_nil in Hin.
  - apply andb_true_iff in H as [H1 H2].
    apply elem_of_cons in Hin as [->|Hin]; [|by apply IH].
    rewrite Hc in H1. simpl in H1.
    apply andb_true_iff in H1 as [H1 _]. by apply N.eqb_eq in H1.
Qed.

Lemma single_spaced_no_double a b :
  single_spaced (a ++ SP :: SP :: b) = false.
Proof.
  induction a as [|c a IH]; simpl; [done|].
  rewrite IH. apply andb_false_r.
Qed.

(** [trimEnd] cuts a white-space suffix off. *)
Lemma trimEnd_prefix s : exists b, s = trimEnd s ++ b.
Proof.
  unfold trimEnd. destruct (skip_while_suffix is_space (rev s)) as [a [Ha _]].
  exists (rev a). rewrite <- rev_app_distr, <- Ha. by rewrite rev_involutive.
Qed.

Lemma trimEnd_ends_clean s r c : trimEnd s = r ++ [c] -> is_space c = false.
Proof.
  unfold trimEnd. intros H.
  pose proof (skip_while_starts_clean (rev s)) as Hc.
  apply (f_equal (@rev N)) in H. rewrite rev_involutive, rev_app_distr in H.
  simpl in H. by rewrite H in Hc.
Qed.

Lemma trim_starts_clean s : starts_clean (trim s).
Proof.
  unfold trim, trimStart.
  pose proof (skip_while_starts_clean s) as Hc.
  destruct (trimEnd_prefix (skip_while is_space s)) as [b Hb].
  rewrite Hb in Hc. by destruct (trimEnd (skip_while is_space s)).
Qed.

Lemma trim_single_spaced s :
  single_spaced s = true -> single_spaced (trim s) = true.
Proof.
  intros H. unfold trim, trimStart.
  destruct (skip_while_suffix is_space s) as [a [Ha _]].
  rewrite Ha in H. apply single_spaced_app_r in H.
  destruct (trimEnd_prefix (skip_while is_space s)) as [b Hb].
  rewrite Hb in H. by apply single_spaced_app_l in H.
Qed.

Lemma trim_collapse_normalised s : normalised (trim (collapse_whitespace s)).
Proof.
  pose proof (trim_single_spaced _ (collapse_single_spaced s)) as Hs.
  pose proof (trim_starts_clean (collapse_whitespace s)) as Hc.
  split.
  - intros Hin. by pose proof (single_spaced_spaces _ _ Hs Hin eq_refl).
  - intros Hin. by pose proof (single_spaced_spaces _ _ Hs Hin eq_refl).
  - intros c. by apply single_spaced_spaces.
  - intros a b E. rewrite E, single_spaced_no_double in Hs. done.
  - intros c r E. by rewrite E in Hc.
  - intros r c E. by apply trimEnd_ends_clean in E.
Qed.

End Whitespace.

(** ** Substrings *)

Section Substrings.

Lemma startsWith_spec p s : startsWith p s = true <-> exists b, s = p ++ b.
Proof.
  revert s. induction p as [|a p IH]; intros s; simpl.
  - split; [by exists s | done].
  - destruct s as [|c s].
    + split; [done | by intros [b Hb]].
    + rewrite andb_true_iff, N.eqb_eq, IH. split.
      * intros [-> [b ->]]. by exists b.
      * intros [b Hb]. injection Hb as -> ->. eauto.
Qed.

Lemma includes_spec p s : includes p s = true <-> exists a b, s = a ++ p ++ b.
Proof.
  induction s as [|c s IH]; simpl.
  - rewrite orb_false_r, startsWith_spec. split.
    + intros [b Hb]. by exists [], b.
    + intros [a [b Hb]]. destruct a; [by exists b | done].
  - rewrite orb_true_iff, startsWith_spec, IH. split.
    + intros [[b Hb] | [a [b ->]]]; [by exists [], b | by exists (c :: a), b].
    + intros [[|x a] [b Hb]]; [left; by exists b|].
      right. injection Hb as -> ->. eauto.
Qed.

Lemma forallb_rev (f : N -> bool) l : forallb f (rev l) = forallb f l.
Proof.
  induction l as [|x l IH]; simpl; [done|].
  rewrite forallb_app, IH. simpl. rewrite andb_true_r. apply andb_comm.
Qed.

(** A string is its trimmed part between two runs of white space. *)
Lemma trim_decompose s :
  exists w1 w2, s = w1 ++ trim s ++ w2
                /\ forallb is_space w1 = true /\ forallb is_space w2 = true.
Proof.
  unfold trim, trimStart, trimEnd.
  destruct (skip_while_suffix is_space s) as [w1 [H1 F1]].
  destruct (skip_while_suffix is_space (rev (skip_while is_space s))) as [w2 [H2 F2]].
  exists w1, (rev w2). split; [|split; [done | by rewrite forallb_rev]].
  rewrite <- rev_app_distr, <- H2, rev_involutive. exact H1.
Qed.

(** An occurrence of a word that starts with a visible unit cannot
    begin inside leading white space. *)
Lemma occurrence_after_spaces c p a b w r :
  is_space c = false -> forallb is_space w = true ->
  a ++ (c :: p) ++ b = w ++ r -> exists a', a = w ++ a'.
Proof.
  intros Hc. revert a. induction w as [|x w IH]; intros a Hw E; [by exists a|].
  simpl in Hw. apply andb_true_iff in Hw as [Hx Hw].
  destruct a as [|y a]; simpl in E.
  - injection E as -> _. congruence.
  - injection E as -> E. destruct (IH a Hw E) as [a' ->]. by exists a'.
Qed.

Lemma includes_trim s : includes NS_SCHEMAS (trim s) = includes NS_SCHEMAS s.
Proof.
  destruct (trim_decompose s) as [w1 [w2 [E [F1 F2]]]].
  apply eq_true_iff_eq. rewrite !includes_spec. split.
  - intros [a [b Hm]]. exists (w1 ++ a), (b ++ w2).
    rewrite E at 1. rewrite Hm. by rewrite <- !app_assoc.
  - intros [a [b Hs]].
    assert (exists a', a = w1 ++ a') as [a' ->].
    { eapply (occurrence_after_spaces 104 (tail NS_SCHEMAS) a b w1 (trim s ++ w2));
        [done | done |]. rewrite <- E. symmetry. exact Hs. }
    assert (exists b', b = b' ++ w2) as [b' ->].
    { assert (exists r, rev b = rev w2 ++ r) as [r Hr].
      { eapply (occurrence_after_spaces 115 (tail (rev NS_SCHEMAS)) (rev b)
                  (rev (w1 ++ a')) (rev w2) (rev (w1 ++ trim s)));
          [done | by rewrite forallb_rev |].
        change (115%N :: tail (rev NS_SCHEMAS)) with (rev NS_SCHEMAS).
        rewrite <- !rev_app_distr. f_equal.
        rewrite <- !app_assoc. rewrite <- E. rewrite Hs. by rewrite <- !app_assoc. }
      exists (rev r). apply (f_equal (@rev N)) in Hr.
      rewrite rev_involutive, rev_app_distr, rev_involutive in Hr. exact Hr. }
    exists a', b'. rewrite E in Hs.
    rewrite <- !app_assoc in Hs. apply app_inv_head in Hs.
    rewrite !app_assoc in Hs. apply app_inv_tail in Hs.
    rewrite Hs. by rewrite <- !app_assoc.
Qed.

End Substrings.

(** ** Claims about [extractText] *)

Section ExtractText.

Lemma primaryText_normalised t : normalised (primaryText t).
Proof. apply trim_collapse_normalised. Qed.

Lemma extractTextFallback_normalised t : normalised (extractTextFallback t).
Proof. apply trim_collapse_normalised. Qed.

(** The result of [extractText] is one of the two candidate texts. *)
Lemma extractText_cases t :
  extractText t = primaryText t \/ extractText t = extractTextFallback t.
Proof.
  unfold extractText.
  destruct (negb (nonempty (primaryText t)) || (length (primaryText t) <? 10)%nat);
    [|by left].
  destruct (nonempty (extractTextFallback t)
            && (length (primaryText t) <? length (extractTextFallback t))%nat);
    [by right | by left].
Qed.

Lemma extractText_trim_collapse t : normalised (extractText t).
Proof.
  destruct (extractText_cases t) as [-> | ->].
  - apply primaryText_normalised.
  - apply extractTextFallback_normalised.
Qed.

(** C9: for every tree the string returned by [extractText] holds no
    newline and no tab; its only white space is single interior spaces,
    with none at either end. *)
Theorem extractText_normalised (t : node) : normalised (extractText t).
Proof. exact (extractText_trim_collapse t). Qed.

(** C1: on the two-paragraph document [extractText] returns
    ["First Second"], the paragraphs separated by one space; in the
    array shape no break is pushed at all, in the other shape the pushed
    break is collapsed by the last clean-up step; and no tree whatever
    yields ["First\n\nSecond"]. *)
Theorem two_paragraphs_joined_by_space :
  extractTextFromElement two_paragraphs [] = [js "First"; js "Second"] /\
  extractText two_paragraphs = js "First Second" /\
  extractTextFromElement two_paragraph_elements []
    = [js "First"; [LF; LF]; js "Second"] /\
  extractText two_paragraph_elements = js "First Second" /\
  forall t, extractText t <> js "First" ++ [LF; LF] ++ js "Second".
Proof.
  repeat split; try by vm_compute.
  intros t E. pose proof (extractText_trim_collapse t) as Hn.
  apply (norm_no_newline _ Hn). rewrite E. vm_compute.
  apply list_elem_of_In. simpl. tauto.
Qed.

Lemma collected_flat_map {A} (f : A -> node) (l : list A) :
  List.filter (fun leaf => nonempty leaf && negb (includes NS_SCHEMAS leaf))
    (List.map trim (flat_map (fun x => leaves (f x)) l))
  = flat_map (fun x => collected (f x)) l.
Proof.
  induction l as [|x l IH]; simpl; [done|].
  rewrite List.map_app, List.filter_app, IH. done.
Qed.

Lemma findText_collected t : forall acc, findText t acc = acc ++ collected t.
Proof.
  induction t as [s | items IH | props IH | ] using node_ind'; intros acc.
  - unfold collected. simpl. rewrite includes_trim.
    destruct (nonempty (trim s) && negb (includes NS_SCHEMAS s)); simpl.
    + done.
    + by rewrite app_nil_r.
  - unfold collected. simpl leaves.
    rewrite (collected_flat_map (fun x => x)). simpl. revert acc.
    induction IH as [|x l Hx Hl IHl]; intros acc; simpl.
    + by rewrite app_nil_r.
    + rewrite IHl, Hx. by rewrite <- app_assoc.
  - unfold collected. simpl leaves.
    rewrite (collected_flat_map snd). simpl. revert acc.
    induction IH as [|[k v] l Hx Hl IHl]; intros acc; simpl.
    + by rewrite app_nil_r.
    + rewrite IHl. simpl in Hx. rewrite Hx. by rewrite <- app_assoc.
  - by rewrite app_nil_r.
Qed.

(** The test [/^[0-9]+$/] holds of the purely numeric tokens only. *)
Lemma all_digits_numeric token : all_digits token = true <-> purely_numeric token.
Proof.
  unfold all_digits, purely_numeric. rewrite andb_true_iff, forallb_forall, Forall_forall.
  split.
  - intros [Hne Hall]. split; [by destruct token|].
    intros c Hc. apply list_elem_of_In, Hall in Hc.
    unfold is_digit, between in Hc. apply andb_true_iff in Hc as [H1 H2].
    apply N.leb_le in H1, H2. done.
  - intros [Hne Hall]. split; [by destruct token|].
    intros c Hc. apply list_elem_of_In, Hall in Hc as [H1 H2].
    unfold is_digit, between. apply andb_true_iff. split; by apply N.leb_le.
Qed.

Lemma filter_bool_decide {A} (f : A -> bool) (P : A -> Prop) `{!forall x, Decision (P x)}
    (l : list A) :
  (forall x, f x = true <-> P x) -> List.filter f l = filter P l.
Proof.
  intros Hf. induction l as [|x l IH]; [done|].
  cbn [List.filter]. rewrite filter_cons, IH.
  destruct (f x) eqn:E.
  - rewrite decide_True; [done|]. by apply Hf.
  - rewrite decide_False; [done|]. intros HP. apply Hf in HP. congruence.
Qed.

Lemma extractTextFallback_tokens t :
  extractTextFallback t = trim (collapse_whitespace (join [SP] (fallback_tokens t))).
Proof.
  unfold extractTextFallback, fallback_tokens. rewrite findText_collected. cbn [app].
  do 3 f_equal. apply filter_bool_decide. intros token.
  rewrite andb_true_iff, Nat.ltb_lt, negb_true_iff.
  rewrite <- all_digits_numeric. by destruct (all_digits token); intuition.
Qed.

(** C4: the fallback scan joins, with single spaces, the specified
    tokens: every trimmed string leaf that is not empty and holds no
    namespace URI, except the tokens of at most 2 units and the purely
    numeric ones; when the primary text has fewer than 10 units the
    result is the fallback text if that is strictly longer and the
    primary text otherwise; a primary text of 10 units or more is never
    replaced. *)
Theorem extractText_fallback_policy (t : node) :
  let primary := primaryText t in
  let fallback := extractTextFallback t in
  fallback = trim (collapse_whitespace (join [SP] (fallback_tokens t))) /\
  (length primary < 10 ->
     (length primary < length fallback -> extractText t = fallback) /\
     (length fallback <= length primary -> extractText t = primary)) /\
  (10 <= length primary -> extractText t = primary).
Proof.
  intros primary fallback. split; [apply extractTextFallback_tokens|].
  unfold extractText. fold primary. fold fallback. split.
  - intros Hshort.
    assert ((length primary <? 10)%nat = true) as -> by by apply Nat.ltb_lt.
    rewrite orb_true_r. split; intros H.
    + assert ((length primary <? length fallback)%nat = true) as ->
        by by apply Nat.ltb_lt.
      destruct fallback; [simpl in H; lia | done].
    + assert ((length primary <? length fallback)%nat = false) as ->
        by (apply Nat.ltb_ge; lia).
      by rewrite andb_false_r.
  - intros Hlong.
    assert ((length primary <? 10)%nat = false) as -> by (apply Nat.ltb_ge; lia).
    destruct primary; [simpl in Hlong; lia | done].
Qed.

Lemma extractText_fallback_policy_witness :
  primaryText sparse_tree = [] /\
  extractText sparse_tree = js "Some readable words".
Proof.
  split; [by vm_compute|].
  destruct (extractText_fallback_policy sparse_tree) as [_ [H _]].
  destruct H as [H _]; [vm_compute; lia|].
  rewrite H; [by vm_compute | vm_compute; lia].
Defined.

(** *** Property subtrees *)

Lemma prune_obj props : prune (Obj props) = Obj (prune_props props).
Proof. reflexivity. Qed.

Lemma str_eqb_eq a b : str_eqb a b = true <-> a = b.
Proof. unfold str_eqb. apply bool_decide_eq_true. Qed.

Lemma recursed_not_excluded k : recursed k = true -> excluded k = false.
Proof.
  unfold recursed, excluded. rewrite !andb_true_iff, !negb_true_iff.
  intros [[[[[[-> ->] ->] ->] ->] ->] _]. done.
Qed.

Lemma excluded_not_recursed k : excluded k = true -> recursed k = false.
Proof.
  intros H. destruct (recursed k) eqn:E; [|done].
  apply recursed_not_excluded in E. congruence.
Qed.

Lemma truthy_prune v : truthy_node (prune v) = truthy_node v.
Proof. by destruct v. Qed.

(** Looking a kept tag up in the pruned element. *)
Lemma lookup_prune k props :
  excluded k = false ->
  lookup_prop k (prune_props props)
  = if str_eqb k (js "w:t") then lookup_prop k props
    else prune <$> lookup_prop k props.
Proof.
  intros Hk. induction props as [|[k' v] rest IH]; simpl.
  - by destruct (str_eqb k (js "w:t")).
  - destruct (str_eqb k' (js "w:t")) eqn:Et; simpl.
    + destruct (str_eqb k' k) eqn:Ek.
      * apply str_eqb_eq in Ek as <-. by rewrite Et.
      * exact IH.
    + destruct (excluded k') eqn:Ex; simpl.
      * destruct (str_eqb k' k) eqn:Ek; [|exact IH].
        apply str_eqb_eq in Ek as <-. congruence.
      * destruct (str_eqb k' k) eqn:Ek; [|exact IH].
        apply str_eqb_eq in Ek as <-. by rewrite Et.
Qed.

Lemma has_prune k props :
  excluded k = false -> has k (prune_props props) = has k props.
Proof.
  intros Hk. unfold has. rewrite lookup_prune by done.
  destruct (str_eqb k (js "w:t")); [done|].
  destruct (lookup_prop k props); simpl; [apply truthy_prune | done].
Qed.

Lemma at_key_prune k props acc :
  excluded k = false -> str_eqb k (js "w:t") = false ->
  Forall (fun kv => walk_invariant (snd kv)) props ->
  at_key extractTextFromElement k (prune_props props) acc
  = at_key extractTextFromElement k props acc.
Proof.
  intros Hk Ht IH. induction IH as [|[k' v] rest Hv _ IHrest]; simpl; [done|].
  destruct (str_eqb k' (js "w:t")) eqn:Et; simpl.
  - destruct (str_eqb k' k) eqn:Ek; [|exact IHrest].
    apply str_eqb_eq in Ek as <-. congruence.
  - destruct (excluded k') eqn:Ex; simpl.
    + destruct (str_eqb k' k) eqn:Ek; [|exact IHrest].
      apply str_eqb_eq in Ek as <-. congruence.
    + destruct (str_eqb k' k); [apply Hv | exact IHrest].
Qed.

Lemma each_entry_prune props :
  Forall (fun kv => walk_invariant (snd kv)) props ->
  forall acc,
    each_entry extractTextFromElement recursed (prune_props props) acc
    = each_entry extractTextFromElement recursed props acc.
Proof.
  induction 1 as [|[k v] rest Hv _ IHrest]; intros acc; simpl; [done|].
  destruct (str_eqb k (js "w:t")) eqn:Et; simpl.
  - apply str_eqb_eq in Et as ->. apply IHrest.
  - destruct (excluded k) eqn:Ex; simpl.
    + rewrite (excluded_not_recursed _ Ex). apply IHrest.
    + rewrite IHrest. destruct (recursed k); [|done]. f_equal. apply Hv.
Qed.

Lemma walk_obj props acc :
  extractTextFromElement (Obj props) acc =
  if has (js "w:t") props then
    match lookup_prop (js "w:t") props with
    | Some wt => match literal_text wt with
                 | Some text => push acc text
                 | None => acc
                 end
    | None => acc
    end
  else if has (js "w:p") props then
    at_key extractTextFromElement (js "w:p") props
      (if needs_break acc then push acc [LF; LF] else acc)
  else if has (js "w:r") props then
    at_key extractTextFromElement (js "w:r") props acc
  else if has (js "w:tab") props then push acc [TAB]
  else if has (js "w:br") props then push acc [LF]
  else if has (js "w:document") props then
    at_key extractTextFromElement (js "w:document") props acc
  else if has (js "w:body") props then
    at_key extractTextFromElement (js "w:body") props acc
  else each_entry extractTextFromElement recursed props acc.
Proof. reflexivity. Qed.

(** The walk never reads an excluded child. *)
Lemma walk_prune t : walk_invariant t.
Proof.
  induction t as [s | items IH | props IH | ] using node_ind'; intros acc.
  - done.
  - simpl. revert acc. induction IH as [|x l Hx _ IHl]; intros acc; simpl; [done|].
    by rewrite Hx, IHl.
  - rewrite prune_obj, !walk_obj.
    rewrite !has_prune by by vm_compute.
    rewrite (lookup_prune (js "w:t")) by by vm_compute.
    change (str_eqb (js "w:t") (js "w:t")) with true. cbv iota.
    rewrite !at_key_prune by (by vm_compute || done).
    by rewrite each_entry_prune.
  - done.
Qed.

Lemma primaryText_prune t : primaryText (prune t) = primaryText t.
Proof. unfold primaryText. by rewrite walk_prune. Qed.

(** C5 as stated fails: a text reachable only through an excluded
    child is returned by [extractText] when the walk finds too little,
    because the fallback scan looks under every tag. *)
Lemma excluded_text_returned_by_fallback :
  excluded (js "w:sectPr") = true /\
  extractText (prune settings_only) = [] /\
  extractText settings_only = js "Hidden settings text".
Proof. repeat split; by vm_compute. Qed.

(** C5, amended: the fragments of the walk, and so the primary text,
    are those of the tree without its excluded children at any level
    (literal-text values kept); whenever the primary text has 10 units
    or more this is also the result of [extractText]. *)
Theorem excluded_children_not_walked (t : node) :
  (forall textParts,
     extractTextFromElement t textParts
     = extractTextFromElement (prune t) textParts) /\
  primaryText t = primaryText (prune t) /\
  (10 <= length (primaryText t) -> extractText t = extractText (prune t)).
Proof.
  split; [intros; by rewrite walk_prune|].
  split; [by rewrite primaryText_prune|].
  intros Hlong. unfold extractText. rewrite primaryText_prune.
  assert ((length (primaryText t) <? 10)%nat = false) as ->
    by (apply Nat.ltb_ge; lia).
  destruct (primaryText t); [simpl in Hlong; lia | done].
Qed.

Lemma excluded_children_not_walked_witness :
  prune styled_paragraph <> styled_paragraph /\
  extractText styled_paragraph = js "Quarterly results" /\
  extractText (prune styled_paragraph) = js "Quarterly results".
Proof.
  destruct (excluded_children_not_walked styled_paragraph) as [_ [_ H]].
  split; [by vm_compute|]. split; [by vm_compute|].
  rewrite <- H; [by vm_compute | vm_compute; lia].
Defined.

(** C2: a plain string leaf holding a namespace URI that is not
    Microsoft's passes the string-leaf branch and is returned by
    [extractText], while the literal-text branch and the fallback scan
    drop every leaf that holds ["http://schemas"]. *)
Theorem string_leaf_uri_kept :
  includes NS_SCHEMAS (trim uri_leaf) = true /\
  extractTextFromElement (Str uri_leaf) [] = [uri_leaf] /\
  extractText uri_paragraph = uri_leaf /\
  includes NS_SCHEMAS (extractText uri_paragraph) = true /\
  (forall s, includes NS_SCHEMAS s = true ->
             literal_text (Str s) = None /\ forall acc, findText (Str s) acc = acc).
Proof.
  repeat split; try by vm_compute.
  - unfold literal_text. rewrite H. by rewrite andb_false_r.
  - intros acc. simpl. rewrite H. by rewrite andb_false_r.
Qed.

End ExtractText.

(** ** Claims about [extractMetadata] *)

Section MetadataClaims.




(** *** Decimal digits *)





(** *** The counts *)

Lemma null_or_document (t : node) : t = Null \/ t <> Null.
Proof. destruct t; [right; done..|by left]. Qed.

Lemma read_core_counts parsed (st : state DocumentMetadata) :
  parsed <> Null ->
  exists st', read_core parsed st = (Returned tt, st')
              /\ counts (local st') = counts (local st) /\ log st' = log st.
Proof.
  intros Hn. unfold read_core, property_of, when_present, bind, update, ret.
  destruct parsed; try done; simpl;
    repeat (match goal with
            | |- context [truthy ?x] => destruct (truthy x)
            end; simpl);
    eauto.
Qed.

Lemma read_app_counts parsed (st : state DocumentMetadata) :
  parsed <> Null ->
  let props := or_empty (get (js "Properties") parsed) in
  exists st', read_app parsed st = (Returned tt, st')
              /\ counts (local st')
                 = (count_of props "Pages" (pages (local st)),
                    count_of props "Words" (words (local st)),
                    count_of props "Characters" (characters (local st)))
              /\ log st' = log st.
Proof.
  intros Hn. unfold read_app, property_of, when_present, count_of, bind, update, ret.
  destruct parsed; try done; simpl;
    repeat (match goal with
            | |- context [truthy ?x] => destruct (truthy x)
            end; simpl);
    eauto.
Qed.









End MetadataClaims.

(** ** Claims about [parseDocument] and the configuration *)

Section ParserClaims.

Lemma extractMetadata_returns w docxContent (st : state DocumentMetadata) :
  exists md st', extractMetadata w docxContent st = (Returned md, st').
Proof.
  assert (forall parsed (st : state DocumentMetadata),
            exists o st', read_core parsed st = (o, st')
                          /\ forall e, o <> Uncaught e) as Hcore.
  { intros parsed st0. destruct (null_or_document parsed) as [->|Hn].
    - unfold read_core, property_of, bind, throw. eauto.
    - destruct (read_core_counts parsed st0 Hn) as [st' [H _]]. rewrite H. eauto. }
  assert (forall parsed (st : state DocumentMetadata),
            exists o st', read_app parsed st = (o, st')
                          /\ forall e, o <> Uncaught e) as Happ.
  { intros parsed st0. destruct (null_or_document parsed) as [->|Hn].
    - unfold read_app, property_of, bind, throw. eauto.
    - destruct (read_app_counts parsed st0 Hn) as [st' [H _]]. rewrite H. eauto. }
  assert (forall st : state DocumentMetadata,
            exists o st', core_properties w docxContent st = (o, st')
                          /\ forall e, o <> Uncaught e) as Hc.
  { intros st0. unfold core_properties.
    destruct (part _ docxContent) as [[|c x]|]; simpl; unfold ret; eauto.
    unfold bind, call, settle.
    destruct (xml2js_parse w (c :: x)) as [e|parsed]; [eauto|].
    apply Hcore. }
  assert (forall st : state DocumentMetadata,
            exists o st', app_properties w docxContent st = (o, st')
                          /\ forall e, o <> Uncaught e) as Ha.
  { intros st0. unfold app_properties.
    destruct (part _ docxContent) as [[|c x]|]; simpl; unfold ret; eauto.
    unfold bind, call, settle.
    destruct (xml2js_parse w (c :: x)) as [e|parsed]; [eauto|].
    apply Happ. }
  unfold extractMetadata, bind, try_catch.
  destruct (Hc st) as [o1 [st1 [-> N1]]].
  destruct o1 as [[]|e|e]; [| unfold ret, read; eauto | by destruct (N1 e)].
  destruct (Ha st1) as [o2 [st2 [-> N2]]].
  destruct o2 as [[]|e|e]; [| | by destruct (N2 e)]; unfold ret, read; eauto.
Qed.

Lemma read_entries_uncaught entries ending content e :
  read_entries entries ending content = Uncaught e ->
  exists fileName chunks, (fileName, Stream (StreamError chunks e)) ∈ entries.
Proof.
  revert content. induction entries as [|[fileName opened] rest IH]; intros content; simpl.
  - by destruct ending.
  - assert (forall c, read_entries rest ending c = Uncaught e ->
                      exists f chunks, (f, Stream (StreamError chunks e))
                                       ∈ (fileName, opened) :: rest) as Hrest.
    { intros c Hc. destruct (IH c Hc) as [f [chunks Hin]].
      exists f, chunks. by apply list_elem_of_further. }
    destruct (endsWith (js "/") fileName); [apply Hrest|].
    destruct opened as [e'| |[chunks|chunks e']]; try done; try apply Hrest.
    intros [= ->]. exists fileName, chunks. apply list_elem_of_here.
Qed.

Lemma extractDocxContent_uncaught w filePath (st st' : state ProcessingResult) e :
  extractDocxContent w filePath st = (Uncaught e, st') -> stream_fails w filePath e.
Proof.
  unfold extractDocxContent, bind, call, settle, throw, finish, stream_fails.
  destruct (yauzl_open w filePath) as [e'|[z|]]; try done.
  intros [= H _]. apply read_entries_uncaught in H as [fileName [chunks Hin]]. eauto.
Qed.

Lemma extractDocxContent_local {L} w filePath (st st' : state L) o :
  extractDocxContent w filePath st = (o, st') -> local st' = local st.
Proof.
  unfold extractDocxContent, bind, call, settle, throw, finish.
  destruct (yauzl_open w filePath) as [e|[z|]]; by intros [= _ <-].
Qed.

Lemma parseDocument_try_outcome w cfg filePath startTime calls :
  match parseDocument_try w cfg filePath startTime {| local := new_result; log := calls |} with
  | (Returned _, st') => well_formed (local st')
  | (Thrown _, st') => success (local st') = false
  | (Uncaught e, _) => stream_fails w filePath e
  end.
Proof.
  unfold parseDocument_try, now, nested, well_formed.
  unfold bind, call, settle, update, history, ret. simpl.
  repeat case_match; simplify_eq; simpl; try done; try (split; eauto; done);
    try (eapply extractDocxContent_uncaught; eassumption);
    try match goal with
    | H : extractMetadata ?w ?c ?st = _ |- _ =>
        destruct (extractMetadata_returns w c st) as [? [? ?]]; congruence
    end;
    match goal with
    | H : extractDocxContent _ _ _ = _ |- _ =>
        apply extractDocxContent_local in H; simpl in H; rewrite H; simpl
    end;
    try done; split; eauto; done.
Qed.

(** C6: a call of [parseDocument] never rejects, and every record it
    returns has a present [content] when [success] holds and
    [success = false] when [errors] is not empty; but it returns no record
    at all when the read stream of a container entry emits ['error'],
    which no listener catches. *)
Theorem parseDocument_outcomes :
  (forall (w : collaborators) (h : heap) (this : WordParser) (filePath : jsstring),
     match fst (run_parseDocument w h this filePath) with
     | Returned r =>
         (success r = true -> is_Some (content r)) /\
         (errors r <> [] -> success r = false)
     | Thrown _ => False
     | Uncaught e => stream_fails w filePath e
     end) /\
  run_parseDocument (sample_world (inr safe_verdict) (inr (Some damaged_zip)))
    (snd (new_parser ∅ ∅)) (fst (new_parser ∅ ∅)) (js "report.docx")
  = (Uncaught (Error (js "invalid stored block lengths")),
     [EvValidate (js "report.docx"); EvOpenContainer (js "report.docx")]).
Proof.
  split; [|by vm_compute].
  intros w h this filePath.
  unfold run_parseDocument, parseDocument.
  unfold bind at 1. unfold now at 1, bind at 1, history, ret. cbv beta iota.
  unfold bind at 1, try_catch.
  pose proof (parseDocument_try_outcome w (deref (config this) h) filePath
                (date_now w []) []) as H.
  simpl local. simpl log.
  destruct (parseDocument_try w (deref (config this) h) filePath (date_now w [])
              {| local := new_result; log := [] |}) as [[[]|e|e] st'].
  - unfold read. simpl. exact H.
  - unfold update, read. simpl. rewrite H. done.
  - simpl. exact H.
Qed.

(** C7: with safety checks enabled and a verdict [isSafe = false], the
    result has [success = false] and the verdict's issues as [errors],
    no content, metadata or images; the only collaborator called is the
    safety manager: the container is not opened and no XML is parsed. *)
Theorem unsafe_file_not_opened (w : collaborators) (h : heap)
    (this : WordParser) (filePath : jsstring) (verdict : SafetyResult) :
  enabled (deref (config this) h) "safetyChecks" = true ->
  safety_validateFile w filePath = inr verdict ->
  isSafe verdict = false ->
  exists r,
    run_parseDocument w h this filePath = (Returned r, [EvValidate filePath]) /\
    success r = false /\ errors r = issues verdict /\
    content r = None /\ metadata r = None /\ images r = None.
Proof.
  intros Hon Hv Hunsafe.
  unfold run_parseDocument, parseDocument, parseDocument_try.
  unfold bind, try_catch, now, call, settle, update, history, ret, read. simpl.
  rewrite Hon, Hv. simpl. rewrite Hunsafe. simpl.
  eexists. repeat split.
Qed.

Lemma unsafe_file_not_opened_witness :
  let '(this, h) := new_parser ∅ ∅ in
  exists r,
    run_parseDocument (sample_world (inr unsafe_verdict) (inr (Some sample_zip))) h this
      (js "notes.txt")
    = (Returned r, [EvValidate (js "notes.txt")]) /\
    success r = false /\ errors r = [js "Unsupported file extension: .txt"] /\
    content r = None /\ metadata r = None /\ images r = None.
Proof.
  apply (unsafe_file_not_opened
           (sample_world (inr unsafe_verdict) (inr (Some sample_zip)))
           _ _ (js "notes.txt") unsafe_verdict);
    by vm_compute.
Defined.

(** A sound container is read to the end and parsed. *)
Example sound_container_parsed :
  let out := run_parseDocument (sample_world (inr safe_verdict) (inr (Some sample_zip)))
               (snd (new_parser ∅ ∅)) (fst (new_parser ∅ ∅)) (js "report.docx") in
  snd out = [EvValidate (js "report.docx"); EvOpenContainer (js "report.docx");
             EvParseXml doc_xml; EvParseXml app_xml] /\
  match fst out with
  | Returned r =>
      success r = true /\ content r = Some [] /\ errors r = [] /\
      (pages <$> metadata r) = Some (Some NaN)
  | _ => False
  end.
Proof. by vm_compute. Qed.

Example escapeHtml_example :
  escapeHtml (js "<a href='x'>T&C</a>")
  = js "&lt;a href=&#39;x&#39;&gt;T&amp;C&lt;/a&gt;".
Proof. by vm_compute. Qed.

Example convertToFormat_example :
  let w := sample_world (inl NotAnError) (inl NotAnError) in
  let titled := Some (set_title (Some (Str (js "T"))) empty_metadata) in
  convertToFormat w [] (js "a<b" ++ [LF; LF] ++ js "c") (js "HTML") titled
  = inr (js "<!DOCTYPE html>" ++ [LF] ++ js "<html>" ++ [LF] ++ js "<head>" ++ [LF]
         ++ js "<meta charset=" ++ [QUOTE] ++ js "utf-8" ++ [QUOTE] ++ js ">" ++ [LF]
         ++ js "<title>T</title>" ++ [LF] ++ js "</head>" ++ [LF] ++ js "<body>" ++ [LF]
         ++ js "<h1>T</h1>" ++ [LF] ++ js "<p>a&lt;b</p>" ++ [LF] ++ js "<p>c</p>" ++ [LF]
         ++ js "</body>" ++ [LF] ++ js "</html>") /\
  convertToFormat w [] (js "Hi There.") (js "Markdown") None = inr (js "## Hi There.") /\
  convertToFormat w [] (js "Hi There.") (js "docx") None = inr (js "Hi There.").
Proof. by vm_compute. Qed.

(** *** The configuration copy *)

Lemma alloc_fresh (o : object) (h : heap) r h' :
  alloc o h = (r, h') -> h !! r = None /\ h' = <[r := o]> h.
Proof.
  unfold alloc. intros [= <- <-]. split; [|done].
  apply not_elem_of_dom. apply is_fresh.
Qed.

Lemma mutate_other r l (h : heap) m : r <> l -> mutate r h m !! l = h !! l.
Proof.
  intros Hne. unfold mutate. destruct (h !! r); [|done].
  destruct m; by rewrite lookup_insert_ne.
Qed.

Lemma mutate_all_other r l ms (h : heap) :
  r <> l -> mutate_all r ms h !! l = h !! l.
Proof.
  intros Hne. unfold mutate_all. revert h.
  induction ms as [|m ms IH]; intros h; simpl; [done|].
  rewrite IH. by apply mutate_other.
Qed.

(** Parsers made by the constructor or by [updateConfig] have their
    configuration object in the store. *)
Lemma new_parser_allocated cfg (h : heap) :
  is_Some (snd (new_parser cfg h) !! config (fst (new_parser cfg h))).
Proof. unfold new_parser, alloc. simpl. rewrite lookup_insert_eq. eauto. Qed.

Lemma updateConfig_allocated this newConfig (h : heap) :
  is_Some (snd (updateConfig this newConfig h)
             !! config (fst (updateConfig this newConfig h))).
Proof. unfold updateConfig, alloc. simpl. rewrite lookup_insert_eq. eauto. Qed.

(** C10: [getConfig] returns a new object with the properties of the
    parser's configuration; whatever is then done to that object, the
    parser's own configuration object is as before, and so are the
    results of [parseDocument] and [convertToFormat]. *)
Theorem getConfig_returns_copy (h : heap) (this : WordParser) (ms : list mutation) :
  is_Some (h !! config this) ->
  let '(r, h1) := getConfig this h in
  let h2 := mutate_all r ms h1 in
  r <> config this /\
  h1 !! r = h !! config this /\
  h2 !! config this = h !! config this /\
  (forall w filePath,
     run_parseDocument w h2 this filePath = run_parseDocument w h this filePath) /\
  (forall w calls content format metadata,
     run_convertToFormat w h2 this calls content format metadata
     = run_convertToFormat w h this calls content format metadata).
Proof.
  intros [o Ho]. unfold getConfig.
  destruct (alloc _ h) as [r h1] eqn:Ea. apply alloc_fresh in Ea as [Hr ->].
  cbv zeta.
  assert (r <> config this) as Hne by congruence.
  assert (mutate_all r ms (<[r := spread (deref (config this) h) ∅]> h) !! config this
          = h !! config this) as Hsame.
  { rewrite mutate_all_other by done. by rewrite lookup_insert_ne. }
  split; [done|]. split.
  - rewrite lookup_insert_eq. unfold spread, deref. rewrite Ho. simpl.
    f_equal. apply (left_id_L ∅ (∪)).
  - split; [exact Hsame|]. split; [|done].
    intros w filePath. unfold run_parseDocument. unfold deref in *. by rewrite Hsame.
Qed.

Lemma getConfig_returns_copy_witness :
  let this := fst lenient_parser in
  let h := snd lenient_parser in
  let h2 := mutate_all (fst (getConfig this h)) tampering (snd (getConfig this h)) in
  enabled (deref (fst (getConfig this h)) h2) "safetyChecks" = true /\
  enabled (deref (config this) h2) "safetyChecks" = false /\
  h2 !! config this = h !! config this.
Proof.
  intros this h h2. split; [by vm_compute|]. split; [by vm_compute|].
  assert (is_Some (h !! config this)) as Hsome by (vm_compute; eauto).
  pose proof (getConfig_returns_copy h this tampering Hsome) as H.
  subst h2. revert H. destruct (getConfig this h) as [r h1]. simpl.
  intros [_ [_ [H _]]]. exact H.
Defined.

End ParserClaims.

(** ** Claims about the markdown rendering *)

Section MarkdownClaims.

Lemma upper_not_lower c : is_upper c = true -> is_lower c = false.
Proof.
  unfold is_upper, is_lower, between. rewrite andb_true_iff, !N.leb_le.
  intros [_ H]. apply andb_false_iff. left. apply N.leb_gt. lia.
Qed.

Lemma upper_not_space c : is_upper c = true -> is_space c = false.
Proof.
  unfold is_upper, is_space, between. rewrite andb_true_iff, !N.leb_le.
  intros [H1 H2].
  repeat match goal with
         | |- (_ || _) = false => apply orb_false_intro
         | |- (_ && _) = false => apply andb_false_iff
         | |- (_ =? _)%N = false => apply N.eqb_neq; lia
         end.
  - right. apply N.leb_gt. lia.
  - left. apply N.leb_gt. lia.
Qed.

Lemma space_not_lower c : is_space c = true -> is_lower c = false.
Proof.
  intros Hs. destruct (is_lower c) eqn:El; [|done].
  unfold is_lower, between in El. apply andb_true_iff in El as [H1 H2].
  apply N.leb_le in H1, H2.
  assert (is_space c = false) as Hn; [|congruence].
  unfold is_space, between.
  repeat match goal with
         | |- (_ || _) = false => apply orb_false_intro
         | |- (_ && _) = false => apply andb_false_iff
         | |- (_ =? _)%N = false => apply N.eqb_neq; lia
         end.
  - right. apply N.leb_gt. lia.
  - left. apply N.leb_gt. lia.
Qed.

Lemma skip_while_all p a b :
  forallb p a = true -> skip_while p (a ++ b) = skip_while p b.
Proof.
  induction a as [|c a IH]; simpl; [done|].
  intros H. apply andb_true_iff in H as [-> H]. by apply IH.
Qed.

(** The strings accepted by [/^[A-Z][a-z]*\s*[A-Z]/]: a capital, any
    number of small letters, any white space, a capital. *)
Lemma heading_shape_spec s :
  heading_shape s = true <->
  exists u lows ws v rest,
    s = u :: lows ++ ws ++ v :: rest /\
    is_upper u = true /\ forallb is_lower lows = true /\
    forallb is_space ws = true /\ is_upper v = true.
Proof.
  split.
  - destruct s as [|u t]; [done|]. simpl. intros H.
    apply andb_true_iff in H as [Hu H].
    destruct (skip_while_suffix is_lower t) as [lows [E1 F1]].
    destruct (skip_while_suffix is_space (skip_while is_lower t)) as [ws [E2 F2]].
    destruct (skip_while is_space (skip_while is_lower t)) as [|v rest]; [done|].
    exists u, lows, ws, v, rest. rewrite <- E2, <- E1. done.
  - intros (u & lows & ws & v & rest & -> & Hu & Hl & Hw & Hv). simpl.
    rewrite Hu. simpl. rewrite skip_while_all by done.
    assert (skip_while is_lower (ws ++ v :: rest) = ws ++ v :: rest) as ->.
    { destruct ws as [|x ws]; simpl.
      - by rewrite (upper_not_lower _ Hv).
      - simpl in Hw. apply andb_true_iff in Hw as [Hx _].
        by rewrite (space_not_lower _ Hx). }
    rewrite skip_while_all by done. simpl.
    by rewrite (upper_not_space _ Hv).
Qed.

(** *** Trimming a string that has nothing to trim *)

Lemma trimStart_clean s : starts_clean s -> trimStart s = s.
Proof.
  destruct s as [|c s]; [done|]. intros H.
  unfold trimStart. cbn [skip_while starts_clean] in *. by rewrite H.
Qed.

Lemma trimEnd_app_spaces r c ws :
  is_space c = false -> forallb is_space ws = true ->
  trimEnd ((r ++ [c]) ++ ws) = r ++ [c].
Proof.
  intros Hc Hw. unfold trimEnd.
  rewrite rev_app_distr, skip_while_all by by rewrite forallb_rev.
  rewrite rev_app_distr. cbn [rev app skip_while]. rewrite Hc.
  cbn [rev]. by rewrite rev_involutive.
Qed.

(** A non-empty fixed point of [trim] starts and ends with a visible
    unit. *)
Lemma trim_fixed_ends s :
  trim s = s -> s <> [] ->
  starts_clean s /\ exists r c, s = r ++ [c] /\ is_space c = false.
Proof.
  intros Ht Hne. split.
  - rewrite <- Ht. apply trim_starts_clean.
  - destruct (exists_last Hne) as [r [c E]]. exists r, c. split; [done|].
    apply (trimEnd_ends_clean (trimStart s) r). fold (trim s). congruence.
Qed.

Lemma trim_app_spaces pre s ws :
  starts_clean (pre ++ s) -> trim s = s -> s <> [] ->
  forallb is_space ws = true ->
  trim ((pre ++ s) ++ ws) = pre ++ s.
Proof.
  intros Hpre Ht Hne Hw.
  destruct (trim_fixed_ends s Ht Hne) as [_ [r [c [-> Hc]]]].
  unfold trim. rewrite trimStart_clean.
  - rewrite (app_assoc pre r [c]). by apply trimEnd_app_spaces.
  - destruct (pre ++ r ++ [c]) eqn:E; [|exact Hpre].
    by destruct pre, r.
Qed.

(** *** The loop body *)

Lemma md_step_rule st sentence :
  nonempty (trim sentence) = true -> md_step st sentence = md_step_spec st sentence.
Proof.
  intros Hne. unfold md_step, md_step_spec. rewrite Hne. simpl negb. cbv iota.
  destruct ((length (trim sentence) <? 50)%nat && heading_shape (trim sentence)).
  - destruct st as [m [|c cur]]; simpl; [done|].
    unfold flush. simpl. by rewrite <- !app_assoc.
  - done.
Qed.

(** A heading-shaped sentence and one long sentence. *)
Lemma heading_then_paragraph content heading body :
  split_sentences content = [heading; body] ->
  trim heading = heading -> trim body = body ->
  0 < length heading < 50 -> heading_shape heading = true ->
  200 <= length body ->
  convertToMarkdown content None = js "## " ++ heading ++ [LF; LF] ++ body.
Proof.
  intros Hs Hh Hb Hlh Hshape Hlb.
  assert (heading <> []) as Hhne by (destruct heading; simpl in Hlh; [lia | done]).
  assert (body <> []) as Hbne by (destruct body; simpl in Hlb; [lia | done]).
  unfold convertToMarkdown. rewrite Hs. simpl fold_left.
  rewrite (md_step_rule _ heading), (md_step_rule _ body);
    [| rewrite Hb; by destruct body | rewrite Hh; by destruct heading].
  unfold md_step_spec. rewrite Hh, Hb, Hshape.
  assert ((length heading <? 50)%nat = true) as -> by (apply Nat.ltb_lt; lia).
  cbn [andb markdown currentParagraph nonempty app].
  assert ((length body <? 50)%nat = false) as -> by (apply Nat.ltb_ge; lia).
  cbn [andb].
  assert ((200 <? length (body ++ [SP]))%nat = true) as ->.
  { apply Nat.ltb_lt. rewrite length_app. simpl. lia. }
  cbn [markdown currentParagraph].
  change (trim []) with (@nil N). cbn [nonempty markdown].
  change (md_header None) with (@nil N). cbn [app].
  assert (trim (body ++ [SP]) = body) as ->.
  { apply (trim_app_spaces [] body [SP]); [|done..].
    by destruct (trim_fixed_ends body Hb Hbne) as [H _]. }
  rewrite (app_assoc (js "## " ++ heading ++ [LF; LF]) body [LF; LF]).
  rewrite trim_app_spaces; [| by vm_compute | done | done | done].
  by rewrite <- !app_assoc.
Qed.

(** C8 as stated fails: a sentence under 50 characters that starts with
    a capital and holds a later capital is not promoted when the second
    capital does not follow the first word directly. *)
Lemma later_capital_not_promoted :
  length later_capital < 50 /\
  (exists c r, later_capital = c :: r /\ is_upper c = true /\ existsb is_upper r = true) /\
  split_sentences later_capital = [later_capital] /\
  heading_shape later_capital = false /\
  convertToMarkdown later_capital None = later_capital /\
  includes (js "## ") (convertToMarkdown later_capital None) = false.
Proof.
  split; [vm_compute; lia|]. split.
  - eexists _, _. split; [reflexivity|]. by vm_compute.
  - repeat split; by vm_compute.
Qed.

(** C8, amended: a sentence is promoted to a ["## "] line, after a flush
    of a non-empty paragraph buffer, exactly when it has fewer than 50
    units and consists of a capital, any small letters, any white space
    and a capital, followed by anything; otherwise it joins the buffer,
    which is flushed once longer than 200.  A heading-shaped sentence of
    fewer than 50 units followed by one sentence of 200 units or more
    renders as the heading line, an empty line and the paragraph. *)
Theorem markdown_heading_rule :
  (forall s,
     heading_shape s = true <->
     exists u lows ws v rest,
       s = u :: lows ++ ws ++ v :: rest /\
       is_upper u = true /\ forallb is_lower lows = true /\
       forallb is_space ws = true /\ is_upper v = true) /\
  (forall st sentence,
     nonempty (trim sentence) = true ->
     md_step st sentence = md_step_spec st sentence) /\
  (forall content heading body,
     split_sentences content = [heading; body] ->
     trim heading = heading -> trim body = body ->
     0 < length heading < 50 -> heading_shape heading = true ->
     200 <= length body ->
     convertToMarkdown content None = js "## " ++ heading ++ [LF; LF] ++ body).
Proof.
  split; [exact heading_shape_spec|].
  split; [exact md_step_rule | exact heading_then_paragraph].
Qed.

Lemma markdown_heading_rule_witness :
  length heading30 = 30 /\ length body250 = 250 /\
  convertToMarkdown (heading30 ++ [SP] ++ body250) None
  = js "## " ++ heading30 ++ [LF; LF] ++ body250.
Proof.
  split; [by vm_compute|]. split; [by vm_compute|].
  destruct markdown_heading_rule as [_ [_ H]].
  apply H; try by vm_compute.
  - vm_compute. lia.
  - vm_compute. lia.
Defined.

End MarkdownClaims.

(** * Further properties *)

(** ** The walk over the tree *)

Section Walk.

Lemma leaf_fragment_mono ls ls' f :
  (forall x, x ∈ ls -> x ∈ ls') -> leaf_fragment ls f -> leaf_fragment ls' f.
Proof. intros Hsub (leaf & Hin & Hne & Hf). exists leaf. auto. Qed.

Lemma from_tree_mono ls ls' added :
  (forall x, x ∈ ls -> x ∈ ls') ->
  Forall (from_tree ls) added -> Forall (from_tree ls') added.
Proof.
  intros Hsub Hall. eapply Forall_impl; [exact Hall|].
  intros f [Hne [H|H]]; split; auto.
  right. by eapply leaf_fragment_mono.
Qed.

Lemma trim_nonempty_source s : trim s <> [] -> s <> [].
Proof. intros H ->. by apply H. Qed.

Lemma from_tree_leaf ls s f :
  s ∈ ls -> trim s <> [] -> f = s \/ f = trim s -> from_tree ls f.
Proof.
  intros Hin Hne Hf. split.
  - destruct Hf as [-> | ->]; [by apply trim_nonempty_source | done].
  - right. by exists s.
Qed.

Lemma nonempty_true s : nonempty s = true <-> s <> [].
Proof. destruct s; simpl; split; congruence. Qed.

Lemma lookup_prop_elem k props v :
  lookup_prop k props = Some v -> exists k', (k', v) ∈ props.
Proof.
  induction props as [|[k' v'] rest IH]; simpl; [done|].
  destruct (str_eqb k' k).
  - intros [= ->]. exists k'. apply list_elem_of_here.
  - intros H. destruct (IH H) as [k'' Hin]. exists k''. by apply list_elem_of_further.
Qed.

Lemma leaves_prop k v props x :
  (k, v) ∈ props -> x ∈ leaves v -> x ∈ leaves (Obj props).
Proof.
  intros Hin Hx. simpl. apply list_elem_of_In, in_flat_map.
  exists (k, v). split; by apply list_elem_of_In.
Qed.

Lemma leaves_item v items x :
  v ∈ items -> x ∈ leaves v -> x ∈ leaves (Arr items).
Proof.
  intros Hin Hx. simpl. apply list_elem_of_In, in_flat_map.
  exists v. split; by apply list_elem_of_In.
Qed.

(** The text of a literal-text element is a string leaf below it. *)
Lemma literal_text_leaf wt s :
  literal_text wt = Some s -> s ∈ leaves wt /\ trim s <> [].
Proof.
  unfold literal_text.
  set (text := match wt with Str s0 => Str s0 | _ => _ end).
  assert (forall s0, text = Str s0 -> s0 <> [] -> s0 ∈ leaves wt) as Hleaf.
  { intros s0. subst text. destruct wt as [s1|items|props|]; [| | |simpl; by intros [= <-]].
    - intros [= ->] _. simpl. apply list_elem_of_here.
    - simpl. by intros [= <-].
    - unfold get.
      destruct (truthy (lookup_prop (js "_") props)) eqn:E1.
      + destruct (lookup_prop (js "_") props) as [v|] eqn:E2; [|done]. simpl.
        intros -> _. destruct (lookup_prop_elem _ _ _ E2) as [k' Hin].
        apply (leaves_prop k' (Str s0)); [done|]. simpl. apply list_elem_of_here.
      + assert (forall x : node, x = Str [] -> x = Str s0 -> s0 <> [] -> s0 ∈ leaves (Obj props))
          as Hnil by (intros x -> [= <-]; done).
        repeat case_match; try (by apply Hnil); rewrite ?E1 in *; done. }
  destruct text as [s0| | |] eqn:Et; try done.
  destruct (nonempty s0 && nonempty (trim s0) && negb (includes NS_SCHEMAS s0)) eqn:E; [|done].
  intros [= <-]. apply andb_true_iff in E as [E _]. apply andb_true_iff in E as [E1 E2].
  apply nonempty_true in E1, E2. split; [by apply Hleaf | done].
Qed.

Lemma separator_nonempty f : separator_fragment f -> f <> [].
Proof. by intros [-> | [-> | ->]]. Qed.

Lemma at_key_appends k props acc :
  Forall (fun kv => appends_from_tree (snd kv)) props ->
  exists added,
    at_key extractTextFromElement k props acc = acc ++ added
    /\ Forall (from_tree (leaves (Obj props))) added.
Proof.
  intros IH. induction IH as [|[k' v] rest Hv _ IHrest]; simpl.
  - exists []. by rewrite app_nil_r.
  - unfold appends_from_tree in Hv. simpl in Hv. destruct (str_eqb k' k).
    + destruct (Hv acc) as [added [-> Hall]]. exists added. split; [done|].
      eapply from_tree_mono; [|exact Hall]. intros x Hx.
      apply elem_of_app. by left.
    + destruct IHrest as [added [-> Hall]]. exists added. split; [done|].
      eapply from_tree_mono; [|exact Hall]. intros x Hx. simpl in *.
      apply elem_of_app. by right.
Qed.

Lemma each_entry_appends keep props :
  Forall (fun kv => appends_from_tree (snd kv)) props ->
  forall acc, exists added,
    each_entry extractTextFromElement keep props acc = acc ++ added
    /\ Forall (from_tree (leaves (Obj props))) added.
Proof.
  induction 1 as [|[k v] rest Hv _ IHrest]; intros acc; simpl.
  - exists []. by rewrite app_nil_r.
  - unfold appends_from_tree in Hv. simpl in Hv. destruct (keep k).
    + destruct (Hv acc) as [a1 [-> H1]]. destruct (IHrest (acc ++ a1)) as [a2 [-> H2]].
      exists (a1 ++ a2). rewrite app_assoc. split; [done|]. apply Forall_app. split.
      * eapply from_tree_mono; [|exact H1]. intros x Hx. apply elem_of_app. by left.
      * eapply from_tree_mono; [|exact H2]. intros x Hx. apply elem_of_app. by right.
    + destruct (IHrest acc) as [a2 [-> H2]]. exists a2. split; [done|].
      eapply from_tree_mono; [|exact H2]. intros x Hx. apply elem_of_app. by right.
Qed.

Lemma each_item_appends items :
  Forall appends_from_tree items ->
  forall acc, exists added,
    each_item extractTextFromElement items acc = acc ++ added
    /\ Forall (from_tree (leaves (Arr items))) added.
Proof.
  induction 1 as [|v rest Hv _ IHrest]; intros acc; simpl.
  - exists []. by rewrite app_nil_r.
  - destruct (Hv acc) as [a1 [-> H1]]. destruct (IHrest (acc ++ a1)) as [a2 [-> H2]].
    exists (a1 ++ a2). rewrite app_assoc. split; [done|]. apply Forall_app. split.
    + eapply from_tree_mono; [|exact H1]. intros x Hx. apply elem_of_app. by left.
    + eapply from_tree_mono; [|exact H2]. intros x Hx. apply elem_of_app. by right.
Qed.

Lemma walk_appends t : appends_from_tree t.
Proof.
  induction t as [s | items IH | props IH | ] using node_ind'; intros acc.
  - unfold extractTextFromElement.
    destruct (nonempty (trim s) && negb (includes NS_MICROSOFT (trim s))) eqn:E.
    + exists [trim s]. split; [done|]. apply Forall_singleton.
      apply andb_true_iff in E as [E _]. apply nonempty_true in E.
      apply (from_tree_leaf _ s); [simpl; apply list_elem_of_here | done | by right].
    + exists []. by rewrite app_nil_r.
  - by apply each_item_appends.
  - assert (forall f, separator_fragment f ->
                      exists added, push acc f = acc ++ added
                                    /\ Forall (from_tree (leaves (Obj props))) added) as Hsep.
    { intros f Hf. exists [f]. split; [done|]. apply Forall_singleton.
      split; [by apply separator_nonempty | by left]. }
    assert (exists added, acc = acc ++ added
                          /\ Forall (from_tree (leaves (Obj props))) added) as Hnone.
    { exists []. by rewrite app_nil_r. }
    rewrite walk_obj.
    destruct (has (js "w:t") props).
    { destruct (lookup_prop (js "w:t") props) as [wt|] eqn:Ewt; [|exact Hnone].
      destruct (literal_text wt) as [text|] eqn:Et; [|exact Hnone].
      apply literal_text_leaf in Et as [Hin Hne].
      destruct (lookup_prop_elem _ _ _ Ewt) as [k' Hk'].
      exists [text]. split; [done|]. apply Forall_singleton.
      apply (from_tree_leaf _ text); [by apply (leaves_prop k' wt) | done | by left]. }
    destruct (has (js "w:p") props).
    { destruct (needs_break acc).
      - destruct (at_key_appends (js "w:p") props (push acc [LF; LF]) IH) as [a [-> Ha]].
        exists ([LF; LF] :: a). unfold push. rewrite <- app_assoc. split; [done|].
        apply Forall_cons. split; [|done]. split; [done | left; by left].
      - by apply at_key_appends. }
    destruct (has (js "w:r") props); [by apply at_key_appends|].
    destruct (has (js "w:tab") props); [apply Hsep; right; by left|].
    destruct (has (js "w:br") props); [apply Hsep; right; by right|].
    destruct (has (js "w:document") props); [by apply at_key_appends|].
    destruct (has (js "w:body") props); [by apply at_key_appends|].
    by apply each_entry_appends.
  - exists []. by rewrite app_nil_r.
Qed.

(** X1: the walk only appends to the fragment list, and every fragment it
    appends is not empty and is either a separator (paragraph break, tab,
    line break) or a string leaf of the tree with visible text, verbatim
    or trimmed: the walk invents no text. *)
Theorem walk_appends_leaf_text (t : node) (textParts : list jsstring) :
  exists added,
    extractTextFromElement t textParts = textParts ++ added /\
    Forall (fun f => f <> [] /\ (separator_fragment f \/ leaf_fragment (leaves t) f)) added.
Proof. exact (walk_appends t textParts). Qed.

End Walk.

(** ** Paragraph breaks and blank documents *)

Section Breaks.

(** A property of the fragment list kept by every visit is kept by the
    traversal combinators. *)
Lemma at_key_keeps (P : list jsstring -> Prop) k props acc :
  Forall (fun kv => forall acc, P acc -> P (extractTextFromElement (snd kv) acc)) props ->
  P acc -> P (at_key extractTextFromElement k props acc).
Proof.
  intros IH Hacc. induction IH as [|[k' v] rest Hv _ IHrest]; simpl; [done|].
  destruct (str_eqb k' k); [by apply Hv | done].
Qed.

Lemma each_entry_keeps (P : list jsstring -> Prop) keep props :
  Forall (fun kv => forall acc, P acc -> P (extractTextFromElement (snd kv) acc)) props ->
  forall acc, P acc -> P (each_entry extractTextFromElement keep props acc).
Proof.
  induction 1 as [|[k v] rest Hv _ IHrest]; intros acc Hacc; simpl; [done|].
  apply IHrest. destruct (keep k); [by apply Hv | done].
Qed.

Lemma each_item_keeps (P : list jsstring -> Prop) items :
  Forall (fun v => forall acc, P acc -> P (extractTextFromElement v acc)) items ->
  forall acc, P acc -> P (each_item extractTextFromElement items acc).
Proof.
  induction 1 as [|v rest Hv _ IHrest]; intros acc Hacc; simpl; [done|].
  apply IHrest. by apply Hv.
Qed.

Lemma trim_not_break s : trim s <> [LF; LF].
Proof. intros E. pose proof (trim_starts_clean s) as H. by rewrite E in H. Qed.

Lemma walk_well_broken t :
  forall acc, well_broken acc -> well_broken (extractTextFromElement t acc).
Proof.
  induction t as [s | items IH | props IH | ] using node_ind'; intros acc Hacc.
  - unfold extractTextFromElement.
    destruct (nonempty (trim s) && negb (includes NS_MICROSOFT (trim s))); [|done].
    apply wb_text; [done | apply trim_not_break].
  - simpl. by apply (each_item_keeps well_broken).
  - rewrite walk_obj.
    destruct (has (js "w:t") props).
    { destruct (lookup_prop (js "w:t") props) as [wt|]; [|done].
      destruct (literal_text wt) as [text|] eqn:Et; [|done].
      apply literal_text_leaf in Et as [_ Hne].
      apply wb_text; [done|]. intros ->. by apply Hne. }
    destruct (has (js "w:p") props).
    { apply (at_key_keeps well_broken); [done|].
      destruct (needs_break acc) eqn:E; [by apply wb_break | done]. }
    destruct (has (js "w:r") props); [by apply (at_key_keeps well_broken)|].
    destruct (has (js "w:tab") props); [by apply wb_text|].
    destruct (has (js "w:br") props); [by apply wb_text|].
    destruct (has (js "w:document") props); [by apply (at_key_keeps well_broken)|].
    destruct (has (js "w:body") props); [by apply (at_key_keeps well_broken)|].
    by apply (each_entry_keeps well_broken).
  - done.
Qed.

Lemma snoc_eq_middle {A} (l : list A) f a c b :
  l ++ [f] = a ++ c :: b ->
  (b = [] /\ l = a /\ f = c) \/ (exists b', b = b' ++ [f] /\ l = a ++ c :: b').
Proof.
  destruct b as [|y b0] using rev_ind.
  - intros E. apply app_inj_tail in E as [-> ->]. by left.
  - clear IHb0. intros E. right. exists b0.
    change (a ++ c :: b0 ++ [y]) with (a ++ (c :: b0) ++ [y]) in E.
    rewrite app_assoc in E. apply app_inj_tail in E as [-> ->]. done.
Qed.

Lemma well_broken_breaks l :
  well_broken l ->
  forall a b, l = a ++ [LF; LF] :: b ->
              exists a' x, a = a' ++ [x] /\ endsWith [LF] x = false.
Proof.
  induction 1 as [|l f Hl IH Hf|l Hl IH Hb]; intros a b E.
  - by destruct a.
  - apply snoc_eq_middle in E as [(_ & _ & ->) | (b' & _ & ->)]; [done|].
    by eapply IH.
  - apply snoc_eq_middle in E as [(_ & -> & _) | (b' & _ & ->)]; [|by eapply IH].
    unfold needs_break in Hb.
    destruct (@last jsstring a) as [x|] eqn:El; [|discriminate Hb].
    apply last_Some in El as [a' Ea]. exists a', x. split; [exact Ea|].
    by apply negb_true_iff.
Qed.

(** X2: in the fragments of a walk a paragraph break is never the first
    fragment and always follows a fragment that does not end in a newline;
    so two breaks never stand side by side, however the paragraphs nest. *)
Theorem paragraph_break_follows_text (t : node) (a b : list jsstring) :
  extractTextFromElement t [] = a ++ [LF; LF] :: b ->
  exists a' x, a = a' ++ [x] /\ endsWith [LF] x = false.
Proof.
  intros E. eapply well_broken_breaks; [|exact E].
  apply walk_well_broken. constructor.
Qed.

Lemma paragraph_break_follows_text_witness :
  exists a' x, [js "First"] = a' ++ [x] /\ endsWith [LF] x = false.
Proof.
  apply (paragraph_break_follows_text two_paragraph_elements [js "First"] [js "Second"]).
  by vm_compute.
Defined.

(** *** Documents without visible text *)

Lemma replace_from_forall (P : N -> Prop) (m : matcher) :
  (forall s out n, Forall P s -> m s = Some (out, n) -> Forall P out) ->
  forall s skip, Forall P s -> Forall P (replace_from m skip s).
Proof.
  intros Hm. induction s as [|c t IH]; intros skip Hs; simpl; [done|].
  pose proof Hs as Hs'. apply Forall_cons in Hs' as [Hc Ht].
  destruct skip as [|k]; [|by apply IH].
  destruct (m (c :: t)) as [[out n]|] eqn:E.
  - apply Forall_app. split; [eapply Hm; [exact Hs | exact E] | by apply IH].
  - apply Forall_cons. split; [done | by apply IH].
Qed.

Lemma run_matcher_blank p min out s o n :
  Forall blank out -> run_matcher p min out s = Some (o, n) -> Forall blank o.
Proof.
  unfold run_matcher. intros Hout. destruct (min <=? run_length p s)%nat; [|done].
  by intros [= <- _].
Qed.

Lemma pair_matcher_blank p q s o n :
  Forall blank s -> pair_matcher p q s = Some (o, n) -> Forall blank o.
Proof.
  unfold pair_matcher. destruct s as [|a [|b r]]; try done.
  intros Hs. destruct (p a && q b); [|done]. intros [= <- _].
  apply Forall_cons in Hs as [Ha Hs]. apply Forall_cons in Hs as [Hb _].
  repeat (apply Forall_cons; split; try done).
Qed.

Lemma caps_matcher_blank s o n :
  Forall blank s -> caps_matcher s = Some (o, n) -> Forall blank o.
Proof.
  unfold caps_matcher. destruct s as [|a [|b [|c r]]]; try done.
  intros Hs. destruct (is_upper a && is_upper b && is_lower c); [|done]. intros [= <- _].
  apply Forall_cons in Hs as [Ha Hs]. apply Forall_cons in Hs as [Hb Hs].
  apply Forall_cons in Hs as [Hc _].
  repeat (apply Forall_cons; split; try done).
Qed.

Lemma newline_space_matcher_blank s o n :
  newline_space_matcher s = Some (o, n) -> Forall blank o.
Proof.
  unfold newline_space_matcher. destruct s as [|a [|b r]]; try done.
  destruct (is_newline a && (b =? SP)%N); [|done]. intros [= <- _].
  by repeat constructor.
Qed.

Lemma trim_blank s : Forall blank s -> trim s = [].
Proof.
  intros Hs. unfold trim, trimStart.
  assert (skip_while is_space s = []) as ->; [|done].
  induction Hs as [|c x Hc _ IH]; simpl; [done|]. by rewrite Hc.
Qed.

Lemma cleanup_blank s : Forall blank s -> cleanup s = [].
Proof.
  intros Hs. unfold cleanup, collapse_whitespace, replace_all.
  apply trim_blank.
  apply replace_from_forall;
    [intros ? ? ? _ Hm; eapply run_matcher_blank; [|exact Hm]; by repeat constructor|].
  apply replace_from_forall;
    [intros ? ? ? _ Hm; eapply run_matcher_blank; [|exact Hm]; by repeat constructor|].
  apply replace_from_forall; [intros; by eapply pair_matcher_blank|].
  apply replace_from_forall; [intros; by eapply pair_matcher_blank|].
  apply replace_from_forall; [intros; by eapply caps_matcher_blank|].
  apply replace_from_forall; [intros; by eapply pair_matcher_blank|].
  apply replace_from_forall; [intros; by eapply newline_space_matcher_blank|].
  apply replace_from_forall;
    [intros ? ? ? _ Hm; eapply run_matcher_blank; [|exact Hm]; by repeat constructor|].
  apply replace_from_forall;
    [intros ? ? ? _ Hm; eapply run_matcher_blank; [|exact Hm]; by repeat constructor|].
  exact Hs.
Qed.

Lemma join_blank parts :
  Forall (Forall blank) parts -> Forall blank (join [SP] parts).
Proof.
  induction 1 as [|x rest Hx Hrest IH]; simpl; [done|].
  destruct rest as [|y rest]; [done|].
  apply Forall_app. split; [done|]. apply Forall_cons. split; [done | exact IH].
Qed.

(** X3: a document in which no string leaf has visible text (none at
    all, or only white space) yields the empty string, whatever tabs,
    line breaks and paragraphs it holds. *)
Theorem blank_document_extracts_nothing (t : node) :
  Forall (fun leaf => trim leaf = []) (leaves t) -> extractText t = [].
Proof.
  intros Hblank.
  assert (primaryText t = []) as Hp.
  { unfold primaryText. apply cleanup_blank, join_blank.
    destruct (walk_appends t []) as [added [-> Hall]]. simpl.
    eapply Forall_impl; [exact Hall|]. intros f [_ [Hsep | (leaf & Hin & Hne & _)]].
    - destruct Hsep as [-> | [-> | ->]]; by repeat constructor.
    - rewrite Forall_forall in Hblank. by destruct (Hne (Hblank leaf Hin)). }
  assert (extractTextFallback t = []) as Hf.
  { rewrite extractTextFallback_tokens. unfold fallback_tokens, collected.
    assert (List.filter (fun leaf => nonempty leaf
                                     && negb (includes (js "http://schemas") leaf))
              (List.map trim (leaves t)) = []) as ->; [|done].
    induction Hblank as [|leaf rest Hl _ IH]; simpl; [done|]. by rewrite Hl. }
  unfold extractText. rewrite Hp, Hf. done.
Qed.

(** An empty section with a tab, a line break and blank runs. *)
Lemma blank_document_extracts_nothing_witness :
  extractText
    (Obj [(js "w:body",
           Arr [Obj [(js "w:p", Obj [(js "w:r", Obj [(js "w:t", Str [SP; SP])])])];
                Obj [(js "w:tab", Obj [])];
                Obj [(js "w:p", Obj [(js "w:r", Obj [(js "w:br", Obj [])])])];
                Str [LF; SP]])]) = [].
Proof. apply blank_document_extracts_nothing. by vm_compute; repeat constructor. Defined.

End Breaks.

(** ** Metadata extraction *)

Section MetadataExtras.

Lemma read_core_fields parsed (st : state DocumentMetadata) :
  parsed <> Null ->
  read_core parsed st
  = (Returned tt, {| local := core_fields parsed (local st); log := log st |}).
Proof.
  intros Hn. destruct st as [m l].
  unfold read_core, property_of, core_fields, when_present, bind, update, ret.
  destruct parsed; try done; cbv zeta;
    set (found := or_empty _);
    destruct (truthy (get (js "dcterms:created") found));
    destruct (truthy (get (js "dcterms:modified") found)); reflexivity.
Qed.

Lemma read_app_fields parsed (st : state DocumentMetadata) :
  parsed <> Null ->
  read_app parsed st
  = (Returned tt, {| local := app_fields parsed (local st); log := log st |}).
Proof.
  intros Hn. destruct st as [m l].
  unfold read_app, property_of, app_fields, when_present, bind, update, ret.
  destruct parsed; try done; cbv zeta;
    set (found := or_empty _);
    destruct (truthy (get (js "Pages") found));
    destruct (truthy (get (js "Words") found));
    destruct (truthy (get (js "Characters") found)); reflexivity.
Qed.

Lemma extractMetadata_from w docxContent (calls : list event) :
  extractMetadata w docxContent {| local := empty_metadata; log := calls |}
  = (Returned (fst (metadata_outcome w docxContent)),
     {| local := fst (metadata_outcome w docxContent);
        log := calls ++ snd (metadata_outcome w docxContent) |}).
Proof.
  unfold extractMetadata, metadata_outcome, present_part, core_properties, app_properties.
  unfold bind, try_catch, call, settle, read, ret.
  destruct (part (js "docProps/core.xml") docxContent) as [[|c x]|];
    destruct (part (js "docProps/app.xml") docxContent) as [[|a y]|]; simpl;
    repeat match goal with
           | |- context [xml2js_parse w ?d] =>
               destruct (xml2js_parse w d) as [?|[?|?|?|]]; simpl
           end;
    repeat first [ rewrite read_core_fields by done
                 | rewrite read_app_fields by done
                 | progress unfold read_core, read_app, property_of, bind, throw
                 | progress simpl ];
    rewrite <- ?app_assoc, ?app_nil_r; done.
Qed.

Lemma extractMetadata_outcome w docxContent :
  extractMetadata w docxContent {| local := empty_metadata; log := [] |}
  = (Returned (fst (metadata_outcome w docxContent)),
     {| local := fst (metadata_outcome w docxContent);
        log := snd (metadata_outcome w docxContent) |}).
Proof. apply (extractMetadata_from w docxContent []). Qed.


(** X5: the [creator] field is never set; when the core part is present
    and parses, [title], [author] and [subject] are the [dc:title],
    [dc:creator] and [dc:subject] properties of [cp:coreProperties]
    (absent when the property is), whatever happens to the application
    part. *)
Theorem metadata_core_fields (w : collaborators)
    (docxContent : list (jsstring * jsstring)) :
  let md := run_extractMetadata w docxContent in
  creator md = None /\
  (forall core parsed,
     present_part (js "docProps/core.xml") docxContent = Some core ->
     xml2js_parse w core = inr parsed ->
     let props := or_empty (get (js "cp:coreProperties") parsed) in
     title md = get (js "dc:title") props /\
     author md = get (js "dc:creator") props /\
     subject md = get (js "dc:subject") props).
Proof.
  unfold run_extractMetadata. rewrite extractMetadata_outcome. simpl.
  assert (forall p m, creator (core_fields p m) = creator m) as Hcc.
  { intros p m. unfold core_fields. by repeat case_match. }
  assert (forall p m, creator (app_fields p m) = creator m) as Hac.
  { intros p m. unfold app_fields. by repeat case_match. }
  assert (forall p m, title (app_fields p m) = title m) as Hat.
  { intros p m. unfold app_fields. by repeat case_match. }
  assert (forall p m, author (app_fields p m) = author m) as Haa.
  { intros p m. unfold app_fields. by repeat case_match. }
  assert (forall p m, subject (app_fields p m) = subject m) as Has.
  { intros p m. unfold app_fields. by repeat case_match. }
  assert (forall p m, let props := or_empty (get (js "cp:coreProperties") p) in
                      title (core_fields p m) = get (js "dc:title") props
                      /\ author (core_fields p m) = get (js "dc:creator") props
                      /\ subject (core_fields p m) = get (js "dc:subject") props) as Hcf.
  { intros p m. unfold core_fields. by repeat case_match. }
  unfold metadata_outcome.
  destruct (present_part (js "docProps/core.xml") docxContent) as [core|];
    destruct (present_part (js "docProps/app.xml") docxContent) as [app|];
    repeat match goal with
           | |- context [xml2js_parse w ?d] =>
               destruct (xml2js_parse w d) as [?|[?|?|?|]] eqn:?
           end; simpl.
  all: split; [by rewrite ?Hac, ?Hcc|].
  all: intros core' parsed' Hc Hp; simplify_eq; try congruence.
  all: repeat match goal with
         | H1 : ?x = inr ?a, H2 : ?x = inr ?b |- _ =>
             rewrite H1 in H2; injection H2 as <-
         end.
  all: rewrite ?Hat, ?Haa, ?Has;
    first [ apply Hcf
          | match goal with
            | H : xml2js_parse _ _ = inr ?p |- _ => exact (Hcf p empty_metadata)
            end ].
Qed.

Lemma metadata_core_fields_witness :
  exists md,
    md = run_extractMetadata
           {| safety_validateFile := fun _ => inl NotAnError;
              yauzl_open := fun _ => inl NotAnError;
              xml2js_parse := fun _ =>
                inr (Obj [(js "cp:coreProperties",
                           Obj [(js "dc:title", Str (js "Report"));
                                (js "dc:creator", Str (js "Ada"))])]);
              date_now := fun _ => 0%Z;
              date_toISOString := fun _ => [];
              json_stringify := fun c _ _ => c |}
           [(js "docProps/core.xml", js "<cp:coreProperties/>")] /\
    title md = Some (Str (js "Report")) /\ author md = Some (Str (js "Ada")) /\
    subject md = None /\ creator md = None.
Proof.
  eexists. split; [reflexivity|].
  match goal with
  | |- context [run_extractMetadata ?w ?c] =>
      destruct (metadata_core_fields w c) as [Hc H];
      destruct (H (js "<cp:coreProperties/>")
                  (Obj [(js "cp:coreProperties",
                         Obj [(js "dc:title", Str (js "Report"));
                              (js "dc:creator", Str (js "Ada"))])])
                  eq_refl eq_refl) as (Ht & Ha & Hs)
  end.
  rewrite Ht, Ha, Hs, Hc. by vm_compute.
Defined.

End MetadataExtras.

(** ** The course of [parseDocument] *)

Section ParseExtras.

Lemma parseDocument_course w (h : heap) this filePath :
  run_parseDocument w h this filePath = parse_outcome w (deref (config this) h) filePath.
Proof.
  unfold run_parseDocument, parse_outcome, parseDocument, parseDocument_try.
  unfold extractDocxContent, now, nested, present_part, failed, MISSING_DOCUMENT.
  unfold bind, try_catch, call, settle, update, history, ret, read, throw, finish.
  set (cfg := deref (config this) h). simpl.
  destruct (enabled cfg "safetyChecks");
    [destruct (safety_validateFile w filePath) as [e|verdict]; simpl; [done|];
     destruct (isSafe verdict); simpl; [|done] |];
    (destruct (yauzl_open w filePath) as [e|[z|]]; simpl; [done| |done];
     destruct (read_entries (zip_entries z) (zip_ending_event z) []) as [content|e|e];
       simpl; [|done|done];
     destruct (part (js "word/document.xml") content) as [[|c x]|]; simpl; [done| |done];
     destruct (xml2js_parse w (c :: x)) as [e|parsed]; simpl; [done|];
     destruct (enabled cfg "includeMetadata"); simpl;
       rewrite ?extractMetadata_from; simpl;
       destruct (enabled cfg "extractImages"); simpl; done).
Qed.

Lemma metadata_outcome_parses w docxContent :
  Forall is_parse_event (snd (metadata_outcome w docxContent)).
Proof.
  unfold metadata_outcome.
  repeat case_match; simpl; repeat (apply Forall_cons; split; [done|]); done.
Qed.

(** X6: the calls of one [parseDocument] follow a fixed order: the safety
    manager is asked first, once, when safety checks are enabled and not
    at all otherwise; then the container is opened, at most once; the XML
    parser is called only after the container has been opened. *)
Theorem parseDocument_call_order (w : collaborators) (h : heap)
    (this : WordParser) (filePath : jsstring) :
  exists rest,
    snd (run_parseDocument w h this filePath)
    = (if enabled (deref (config this) h) "safetyChecks"
       then [EvValidate filePath] else []) ++ rest /\
    (rest = [] \/
     exists parses, rest = EvOpenContainer filePath :: parses
                    /\ Forall is_parse_event parses).
Proof.
  rewrite parseDocument_course. unfold parse_outcome.
  pose proof (metadata_outcome_parses w) as Hm.
  set (cfg := deref (config this) h).
  assert (forall docxContent x,
            Forall is_parse_event
              ([EvParseXml x] ++ (if enabled cfg "includeMetadata"
                                  then snd (metadata_outcome w docxContent) else []))) as Hp.
  { intros docxContent x. apply Forall_app. split; [by repeat constructor|].
    destruct (enabled cfg "includeMetadata"); [apply Hm | done]. }
  destruct (enabled cfg "safetyChecks");
    [destruct (safety_validateFile w filePath) as [e|verdict]; simpl;
     [exists []; split; [done | by left]|];
     destruct (isSafe verdict); simpl; [|exists []; split; [done | by left]] |];
    (destruct (yauzl_open w filePath) as [e|[z|]]; simpl;
     [eexists; split; [done|]; right; by exists []| |
      eexists; split; [done|]; right; by exists []];
     destruct (read_entries (zip_entries z) (zip_ending_event z) []) as [content|e|e];
       simpl; [| eexists; split; [done|]; right; by exists []
               | eexists; split; [done|]; right; by exists []];
     destruct (present_part (js "word/document.xml") content) as [xml|]; simpl;
       [|eexists; split; [done|]; right; by exists []];
     destruct (xml2js_parse w xml) as [e|parsed]; simpl;
       [eexists; split; [done|]; right; eexists; split; [done | by repeat constructor]|];
     specialize (Hp content xml);
     destruct (enabled cfg "includeMetadata"); simpl in *;
       (eexists; split; [done|]; right; eexists; split; [done|]);
       [exact Hp | by repeat constructor]).
Qed.

(** X7: when the container is read but holds no [word/document.xml]
    part, or an empty one, the call returns a failed result whose only
    error is the missing-part message, and the XML parser is never
    called. *)
Theorem missing_document_part (w : collaborators) (h : heap) (this : WordParser)
    (filePath : jsstring) (z : zip_file) (docxContent : list (jsstring * jsstring)) :
  enabled (deref (config this) h) "safetyChecks" = false
  \/ (exists verdict, safety_validateFile w filePath = inr verdict /\ isSafe verdict = true) ->
  yauzl_open w filePath = inr (Some z) ->
  read_entries (zip_entries z) (zip_ending_event z) [] = Returned docxContent ->
  present_part (js "word/document.xml") docxContent = None ->
  fst (run_parseDocument w h this filePath) = Returned (failed [MISSING_DOCUMENT]) /\
  Forall (fun ev => ~ is_parse_event ev) (snd (run_parseDocument w h this filePath)).
Proof.
  intros Hgate Hopen Hread Hdoc. rewrite parseDocument_course. unfold parse_outcome.
  rewrite Hopen, Hread, Hdoc.
  destruct Hgate as [-> | [verdict [-> ->]]].
  - split; [done|]. repeat constructor. by intros [].
  - destruct (enabled _ "safetyChecks"); (split; [done|]); repeat constructor; by intros [].
Qed.

(** A container without the document part. *)
Lemma missing_document_part_witness :
  fst (run_parseDocument
         (sample_world (inr safe_verdict)
            (inr (Some {| zip_entries := [(js "docProps/app.xml",
                                           Stream (StreamEnd [app_xml]))];
                          zip_ending_event := ZipEnd |})))
         (snd (new_parser ∅ ∅)) (fst (new_parser ∅ ∅)) (js "report.docx"))
  = Returned (failed [MISSING_DOCUMENT]).
Proof.
  eapply (missing_document_part
            (sample_world (inr safe_verdict)
               (inr (Some {| zip_entries := [(js "docProps/app.xml",
                                              Stream (StreamEnd [app_xml]))];
                             zip_ending_event := ZipEnd |})))).
  - right. exists safe_verdict. by vm_compute.
  - reflexivity.
  - by vm_compute.
  - by vm_compute.
Defined.

(** X8: a failed result carries no content, metadata, images or
    processing time and no warning; its errors are the issues of an
    unsafe verdict, or the single missing-part message, or the single
    message ["Parsing failed: ..."] of whatever was thrown. *)
Theorem failed_result_shape (w : collaborators) (h : heap) (this : WordParser)
    (filePath : jsstring) (r : ProcessingResult) :
  fst (run_parseDocument w h this filePath) = Returned r ->
  success r = false ->
  content r = None /\ metadata r = None /\ images r = None /\
  processingTime r = None /\ warnings r = [] /\
  (errors r = [MISSING_DOCUMENT]
   \/ (exists e, errors r = [failure_message e])
   \/ (exists verdict,
         enabled (deref (config this) h) "safetyChecks" = true /\
         safety_validateFile w filePath = inr verdict /\
         isSafe verdict = false /\ errors r = issues verdict)).
Proof.
  rewrite parseDocument_course. unfold parse_outcome.
  destruct (enabled _ "safetyChecks") eqn:Hon;
    [destruct (safety_validateFile w filePath) as [e|verdict] eqn:Hv; simpl;
     [intros [= <-] _; repeat split; right; left; by eexists|];
     destruct (isSafe verdict) eqn:Hs; simpl;
     [|intros [= <-] _; repeat split; right; right; by exists verdict] |];
    (destruct (yauzl_open w filePath) as [e|[z|]]; simpl;
     [intros [= <-] _; repeat split; right; left; by eexists| |
      intros [= <-] _; repeat split; right; left; by eexists];
     destruct (read_entries (zip_entries z) (zip_ending_event z) []) as [c|e|e];
       simpl; [|intros [= <-] _; repeat split; right; left; by eexists|done];
     destruct (present_part (js "word/document.xml") c) as [xml|]; simpl;
       [|intros [= <-] _; repeat split; by left];
     destruct (xml2js_parse w xml) as [e|parsed]; simpl;
       [intros [= <-] _; repeat split; right; left; by eexists|];
     by intros [= <-] ?).
Qed.

Lemma failed_result_shape_witness :
  exists r,
    fst (run_parseDocument (sample_world (inr safe_verdict) (inl (Error (js "ENOENT"))))
           (snd (new_parser ∅ ∅)) (fst (new_parser ∅ ∅)) (js "report.docx")) = Returned r /\
    content r = None /\ errors r = [js "Parsing failed: ENOENT"].
Proof.
  eexists. split; [by vm_compute|].
  match goal with
  | |- context [errors ?r] =>
      destruct (failed_result_shape
                  (sample_world (inr safe_verdict) (inl (Error (js "ENOENT"))))
                  (snd (new_parser ∅ ∅)) (fst (new_parser ∅ ∅)) (js "report.docx") r)
        as (Hc & _); [by vm_compute | by vm_compute |]
  end.
  split; [exact Hc | by vm_compute].
Defined.

(** X9: a successful result has no errors and no warnings; its content
    is [extractText] of the parsed document part; its metadata is the
    record of [extractMetadata] when [includeMetadata] is enabled and is
    absent otherwise; its images are those of [extractImages] when
    [extractImages] is enabled and are absent otherwise; its processing
    time is set. *)
Theorem successful_result_shape (w : collaborators) (h : heap) (this : WordParser)
    (filePath : jsstring) (r : ProcessingResult) :
  fst (run_parseDocument w h this filePath) = Returned r ->
  success r = true ->
  errors r = [] /\ warnings r = [] /\ is_Some (processingTime r) /\
  exists z docxContent xml parsed,
    yauzl_open w filePath = inr (Some z) /\
    read_entries (zip_entries z) (zip_ending_event z) [] = Returned docxContent /\
    present_part (js "word/document.xml") docxContent = Some xml /\
    xml2js_parse w xml = inr parsed /\
    content r = Some (extractText parsed) /\
    metadata r = (if enabled (deref (config this) h) "includeMetadata"
                  then Some (run_extractMetadata w docxContent) else None) /\
    images r = (if enabled (deref (config this) h) "extractImages"
                then Some (extractImages docxContent) else None).
Proof.
  rewrite parseDocument_course. unfold parse_outcome.
  assert (forall c, fst (metadata_outcome w c) = run_extractMetadata w c) as Hm.
  { intros c. unfold run_extractMetadata. by rewrite extractMetadata_outcome. }
  destruct (enabled _ "safetyChecks") eqn:Hon;
    [destruct (safety_validateFile w filePath) as [e|verdict] eqn:Hv; simpl;
     [by intros [= <-] ?|];
     destruct (isSafe verdict) eqn:Hs; simpl; [|by intros [= <-] ?] |];
    (destruct (yauzl_open w filePath) as [e|[z|]] eqn:Ho; simpl;
     [by intros [= <-] ?| |by intros [= <-] ?];
     destruct (read_entries (zip_entries z) (zip_ending_event z) []) as [c|e|e] eqn:Hr;
       simpl; [|by intros [= <-] ?|done];
     destruct (present_part (js "word/document.xml") c) as [xml|] eqn:Hd; simpl;
       [|by intros [= <-] ?];
     destruct (xml2js_parse w xml) as [e|parsed] eqn:Hp; simpl;
       [by intros [= <-] ?|];
     intros [= <-] _; simpl; rewrite Hm;
     split; [done|]; split; [done|]; split; [by eexists|];
     exists z, c, xml, parsed; done).
Qed.

Lemma successful_result_shape_witness :
  exists r,
    fst (run_parseDocument (sample_world (inr safe_verdict) (inr (Some sample_zip)))
           (snd (new_parser ∅ ∅)) (fst (new_parser ∅ ∅)) (js "report.docx")) = Returned r /\
    errors r = [] /\ warnings r = [].
Proof.
  eexists. split; [by vm_compute|].
  match goal with
  | |- context [errors ?r] =>
      destruct (successful_result_shape
                  (sample_world (inr safe_verdict) (inr (Some sample_zip)))
                  (snd (new_parser ∅ ∅)) (fst (new_parser ∅ ∅)) (js "report.docx") r)
        as (He & Hw & _); [by vm_compute | by vm_compute |]
  end.
  by split.
Defined.

End ParseExtras.

(** ** The parts of a container *)

Section ContainerExtras.

Lemma str_eqb_refl a : str_eqb a a = true.
Proof. by apply str_eqb_eq. Qed.

Lemma str_eqb_neq a b : a <> b -> str_eqb a b = false.
Proof. intros H. destruct (str_eqb a b) eqn:E; [|done]. by apply str_eqb_eq in E. Qed.

Lemma define_part_fresh n t c : part n c = None -> define_part n t c = c ++ [(n, t)].
Proof.
  induction c as [|[k v] rest IH]; simpl; [done|].
  destruct (str_eqb k n); [done|]. intros H. by rewrite IH.
Qed.

Lemma keys_part_None n c : n ∉ List.map fst c -> part n c = None.
Proof.
  induction c as [|[k v] rest IH]; simpl; [done|].
  intros H. apply not_elem_of_cons in H as [Hk Hr].
  rewrite str_eqb_neq by done. by apply IH.
Qed.

Lemma read_entries_healthy entries :
  Forall healthy_entry entries ->
  forall content,
    NoDup (List.map fst content ++ List.map fst (stored_parts entries)) ->
    read_entries entries ZipEnd content = Returned (content ++ stored_parts entries).
Proof.
  induction 1 as [|[f o] rest Hh _ IH]; intros content Hnd; simpl.
  - by rewrite app_nil_r.
  - simpl in Hnd. destruct (endsWith (js "/") f) eqn:Ed; [by apply IH|].
    destruct Hh as [Hh|Hh]; simpl in Hh; [congruence|].
    destruct o as [e| |[chunks|chunks e]]; try done; [by apply IH|].
    unfold set_part. destruct (str_eqb f (js "__proto__")); [by apply IH|].
    simpl in Hnd.
    assert (part f content = None) as Hf.
    { apply keys_part_None. apply NoDup_app in Hnd as (_ & Hd & _).
      intros Hin. apply (Hd f Hin). apply list_elem_of_here. }
    rewrite (define_part_fresh _ _ _ Hf), IH.
    + by rewrite <- app_assoc.
    + rewrite List.map_app. simpl. by rewrite <- app_assoc.
Qed.

Lemma part_of_elem n t c : NoDup (List.map fst c) -> (n, t) ∈ c -> part n c = Some t.
Proof.
  induction c as [|[k v] rest IH]; simpl; intros Hnd Hin.
  - by apply elem_of_nil in Hin.
  - apply NoDup_cons in Hnd as [Hk Hnd].
    apply elem_of_cons in Hin as [[= <- <-]|Hin].
    + by rewrite str_eqb_refl.
    + rewrite str_eqb_neq; [by apply IH|]. intros ->. apply Hk.
      apply list_elem_of_fmap. by exists (n, t).
Qed.

(** *** The order of the keys *)

Lemma insert_index_names v n l :
  List.map snd (insert_index v n l) ≡ₚ n :: List.map snd l.
Proof.
  induction l as [|[u m] rest IH]; simpl; [done|].
  destruct (v <? u)%N; simpl; [done|]. rewrite IH. apply Permutation_swap.
Qed.

Lemma indexed_names names :
  List.map snd
    (fold_right (fun name acc => match array_index name with
                                 | Some v => insert_index v name acc
                                 | None => acc
                                 end) [] names)
  ≡ₚ List.filter indexed_name names.
Proof.
  induction names as [|n names IH]; simpl; [done|].
  unfold indexed_name at 1. destruct (array_index n) as [v|]; [|exact IH].
  rewrite insert_index_names. by rewrite IH.
Qed.

Lemma filter_split {A} (f : A -> bool) (l : list A) :
  List.filter f l ++ List.filter (fun x => negb (f x)) l ≡ₚ l.
Proof.
  induction l as [|x l IH]; simpl; [done|].
  destruct (f x); simpl.
  - by rewrite IH.
  - rewrite <- Permutation_middle. by rewrite IH.
Qed.

Lemma object_keys_names c : object_keys c ≡ₚ List.map fst c.
Proof.
  unfold object_keys. rewrite indexed_names.
  rewrite <- (filter_split indexed_name (List.map fst c)) at 3.
  apply Permutation_app; [done|].
  assert (forall l : list jsstring,
            List.filter (fun name => match array_index name with
                                     | Some _ => false
                                     | None => true
                                     end) l
            = List.filter (fun x => negb (indexed_name x)) l) as ->; [|done].
  intros l. apply List.filter_ext. intros a. unfold indexed_name.
  by destruct (array_index a).
Qed.

(** A test that no array index passes sees the names in the order in
    which they were stored. *)
Lemma filter_object_keys (f : jsstring -> bool) c :
  (forall n, f n = true -> indexed_name n = false) ->
  List.filter f (object_keys c) = List.filter f (List.map fst c).
Proof.
  intros Hf. unfold object_keys. rewrite List.filter_app.
  assert (forall l : list jsstring,
            Forall (fun n => indexed_name n = true) l -> List.filter f l = []) as Hnone.
  { induction 1 as [|n l Hn _ IH]; [done|]. simpl.
    destruct (f n) eqn:E; [|done]. apply Hf in E. congruence. }
  rewrite Hnone.
  - simpl. induction (List.map fst c) as [|n l IH]; [done|]. simpl.
    destruct (array_index n) eqn:E; simpl.
    + destruct (f n) eqn:Ef; [|done]. apply Hf in Ef.
      unfold indexed_name in Ef. by rewrite E in Ef.
    + by rewrite IH.
  - assert (Forall (fun n => indexed_name n = true)
              (List.filter indexed_name (List.map fst c))) as Hall.
    { apply Forall_forall. intros n Hn. apply list_elem_of_In, List.filter_In in Hn.
      by destruct Hn. }
    rewrite Forall_forall in Hall |- *. intros n Hn. apply Hall.
    by rewrite <- (indexed_names (List.map fst c)).
Qed.

(** X11: for a container all of whose entries are healthy (directories,
    missing streams, streams that end) and whose file entries have
    distinct names, [extractDocxContent]'s listeners resolve with a
    record that holds, for each file entry other than one named
    [__proto__], the concatenation of its chunks under its name, and
    nothing else: its keys are these names, those that are no array
    indices in container order. *)
Theorem healthy_container_content (entries : list (jsstring * open_stream)) :
  Forall healthy_entry entries ->
  NoDup (List.map fst (stored_parts entries)) ->
  exists docxContent,
    read_entries entries ZipEnd [] = Returned docxContent /\
    (forall name text,
       (name, text) ∈ stored_parts entries -> part name docxContent = Some text) /\
    object_keys docxContent ≡ₚ List.map fst (stored_parts entries) /\
    List.filter (fun name => negb (indexed_name name)) (object_keys docxContent)
    = List.filter (fun name => negb (indexed_name name))
        (List.map fst (stored_parts entries)) /\
    js "__proto__" ∉ object_keys docxContent.
Proof.
  intros Hh Hnd. exists (stored_parts entries).
  split; [by apply (read_entries_healthy entries Hh [])|].
  split; [intros name text Hin; by apply part_of_elem|].
  split; [apply object_keys_names|].
  split.
  { apply filter_object_keys. intros n Hn. by apply negb_true_iff in Hn. }
  rewrite object_keys_names. clear Hh Hnd.
  induction entries as [|[f o] rest IH]; cbn [stored_parts]; [apply not_elem_of_nil|].
  destruct (endsWith (js "/") f); [done|].
  destruct o as [e| |[chunks|chunks e]]; try done.
  destruct (str_eqb f (js "__proto__")) eqn:E; [done|].
  cbn [List.map fst]. apply not_elem_of_cons. split; [|done].
  intros Heq. by rewrite <- Heq, str_eqb_refl in E.
Qed.

Lemma healthy_container_content_witness :
  exists docxContent,
    read_entries (zip_entries odd_zip) ZipEnd [] = Returned docxContent /\
    object_keys docxContent
    = [js "9"; js "10"; js "word/document.xml"; js "word/media/a.png"].
Proof.
  destruct (healthy_container_content (zip_entries odd_zip)) as [c [E _]].
  - repeat constructor; by vm_compute; auto.
  - vm_compute. repeat constructor; rewrite ?elem_of_cons, ?elem_of_nil;
      intros H; intuition discriminate.
  - exists c. split; [exact E|].
    vm_compute in E. injection E as <-. by vm_compute.
Defined.

(** *** Image names *)

Lemma endsWith_spec p s : endsWith p s = true <-> exists a, s = a ++ p.
Proof.
  unfold endsWith. rewrite startsWith_spec. split.
  - intros [b Hb]. exists (rev b).
    apply (f_equal (@rev N)) in Hb. rewrite rev_involutive in Hb.
    by rewrite Hb, rev_app_distr, rev_involutive.
  - intros [a ->]. exists (rev a). by rewrite rev_app_distr.
Qed.

Lemma fold_case_letter x c :
  is_upper x = false -> fold_case c = x <-> letter_of x c.
Proof.
  intros Hx. unfold fold_case, letter_of. destruct (is_upper c) eqn:Ec.
  - unfold is_upper, between in Ec. apply andb_true_iff in Ec as [E1 E2].
    apply N.leb_le in E1, E2. split.
    + intros <-. right. lia.
    + intros [-> | [_ H]]; [|done]. unfold is_upper, between in Hx.
      apply andb_false_iff in Hx as [Hx|Hx]; apply N.leb_gt in Hx; lia.
  - split; [intros ->; by left|]. intros [-> | [Hr H]]; [done|].
    unfold is_upper, between in Ec.
    apply andb_false_iff in Ec as [Ec|Ec]; apply N.leb_gt in Ec; lia.
Qed.

Lemma map_fold_case pat : forall s,
  Forall (fun x => is_upper x = false) pat ->
  List.map fold_case s = pat <-> Forall2 letter_of pat s.
Proof.
  induction pat as [|x pat IH]; intros s Hpat.
  - split.
    + intros H. destruct s; [constructor | done].
    + intros H. by inversion H.
  - apply Forall_cons in Hpat as [Hx Hpat]. split.
    + destruct s as [|c s]; [done|]. simpl. intros [= Hc Hs].
      constructor; [by apply fold_case_letter | by apply IH].
    + intros H. inversion H as [|? c ? s' Hc Hs]; subst. simpl. f_equal.
      * by apply fold_case_letter.
      * by apply IH.
Qed.

(** The test [/\.(png|jpg|jpeg|gif|bmp)$/i] holds of the names that end,
    in any letter case, in one of the five extensions. *)
Lemma is_image_name_spec name :
  is_image_name name = true <->
  exists stem ending ext,
    name = stem ++ ending /\ ext ∈ image_extensions /\ Forall2 letter_of (js ext) ending.
Proof.
  assert (forall ext, ext ∈ image_extensions ->
            Forall (fun x => is_upper x = false) (js ext)) as Hlow.
  { intros ext Hin. unfold image_extensions in Hin.
    rewrite !elem_of_cons, elem_of_nil in Hin.
    destruct Hin as [-> | [-> | [-> | [-> | [-> | []]]]]]; by repeat constructor. }
  unfold is_image_name. rewrite existsb_exists. split.
  - intros [ext [Hin He]]. apply list_elem_of_In in Hin.
    apply endsWith_spec in He as [a Ha].
    apply fmap_app_inv in Ha as (stem & ending & _ & Hending & ->).
    exists stem, ending, ext. split; [done|]. split; [done|].
    by apply (map_fold_case (js ext)); [apply Hlow|].
  - intros (stem & ending & ext & -> & Hin & Hl). exists ext.
    split; [by apply list_elem_of_In|]. apply endsWith_spec.
    exists (List.map fold_case stem). rewrite List.map_app. f_equal.
    by apply (map_fold_case (js ext)); [apply Hlow|].
Qed.

Lemma is_image_part_spec name text :
  is_image_part (name, text) = true <-> media_image name /\ text <> [].
Proof.
  unfold is_image_part, media_image. cbn [fst snd].
  rewrite !andb_true_iff, startsWith_spec, is_image_name_spec, nonempty_true.
  tauto.
Qed.

Lemma extractImages_filter (docxContent : list (jsstring * jsstring)) :
  NoDup (List.map fst docxContent) ->
  extractImages docxContent
  = List.map (fun kv => BufferFromBase64 (snd kv)) (List.filter is_image_part docxContent).
Proof.
  intros Hnd. unfold extractImages.
  rewrite filter_object_keys.
  2:{ intros n Hn. apply andb_true_iff in Hn as [Hn _].
      apply startsWith_spec in Hn as [b ->]. reflexivity. }
  assert (forall l, (forall x, x ∈ l -> x ∈ docxContent) ->
            flat_map (fun imageFile =>
                        match part imageFile docxContent with
                        | Some imageData =>
                            if nonempty imageData then [BufferFromBase64 imageData] else []
                        | None => []
                        end)
              (List.filter (fun fileName =>
                              startsWith (js "word/media/") fileName && is_image_name fileName)
                 (List.map fst l))
            = List.map (fun kv => BufferFromBase64 (snd kv)) (List.filter is_image_part l)) as H.
  { induction l as [|[n t] rest IH]; intros Hsub; [done|].
    assert (part n docxContent = Some t) as Hp.
    { apply part_of_elem; [done|]. apply Hsub, list_elem_of_here. }
    specialize (IH (fun x Hx => Hsub x (list_elem_of_further _ _ _ Hx))).
    cbn [List.map fst List.filter].
    assert (is_image_part (n, t)
            = (startsWith (js "word/media/") n && is_image_name n) && nonempty t) as ->
      by reflexivity.
    destruct (startsWith (js "word/media/") n && is_image_name n); cbn [andb flat_map].
    - rewrite Hp, IH. by destruct (nonempty t).
    - exact IH. }
  by apply H.
Qed.

Lemma filter_sublist_of {A} (f : A -> bool) (l : list A) : sublist (List.filter f l) l.
Proof.
  induction l as [|x l IH]; simpl; [done|].
  destruct (f x); [by apply sublist_skip | by apply sublist_cons].
Qed.

(** X12: for parts with distinct names [extractImages] returns one
    buffer for each non-empty part whose name starts with [word/media/]
    and ends, in any letter case, in [.png], [.jpg], [.jpeg], [.gif] or
    [.bmp], in the order of the parts, and nothing else. *)
Theorem extractImages_selects_media (docxContent : list (jsstring * jsstring)) :
  NoDup (List.map fst docxContent) ->
  exists selected,
    extractImages docxContent = List.map (fun kv => BufferFromBase64 (snd kv)) selected /\
    sublist selected docxContent /\
    forall name text,
      (name, text) ∈ selected <->
      (name, text) ∈ docxContent /\ media_image name /\ text <> [].
Proof.
  intros Hnd. exists (List.filter is_image_part docxContent).
  split; [by apply extractImages_filter|]. split; [apply filter_sublist_of|].
  intros name text. rewrite list_elem_of_In, List.filter_In, <- list_elem_of_In.
  by rewrite is_image_part_spec.
Qed.

Lemma extractImages_selects_media_witness :
  let docxContent :=
    [(js "word/document.xml", doc_xml);
     (js "word/media/image1.PNG", js "QUJD");
     (js "word/media/empty.gif", []);
     (js "7", js "index");
     (js "word/media/photo.Jpeg", js "REVG");
     (js "word/media/notes.txt", js "x");
     (js "media/logo.bmp", js "R0hJ");
     (js "word/media/scan.bmp", js "SktM")] in
  extractImages docxContent
  = [BufferFromBase64 (js "QUJD"); BufferFromBase64 (js "REVG");
     BufferFromBase64 (js "SktM")] /\
  exists selected,
    extractImages docxContent = List.map (fun kv => BufferFromBase64 (snd kv)) selected /\
    sublist selected docxContent.
Proof.
  cbv zeta. split; [by vm_compute|].
  match goal with
  | |- context [extractImages ?c] =>
      destruct (extractImages_selects_media c) as [selected [E [Hsub _]]]
  end.
  - vm_compute. repeat constructor; rewrite ?elem_of_cons, ?elem_of_nil;
      intros H; intuition discriminate.
  - by exists selected.
Defined.

End ContainerExtras.

(** ** Rendering *)

Section RenderExtras.

Lemma replace_unit c out s :
  replace_all (unit_matcher c out) s
  = flat_map (fun a => if (a =? c)%N then out else [a]) s.
Proof.
  unfold replace_all. induction s as [|a t IH]; simpl; [done|].
  destruct (a =? c)%N; simpl; by rewrite IH.
Qed.

Lemma flat_map_flat_map {A B C} (f : B -> list C) (g : A -> list B) (l : list A) :
  flat_map f (flat_map g l) = flat_map (fun x => flat_map f (g x)) l.
Proof.
  induction l as [|x l IH]; simpl; [done|].
  by rewrite flat_map_app, IH.
Qed.

Lemma flat_map_ext_all {A B} (f g : A -> list B) (l : list A) :
  (forall x, f x = g x) -> flat_map f l = flat_map g l.
Proof. intros H. induction l as [|x l IH]; simpl; [done|]. by rewrite H, IH. Qed.

Lemma escapeHtml_flat text : escapeHtml text = flat_map html_entity text.
Proof.
  unfold escapeHtml. rewrite !replace_unit, !flat_map_flat_map.
  apply flat_map_ext_all. intros c. unfold html_entity.
  destruct (c =? 38)%N eqn:E1; [apply N.eqb_eq in E1 as ->; by vm_compute|].
  destruct (c =? 60)%N eqn:E2; [apply N.eqb_eq in E2 as ->; by vm_compute|].
  destruct (c =? 62)%N eqn:E3; [apply N.eqb_eq in E3 as ->; by vm_compute|].
  destruct (c =? 34)%N eqn:E4; [apply N.eqb_eq in E4 as ->; by vm_compute|].
  destruct (c =? 39)%N eqn:E5; [apply N.eqb_eq in E5 as ->; by vm_compute|].
  repeat (simpl; rewrite ?E1, ?E2, ?E3, ?E4, ?E5). done.
Qed.

(** X13: the five successive replacements of [escapeHtml] amount to one
    pass that puts the entity of each code unit in its place: the [&] of
    an entity written by a later replacement is never escaped again. *)
Theorem escapeHtml_single_pass (text : jsstring) :
  escapeHtml text = flat_map html_entity text.
Proof. exact (escapeHtml_flat text). Qed.

Lemma html_entity_clean c : forallb (fun x => negb (raw_markup x)) (html_entity c) = true.
Proof.
  unfold html_entity.
  destruct (c =? 38)%N eqn:E1; [by vm_compute|].
  destruct (c =? 60)%N eqn:E2; [by vm_compute|].
  destruct (c =? 62)%N eqn:E3; [by vm_compute|].
  destruct (c =? 34)%N eqn:E4; [by vm_compute|].
  destruct (c =? 39)%N eqn:E5; [by vm_compute|].
  simpl. unfold raw_markup. by rewrite E2, E3, E4, E5.
Qed.

(** X14: escaped text holds no [<], no [>] and no quote of either kind;
    and text that has none of these and no [&] is left as it is. *)
Theorem escapeHtml_no_markup (text : jsstring) :
  forallb (fun x => negb (raw_markup x)) (escapeHtml text) = true /\
  (forallb (fun x => negb (raw_markup x) && negb (x =? 38)%N) text = true ->
   escapeHtml text = text).
Proof.
  rewrite escapeHtml_flat. split.
  - induction text as [|c t IH]; simpl; [done|].
    by rewrite forallb_app, html_entity_clean, IH.
  - induction text as [|c t IH]; simpl; [done|].
    intros H. apply andb_true_iff in H as [Hc Ht]. rewrite (IH Ht).
    apply andb_true_iff in Hc as [Hc Ha]. unfold raw_markup in Hc.
    apply negb_true_iff in Hc, Ha.
    apply orb_false_iff in Hc as [Hc H39]. apply orb_false_iff in Hc as [Hc H34].
    apply orb_false_iff in Hc as [H60 H62].
    unfold html_entity. by rewrite Ha, H60, H62, H34, H39.
Qed.

Lemma escapeHtml_no_markup_witness :
  escapeHtml (js "Q3 results: up 4%") = js "Q3 results: up 4%".
Proof. apply escapeHtml_no_markup. by vm_compute. Defined.

(** *** Format names *)

Lemma lowers_to_upper target format :
  forallb is_lower target = true ->
  lowers_to target (List.map ascii_upper format) = lowers_to target format.
Proof.
  revert format. induction target as [|x target IH]; intros [|c format] Ht; simpl; try done.
  simpl in Ht. apply andb_true_iff in Ht as [Hx Ht]. rewrite (IH format Ht). f_equal.
  rewrite Hx. simpl. unfold ascii_upper.
  destruct (is_lower c) eqn:Hc; [|done].
  unfold is_lower, between in Hx, Hc.
  apply andb_true_iff in Hx as [Hx1 Hx2], Hc as [Hc1 Hc2].
  apply N.leb_le in Hx1, Hx2, Hc1, Hc2.
  apply eq_true_iff_eq. rewrite !orb_true_iff, !andb_true_iff, !N.eqb_eq. lia.
Qed.

Lemma lowers_to_lower target format :
  forallb is_lower target = true ->
  lowers_to target (List.map fold_case format) = lowers_to target format.
Proof.
  revert format. induction target as [|x target IH]; intros [|c format] Ht; simpl; try done.
  simpl in Ht. apply andb_true_iff in Ht as [Hx Ht]. rewrite (IH format Ht). f_equal.
  rewrite Hx. simpl. unfold fold_case.
  destruct (is_upper c) eqn:Hc; [|done].
  unfold is_lower, is_upper, between in Hx, Hc.
  apply andb_true_iff in Hx as [Hx1 Hx2], Hc as [Hc1 Hc2].
  apply N.leb_le in Hx1, Hx2, Hc1, Hc2.
  apply eq_true_iff_eq. rewrite !orb_true_iff, !andb_true_iff, !N.eqb_eq. lia.
Qed.

(** X15: the format name of [convertToFormat] is read without regard to
    letter case: writing it in capitals or in small letters changes
    nothing; and a name that is none of [markdown], [html] and [json]
    gives the content back unchanged. *)
Theorem convertToFormat_case_insensitive (w : collaborators) (calls : list event)
    (content format : jsstring) (metadata : option DocumentMetadata) :
  convertToFormat w calls content (List.map ascii_upper format) metadata
  = convertToFormat w calls content format metadata /\
  convertToFormat w calls content (List.map fold_case format) metadata
  = convertToFormat w calls content format metadata /\
  (lowers_to (js "markdown") format = false ->
   lowers_to (js "html") format = false ->
   lowers_to (js "json") format = false ->
   convertToFormat w calls content format metadata = inr content).
Proof.
  unfold convertToFormat.
  rewrite !lowers_to_upper, !lowers_to_lower by by vm_compute.
  split; [done|]. split; [done|]. by intros -> -> ->.
Qed.

Lemma convertToFormat_case_insensitive_witness :
  convertToFormat (sample_world (inl NotAnError) (inl NotAnError)) []
    (js "Plain words.") (js "docx") None = inr (js "Plain words.").
Proof.
  apply (convertToFormat_case_insensitive
           (sample_world (inl NotAnError) (inl NotAnError)) []
           (js "Plain words.") (js "docx") None); by vm_compute.
Defined.

End RenderExtras.

(** ** Paragraphs of an extracted text *)

Section ParagraphExtras.

Lemma split_lines_one_line s : forall cur, LF ∉ s -> split_lines s cur = [cur ++ s].
Proof.
  induction s as [|c t IH]; intros cur Hin; simpl.
  - by rewrite app_nil_r.
  - destruct (is_newline c) eqn:E.
    + exfalso. apply Hin. apply N.eqb_eq in E. subst c. apply list_elem_of_here.
    + rewrite IH; [by rewrite <- app_assoc|].
      intros H. apply Hin. by apply list_elem_of_further.
Qed.

Lemma trim_clean s : starts_clean s -> ends_clean s -> trim s = s.
Proof.
  intros Hs He. unfold trim. rewrite (trimStart_clean s Hs).
  destruct s as [|c0 s0 _] using rev_ind; [done|].
  unfold ends_clean in He. rewrite rev_app_distr in He. simpl in He.
  rewrite <- (app_nil_r (s0 ++ [c0])) at 1.
  by apply (trimEnd_app_spaces s0 c0 []).
Qed.

Lemma normalised_clean s : normalised s -> starts_clean s /\ ends_clean s.
Proof.
  intros [_ _ _ _ Hl Ht]. split.
  - destruct s as [|c r]; [done|]. by apply (Hl c r).
  - unfold ends_clean. destruct s as [|c r _] using rev_ind; [done|].
    rewrite rev_app_distr. simpl. by apply (Ht r c).
Qed.

Lemma extractText_paragraphs t :
  List.filter (fun p => nonempty (trim p)) (split_lines (extractText t) [])
  = if nonempty (extractText t) then [extractText t] else [].
Proof.
  pose proof (extractText_trim_collapse t) as Hn.
  rewrite split_lines_one_line by apply Hn. simpl app.
  destruct (normalised_clean _ Hn) as [Hs He].
  cbn [List.filter]. rewrite (trim_clean _ Hs He).
  by destruct (extractText t).
Qed.

(** X16: an extracted text is one paragraph at most: splitting it at
    newlines and dropping blank lines leaves the whole text, or nothing
    when the text is empty.  So the paragraph count of the [info]
    command is 0 or 1, and the HTML page of an extracted text holds at
    most one [<p>] element, with the whole escaped text. *)
Theorem extracted_text_one_paragraph (t : node) :
  let text := extractText t in
  List.filter (fun p => nonempty (trim p)) (split_lines text [])
    = (if nonempty text then [text] else []) /\
  paragraph_count text = (if nonempty text then 1 else 0) /\
  convertToHtml text None
    = inr (html_page (if nonempty text
                      then js "<p>" ++ escapeHtml text ++ js "</p>" ++ [LF]
                      else [])).
Proof.
  cbv zeta. split; [apply extractText_paragraphs|]. split.
  - unfold paragraph_count. rewrite extractText_paragraphs.
    by destruct (nonempty (extractText t)).
  - unfold convertToHtml, html_page. rewrite extractText_paragraphs.
    destruct (nonempty (extractText t)); cbn [List.map concat];
      rewrite ?app_nil_r, <- ?app_assoc; reflexivity.
Qed.

End ParagraphExtras.

(** ** Sentences and markdown of plain text *)

Section MarkdownExtras.

Lemma sentence_end_visible c : is_sentence_end c = true -> is_space c = false.
Proof.
  unfold is_sentence_end. intros H.
  apply orb_true_iff in H as [H|H]; [apply orb_true_iff in H as [H|H]|];
    apply N.eqb_eq in H; subst c; reflexivity.
Qed.

Lemma ends_clean_snoc r c : ends_clean (r ++ [c]) <-> is_space c = false.
Proof. unfold ends_clean. by rewrite rev_app_distr. Qed.

Lemma ends_clean_app a s : s <> [] -> ends_clean (a ++ s) <-> ends_clean s.
Proof.
  intros Hne. unfold ends_clean. rewrite rev_app_distr.
  destruct s as [|c s _] using rev_ind; [done|].
  by rewrite rev_app_distr.
Qed.

Lemma starts_clean_app a s : a <> [] -> starts_clean (a ++ s) <-> starts_clean a.
Proof. by destruct a. Qed.

Lemma single_spaced_tail c t : single_spaced (c :: t) = true -> single_spaced t = true.
Proof. cbn [single_spaced]. intros H. by apply andb_true_iff in H as [_ H]. Qed.

Lemma single_spaced_space c t :
  single_spaced (c :: t) = true -> is_space c = true -> c = SP /\ starts_clean t.
Proof.
  cbn [single_spaced]. intros H Hc. rewrite Hc in H. cbn [negb orb] in H.
  apply andb_true_iff in H as [H _]. apply andb_true_iff in H as [H1 H2].
  apply N.eqb_eq in H1. split; [done|].
  destruct t as [|d t]; [done|]. by apply negb_true_iff in H2.
Qed.

(** The pieces of a single-spaced text that starts and ends with a
    visible unit: each is trimmed and not empty, and the pieces, each
    followed by a space, make up the text followed by a space. *)
Lemma split_from_tidy s : forall (ae in_sep : bool) (cur : jsstring),
  single_spaced s = true ->
  (if in_sep then starts_clean s /\ s <> [] /\ ends_clean s
   else starts_clean (cur ++ s) /\ cur ++ s <> [] /\ ends_clean (cur ++ s)
        /\ (ae = true -> ends_clean cur /\ cur <> [])) ->
  Forall (fun p => starts_clean p /\ ends_clean p /\ p <> [])
    (split_from s ae in_sep cur) /\
  spaced (split_from s ae in_sep cur) = (if in_sep then [] else cur) ++ s ++ [SP].
Proof.
  induction s as [|c t IH]; intros ae in_sep cur Hs Hinv.
  - destruct in_sep; [by destruct Hinv as [_ [? _]]|].
    destruct Hinv as [H1 [H2 [H3 _]]]. rewrite app_nil_r in H1, H2, H3.
    split; [by repeat constructor|].
    unfold spaced. simpl. by rewrite app_nil_r.
  - pose proof (single_spaced_tail _ _ Hs) as Ht.
    destruct in_sep.
    + destruct Hinv as [H1 [_ H3]]. cbn [starts_clean] in H1.
      cbn [split_from]. rewrite H1.
      destruct (IH (is_sentence_end c) false [c] Ht) as [HF HS]; [|by split].
      split; [done|]. split; [done|]. split; [done|].
      intros _. split; [|done]. by apply (ends_clean_snoc [] c).
    + destruct Hinv as [H1 [H2 [H3 H4]]]. cbn [split_from].
      destruct (ae && is_space c) eqn:E.
      * apply andb_true_iff in E as [-> Hc].
        destruct (H4 eq_refl) as [Hce Hcn].
        destruct (single_spaced_space _ _ Hs Hc) as [-> Hst].
        assert (t <> []) as Htn.
        { intros ->. apply ends_clean_snoc in H3. congruence. }
        assert (ends_clean t) as Hte.
        { change (cur ++ SP :: t) with (cur ++ [SP] ++ t) in H3.
          rewrite app_assoc in H3. by apply ends_clean_app in H3. }
        destruct (IH false true [] Ht) as [HF HS]; [done|].
        split.
        -- constructor; [|done]. split; [|done]. by apply (starts_clean_app cur (SP :: t)).
        -- unfold spaced in *. cbn [List.map concat]. rewrite HS.
           by rewrite <- !app_assoc.
      * destruct (IH (is_sentence_end c) false (cur ++ [c]) Ht) as [HF HS].
        { rewrite <- !app_assoc. split; [done|]. split; [by destruct cur|].
          split; [done|]. intros Hm. split; [|by destruct cur].
          apply ends_clean_snoc. by apply sentence_end_visible. }
        split; [done|]. rewrite HS. by rewrite <- !app_assoc.
Qed.

Lemma fold_plain ps : forall m cp,
  Forall (fun p => (starts_clean p /\ ends_clean p /\ p <> []) /\ plain_sentence p) ps ->
  length (cp ++ spaced ps) <= 200 ->
  fold_left md_step ps {| markdown := m; currentParagraph := cp |}
  = {| markdown := m; currentParagraph := cp ++ spaced ps |}.
Proof.
  induction ps as [|p ps IH]; intros m cp HF Hlen.
  - unfold spaced. simpl. by rewrite app_nil_r.
  - apply Forall_cons in HF as [[[Hs [He Hn]] Hp] HF].
    unfold spaced in *. cbn [List.map concat] in *.
    cbn [fold_left]. unfold md_step at 2. unfold plain_sentence in Hp.
    rewrite (trim_clean p Hs He) in *. rewrite Hp.
    destruct p as [|c p]; [done|]. cbn [nonempty negb markdown currentParagraph].
    assert ((200 <? length (cp ++ (c :: p) ++ [SP]))%nat = false) as ->.
    { apply Nat.ltb_ge. rewrite !length_app in Hlen. rewrite !length_app.
      cbn [length] in Hlen |- *. lia. }
    rewrite IH; [|done|by rewrite <- !app_assoc in *].
    by rewrite <- !app_assoc.
Qed.

Lemma skip_while_snoc p r c y :
  p c = false ->
  exists r', skip_while p (r ++ [c]) = r' ++ [c] /\
             skip_while p ((r ++ [c]) ++ y) = (r' ++ [c]) ++ y.
Proof.
  intros Hc. induction r as [|a r IH].
  - exists []. simpl. by rewrite Hc.
  - simpl. destruct (p a); [exact IH|]. by exists (a :: r).
Qed.

Lemma trim_app_blank x ws :
  ends_clean x -> x <> [] -> forallb is_space ws = true -> trim (x ++ ws) = trim x.
Proof.
  intros He Hn Hw. destruct x as [|c r _] using rev_ind; [done|].
  apply ends_clean_snoc in He.
  destruct (skip_while_snoc is_space r c ws He) as [r' [E1 E2]].
  unfold trim, trimStart. rewrite E1, E2.
  rewrite (trimEnd_app_spaces r' c ws He Hw).
  rewrite <- (app_nil_r (r' ++ [c])) at 2.
  by rewrite (trimEnd_app_spaces r' c [] He).
Qed.

Lemma trimmed_clean s : trim s = s -> starts_clean s /\ ends_clean s.
Proof.
  intros Ht. destruct s as [|c s]; [done|].
  destruct (trim_fixed_ends (c :: s) Ht) as [Hs [r [x [E Hx]]]]; [done|].
  split; [done|]. rewrite E. by apply ends_clean_snoc.
Qed.

(** X17: a text that is single-spaced and trimmed (as every extracted
    text is), shorter than 200 units and without a heading-shaped
    sentence comes out of the markdown rendering unchanged, behind the
    title and author lines if any: the sentences are split and joined
    again with single spaces. *)
Theorem markdown_of_plain_text (content : jsstring) (md : option DocumentMetadata) :
  single_spaced content = true -> trim content = content ->
  length content < 200 ->
  Forall plain_sentence (split_sentences content) ->
  convertToMarkdown content md = trim (md_header md ++ content).
Proof.
  intros Hs Ht Hlen Hplain.
  destruct (trimmed_clean content Ht) as [Hsc Hec].
  unfold convertToMarkdown.
  destruct content as [|c content].
  { change (split_sentences []) with [@nil N]. cbn [fold_left].
    unfold md_step. change (trim []) with (@nil N).
    cbn [nonempty negb currentParagraph markdown]. by rewrite app_nil_r. }
  destruct (split_from_tidy (c :: content) false false [] Hs) as [HF HS]; [done|].
  fold (split_sentences (c :: content)) in HF, HS. cbn [app] in HS.
  rewrite fold_plain.
  - cbn [currentParagraph app]. rewrite HS.
    assert (trim ((c :: content) ++ [SP]) = c :: content) as E.
    { rewrite trim_app_blank by done. exact Ht. }
    cbn [app] in E. rewrite E. cbn [nonempty]. unfold flush.
    cbn [markdown currentParagraph]. rewrite E. rewrite app_assoc. apply trim_app_blank; [|by destruct (md_header md)|done].
    by apply ends_clean_app.
  - rewrite Forall_forall in HF, Hplain. apply Forall_forall.
    intros p Hp. split; [by apply HF | by apply Hplain].
  - cbn [app]. rewrite HS. cbn [length] in Hlen |- *. rewrite length_app.
    cbn [length]. lia.
Qed.

Lemma markdown_of_plain_text_witness :
  convertToMarkdown (js "the report is ready. see page 2 for details!") None
  = js "the report is ready. see page 2 for details!".
Proof.
  rewrite (markdown_of_plain_text (js "the report is ready. see page 2 for details!") None).
  - reflexivity.
  - reflexivity.
  - reflexivity.
  - vm_compute. lia.
  - vm_compute. by repeat constructor.
Defined.

(** *** The pieces of a text *)

Lemma filter_visible_space c l :
  is_space c = true -> List.filter visible (c :: l) = List.filter visible l.
Proof. intros H. cbn [List.filter]. unfold visible at 1. by rewrite H. Qed.

Lemma split_from_shape s : forall (ae : bool) (cur : jsstring),
  (ae = true -> ends_sentence cur) ->
  ((exists more rest, split_from s ae false cur = (cur ++ more) :: rest) /\
   Forall ends_sentence (removelast (split_from s ae false cur)) /\
   Forall starts_clean (tail (split_from s ae false cur)) /\
   List.filter visible (concat (split_from s ae false cur))
   = List.filter visible (cur ++ s)) /\
  (split_from s false true [] <> [] /\
   Forall ends_sentence (removelast (split_from s false true [])) /\
   Forall starts_clean (split_from s false true []) /\
   List.filter visible (concat (split_from s false true []))
   = List.filter visible s).
Proof.
  induction s as [|c t IH]; intros ae cur Hae.
  - cbn [split_from removelast tail concat]. rewrite !app_nil_r.
    split; [|by repeat constructor].
    split; [exists [], []; by rewrite app_nil_r|]. by repeat constructor.
  - split.
    + cbn [split_from]. destruct (ae && is_space c) eqn:E.
      * apply andb_true_iff in E as [-> Hc].
        destruct (IH false [] ltac:(discriminate)) as [_ [Hne [Hends [Hst Hvis]]]].
        split; [exists [], (split_from t false true []); by rewrite app_nil_r|].
        split.
        { destruct (split_from t false true []) as [|p ps] eqn:Ep; [done|].
          change (removelast (cur :: p :: ps)) with (cur :: removelast (p :: ps)).
          constructor; [by apply Hae | done]. }
        split; [done|].
        cbn [concat]. rewrite !List.filter_app, Hvis.
        by rewrite (filter_visible_space c t Hc).
      * destruct (IH (is_sentence_end c) (cur ++ [c])) as [[[more [rest Hp]] [Hends [Hst Hvis]]] _].
        { intros Hm. by exists cur, c. }
        split; [exists (c :: more), rest; by rewrite Hp, <- app_assoc|].
        split; [done|]. split; [done|]. by rewrite Hvis, <- app_assoc.
    + cbn [split_from]. destruct (is_space c) eqn:Hc.
      * destruct (IH false [] ltac:(discriminate)) as [_ [Hne [Hends [Hst Hvis]]]].
        split; [done|]. split; [done|]. split; [done|].
        by rewrite (filter_visible_space c t Hc).
      * destruct (IH (is_sentence_end c) [c]) as [[[more [rest Hp]] [Hends [Hst Hvis]]] _].
        { intros Hm. by exists [], c. }
        split; [by rewrite Hp|]. split; [done|]. split; [|done].
        rewrite Hp in Hst |- *. constructor; [exact Hc | exact Hst].
Qed.

Lemma split_from_no_mark s : forall cur,
  Forall (fun c => is_sentence_end c = false) s ->
  split_from s false false cur = [cur ++ s].
Proof.
  induction s as [|c t IH]; intros cur HF; cbn [split_from].
  - by rewrite app_nil_r.
  - apply Forall_cons in HF as [Hc HF]. cbn [andb]. rewrite Hc.
    rewrite IH by done. by rewrite <- app_assoc.
Qed.

(** X18: the pieces into which the markdown rendering splits a text:
    there is at least one; every piece but the last ends in a full
    stop, an exclamation mark or a question mark; every piece but the
    first is empty or starts with a visible unit; only white space is
    dropped between the pieces; and a text without any of the three
    marks is one piece. *)
Theorem split_sentences_pieces (content : jsstring) :
  split_sentences content <> [] /\
  Forall ends_sentence (removelast (split_sentences content)) /\
  Forall starts_clean (tail (split_sentences content)) /\
  List.filter visible (concat (split_sentences content)) = List.filter visible content /\
  (Forall (fun c => is_sentence_end c = false) content ->
   split_sentences content = [content]).
Proof.
  unfold split_sentences.
  destruct (split_from_shape content false [] ltac:(discriminate))
    as [[[more [rest Hp]] [Hends [Hst Hvis]]] _].
  split; [by rewrite Hp|]. split; [done|]. split; [done|]. split; [done|].
  intros HF. by rewrite split_from_no_mark.
Qed.

(** X19: a text without visible units (empty, or white space only)
    adds nothing to the markdown: the rendering is the trimmed title
    and author lines, and the empty string when there are none. *)
Theorem markdown_of_blank_text (content : jsstring) (md : option DocumentMetadata) :
  Forall blank content ->
  convertToMarkdown content md = trim (md_header md) /\
  convertToMarkdown content None = [].
Proof.
  intros Hb.
  assert (forall m, convertToMarkdown content m = trim (md_header m)) as H.
  { intros m. unfold convertToMarkdown, split_sentences.
    rewrite split_from_no_mark.
    - cbn [app fold_left]. unfold md_step. rewrite (trim_blank content Hb).
      by cbn [nonempty negb currentParagraph markdown].
    - eapply Forall_impl; [exact Hb|]. intros c Hc. unfold blank in Hc.
      destruct (is_sentence_end c) eqn:E; [|done].
      apply sentence_end_visible in E. congruence. }
  split; [apply H|]. by rewrite H.
Qed.

Lemma markdown_of_blank_text_witness :
  convertToMarkdown [SP; LF; TAB] None = [].
Proof.
  apply (markdown_of_blank_text [SP; LF; TAB] None).
  by repeat constructor.
Defined.

End MarkdownExtras.

(** ** The configuration *)

Section ConfigExtras.

Lemma spread_lookup (a b : object) (k : string) :
  spread a b !! k = match b !! k with Some v => Some v | None => a !! k end.
Proof. unfold spread. rewrite lookup_union. by destruct (b !! k), (a !! k). Qed.

Lemma deref_alloc (o : object) (h : heap) :
  deref (fst (alloc o h)) (snd (alloc o h)) = o.
Proof. unfold deref, alloc. simpl. by rewrite lookup_insert_eq. Qed.

Lemma deref_alloc_old (o : object) (h : heap) r :
  is_Some (h !! r) -> r <> fst (alloc o h) /\ deref r (snd (alloc o h)) = deref r h.
Proof.
  intros [x Hx]. destruct (alloc o h) as [r' h'] eqn:E.
  apply alloc_fresh in E as [Hr ->]. simpl.
  assert (r' <> r) as Hne by congruence.
  split; [done|]. unfold deref. by rewrite lookup_insert_ne.
Qed.

(** X20: the settings of a parser: a property given to the constructor
    wins over the default, a property given to [updateConfig] wins over
    the current setting, also when its value is [undefined], and every
    other property stays as it was; [updateConfig] makes a new
    configuration object and leaves the old one as it was.  A parser
    that was never told about [safetyChecks] has them enabled. *)
Theorem settings_precedence (cfg newConfig : object) (h : heap) (k : string) :
  let p := fst (new_parser cfg h) in
  let h1 := snd (new_parser cfg h) in
  let p' := fst (updateConfig p newConfig h1) in
  let h2 := snd (updateConfig p newConfig h1) in
  deref (config p) h1 !! k
    = match cfg !! k with Some v => Some v | None => defaults !! k end /\
  deref (config p') h2 !! k
    = match newConfig !! k with Some v => Some v | None => deref (config p) h1 !! k end /\
  config p' <> config p /\
  deref (config p) h2 = deref (config p) h1 /\
  (cfg !! "safetyChecks" = None -> newConfig !! "safetyChecks" = None ->
   enabled (deref (config p') h2) "safetyChecks" = true).
Proof.
  cbv zeta.
  assert (forall c g, new_parser c g
                      = ({| config := fst (alloc (spread defaults c) g) |},
                         snd (alloc (spread defaults c) g))) as Hnew.
  { intros c g. unfold new_parser. by destruct (alloc _ g). }
  assert (forall t c g, updateConfig t c g
                        = ({| config := fst (alloc (spread (deref (config t) g) c) g) |},
                           snd (alloc (spread (deref (config t) g) c) g))) as Hupd.
  { intros t c g. unfold updateConfig. by destruct (alloc _ g). }
  rewrite Hupd, Hnew. cbn [fst snd config].
  rewrite !deref_alloc.
  set (h1 := snd (alloc (spread defaults cfg) h)).
  set (r1 := fst (alloc (spread defaults cfg) h)).
  assert (is_Some (h1 !! r1)) as Hin.
  { unfold h1, r1, alloc. simpl. rewrite lookup_insert_eq. eauto. }
  destruct (deref_alloc_old (spread (spread defaults cfg) newConfig) h1 r1 Hin)
    as [Hne Hold].
  split; [apply spread_lookup|]. split; [by rewrite !spread_lookup|].
  split; [congruence|]. split.
  - rewrite Hold. unfold h1, r1. apply deref_alloc.
  - intros Hc Hn. unfold enabled. by rewrite !spread_lookup, Hn, Hc.
Qed.

Lemma settings_precedence_witness :
  let p := fst (new_parser ∅ ∅) in
  let h1 := snd (new_parser ∅ ∅) in
  let newConfig : object := <["outputFormat" := VStr (js "html")]> ∅ in
  enabled (deref (config (fst (updateConfig p newConfig h1)))
             (snd (updateConfig p newConfig h1))) "safetyChecks" = true.
Proof.
  cbv zeta.
  destruct (settings_precedence ∅ (<["outputFormat" := VStr (js "html")]> ∅) ∅ "safetyChecks")
    as [_ [_ [_ [_ H]]]].
  apply H; reflexivity.
Defined.

(** X21: [parseDocument] reads three settings only, and only whether
    they are truthy: two parsers whose [safetyChecks], [includeMetadata]
    and [extractImages] settings agree in truth value behave alike on
    every path, whatever their [outputFormat] and [preserveFormatting]
    are. *)
Theorem parseDocument_reads_three_flags (w : collaborators) (h h' : heap)
    (this this' : WordParser) (filePath : jsstring) :
  enabled (deref (config this) h) "safetyChecks"
    = enabled (deref (config this') h') "safetyChecks" ->
  enabled (deref (config this) h) "includeMetadata"
    = enabled (deref (config this') h') "includeMetadata" ->
  enabled (deref (config this) h) "extractImages"
    = enabled (deref (config this') h') "extractImages" ->
  run_parseDocument w h this filePath = run_parseDocument w h' this' filePath.
Proof.
  intros Hs Hm Hi. rewrite !parseDocument_course. unfold parse_outcome.
  by rewrite Hs, Hm, Hi.
Qed.

Lemma parseDocument_reads_three_flags_witness :
  let w := sample_world (inr safe_verdict) (inr (Some sample_zip)) in
  let plain := new_parser ∅ ∅ in
  let other := new_parser (<["outputFormat" := VStr (js "html")]>
                             (<["preserveFormatting" := VUndefined]> ∅)) ∅ in
  run_parseDocument w (snd plain) (fst plain) (js "a.docx")
  = run_parseDocument w (snd other) (fst other) (js "a.docx").
Proof.
  cbv zeta. apply parseDocument_reads_three_flags; reflexivity.
Defined.

End ConfigExtras.

(** ** The safety manager *)

Section SafetyExtras.

Lemma validateFile_course fs this filePath :
  run_validateFile fs this filePath = Returned (verdict_of fs this filePath).
Proof.
  unfold run_validateFile, validateFile, verdict_of, rejected, extension_issue,
    size_issue, content_issue, validation_error.
  unfold try_catch, bind, attempt, finish, settle, push_issue, update, read, ret.
  destruct (fs_existsSync fs filePath); cbn [negb]; [|done].
  destruct (bool_decide _); cbn [negb local log fst snd app];
    (destruct (fs_statSync_size fs filePath) as [e|size]; [done|];
     destruct (exceeds size (maxFileSize this)); cbn [local log fst snd app];
     (destruct (fs_readFileSync fs filePath) as [e|buffer]; [done|];
      by destruct (basicMalwareCheck fs buffer))).
Qed.

Lemma length_zero_nil {A} (l : list A) : (length l =? 0)%nat = true <-> l = [].
Proof. destruct l; simpl; split; done. Qed.

Lemma verdict_of_sound fs this filePath :
  isSafe (verdict_of fs this filePath) = true <-> issues (verdict_of fs this filePath) = [].
Proof.
  unfold verdict_of, rejected.
  destruct (fs_existsSync fs filePath); [|done].
  destruct (fs_statSync_size fs filePath) as [e|size].
  { cbn [isSafe issues]. split; [done|]. intros H. by apply app_nil in H as [_ ?]. }
  destruct (fs_readFileSync fs filePath) as [e|buffer].
  { cbn [isSafe issues]. split; [done|]. intros H.
    apply app_nil in H as [_ H]. by apply app_nil in H as [_ ?]. }
  cbn [isSafe issues]. apply length_zero_nil.
Qed.

(** X22: [validateFile] never rejects: whatever the file system does, it
    resolves with a verdict, and the verdict is safe exactly when it
    lists no issue.  For a path that does not exist the verdict is
    unsafe with the single issue ["File does not exist"], an empty hash
    and size 0. *)
Theorem validateFile_always_answers (fs : file_system) (this : SafetyManager) (filePath : jsstring) :
  exists r,
    run_validateFile fs this filePath = Returned r /\
    (isSafe r = true <-> issues r = []) /\
    (fs_existsSync fs filePath = false -> r = rejected [js "File does not exist"]).
Proof.
  exists (verdict_of fs this filePath). split; [apply validateFile_course|].
  split; [apply verdict_of_sound|].
  intros H. unfold verdict_of. by rewrite H.
Qed.

Lemma verdict_of_safe_iff fs this filePath :
  isSafe (verdict_of fs this filePath) = true <->
  fs_existsSync fs filePath = true /\
  toLowerCase fs (path_extname fs filePath) ∈ allowedExtensions this /\
  exists size fileBuffer,
    fs_statSync_size fs filePath = inr size /\
    exceeds size (maxFileSize this) = false /\
    fs_readFileSync fs filePath = inr fileBuffer /\
    basicMalwareCheck fs fileBuffer = false /\
    hash (verdict_of fs this filePath) = sha256_hex fs fileBuffer /\
    fileSize (verdict_of fs this filePath) = size.
Proof.
  unfold verdict_of, rejected, extension_issue, size_issue, content_issue.
  destruct (fs_existsSync fs filePath); [|cbn [isSafe]; split; [done | by intros [? _]]].
  destruct (fs_statSync_size fs filePath) as [e|size].
  { cbn [isSafe]. split; [done|]. by intros [_ [_ [? [? [? _]]]]]. }
  destruct (fs_readFileSync fs filePath) as [e|buffer].
  { cbn [isSafe]. split; [done|]. by intros [_ [_ [? [? [_ [_ [? _]]]]]]]. }
  cbn [isSafe hash fileSize]. rewrite length_zero_nil.
  case_bool_decide as Hext.
  - destruct (exceeds size (maxFileSize this)) eqn:Hsize.
    { cbn [app]. split; [done|]. intros [_ [_ [s [b [[= <-] [? _]]]]]]. congruence. }
    destruct (basicMalwareCheck fs buffer) eqn:Hscan.
    { cbn [app]. split; [done|].
      intros [_ [_ [s [b [_ [_ [[= <-] [? _]]]]]]]]. congruence. }
    cbn [app]. split; [|done]. intros _. split; [done|]. split; [done|].
    by exists size, buffer.
  - cbn [app]. split; [done|]. by intros [_ [? _]].
Qed.

(** X23: a file is judged safe exactly when it exists, its lowered
    extension is in the allowed set, [statSync] and [readFileSync]
    answer, the size does not exceed the limit and none of the patterns
    occurs in the scanned text; the verdict then carries the SHA-256
    digest of the bytes read and the size. *)
Theorem validateFile_safe_iff (fs : file_system) (this : SafetyManager) (filePath : jsstring)
    (r : SafetyResult) :
  run_validateFile fs this filePath = Returned r ->
  (isSafe r = true <->
   fs_existsSync fs filePath = true /\
   toLowerCase fs (path_extname fs filePath) ∈ allowedExtensions this /\
   exists size fileBuffer,
     fs_statSync_size fs filePath = inr size /\
     exceeds size (maxFileSize this) = false /\
     fs_readFileSync fs filePath = inr fileBuffer /\
     basicMalwareCheck fs fileBuffer = false /\
     hash r = sha256_hex fs fileBuffer /\ fileSize r = size).
Proof.
  rewrite validateFile_course. intros [= <-]. apply verdict_of_safe_iff.
Qed.

Lemma validateFile_safe_iff_witness :
  isSafe (verdict_of (sample_fs true (inr (js "PK plain bytes")))
            (new_manager (sample_fs true (inr (js "PK plain bytes"))))
            (js "report.DOCX")) = true.
Proof.
  apply (validateFile_safe_iff (sample_fs true (inr (js "PK plain bytes")))
           (new_manager (sample_fs true (inr (js "PK plain bytes"))))
           (js "report.DOCX")).
  - apply validateFile_course.
  - split; [reflexivity|]. split; [by vm_compute|].
    eexists _, _. repeat split; reflexivity.
Defined.

(** X24: when [statSync] or [readFileSync] throws, the verdict is
    unsafe, its hash is empty and its size is 0 (also when the size had
    been read), its last issue is the validation error with the message
    thrown, and the issues found before the throw are kept in front of
    it. *)
Theorem validation_error_reported (fs : file_system) (this : SafetyManager) (filePath : jsstring)
    (r : SafetyResult) (error : exn) :
  run_validateFile fs this filePath = Returned r ->
  fs_existsSync fs filePath = true ->
  fs_statSync_size fs filePath = inl error
  \/ (exists size, fs_statSync_size fs filePath = inr size)
     /\ fs_readFileSync fs filePath = inl error ->
  isSafe r = false /\ hash r = [] /\ fileSize r = 0%Z /\
  exists earlier,
    issues r = extension_issue fs this filePath ++ earlier ++ [validation_error error] /\
    (earlier = [] \/
     exists size, fs_statSync_size fs filePath = inr size
                  /\ earlier = size_issue fs this size).
Proof.
  rewrite validateFile_course. intros [= <-] Hex Hthrow.
  unfold verdict_of. rewrite Hex.
  destruct Hthrow as [Hstat | [[size Hstat] Hread]]; rewrite Hstat.
  - repeat split. exists []. split; [done | by left].
  - rewrite Hread. repeat split. exists (size_issue fs this size).
    split; [done|]. right. by exists size.
Qed.

Lemma validation_error_reported_witness :
  issues (verdict_of (sample_fs true (inl (Error (js "EISDIR: illegal operation on a directory, read"))))
            (setMaxFileSize (Int 10)
               (new_manager (sample_fs true (inl (Error (js "EISDIR: illegal operation on a directory, read"))))))
            (js "notes.txt"))
  = [js "Unsupported file extension: .txt";
     js "File too large: 4096 bytes (max: 10)";
     js "Validation error: EISDIR: illegal operation on a directory, read"].
Proof.
  destruct (validation_error_reported
              (sample_fs true (inl (Error (js "EISDIR: illegal operation on a directory, read"))))
              (setMaxFileSize (Int 10)
                 (new_manager (sample_fs true (inl (Error (js "EISDIR: illegal operation on a directory, read"))))))
              (js "notes.txt")
              (verdict_of (sample_fs true (inl (Error (js "EISDIR: illegal operation on a directory, read"))))
                 (setMaxFileSize (Int 10)
                    (new_manager (sample_fs true (inl (Error (js "EISDIR: illegal operation on a directory, read"))))))
                 (js "notes.txt"))
              (Error (js "EISDIR: illegal operation on a directory, read")))
    as [_ [_ [_ [earlier [E _]]]]].
  - apply validateFile_course.
  - reflexivity.
  - right. split; [by eexists | reflexivity].
  - by vm_compute.
Defined.

(** *** The scan for patterns *)

Lemma take_min_length {A} (l : list A) n : take (Nat.min (length l) n) l = take n l.
Proof.
  destruct (Nat.le_gt_cases (length l) n) as [H|H].
  - rewrite Nat.min_l by done. by rewrite !take_ge.
  - rewrite Nat.min_r by lia. done.
Qed.

(** X25: [basicMalwareCheck] looks at the first 10000 bytes only: two
    files that agree there get the same answer, so a pattern that
    starts behind them is not found. *)
Theorem basicMalwareCheck_scans_prefix (fs : file_system) (b1 b2 : list N) :
  take 10000 b1 = take 10000 b2 ->
  basicMalwareCheck fs b1 = basicMalwareCheck fs b2.
Proof.
  intros H. unfold basicMalwareCheck. by rewrite !take_min_length, H.
Qed.

Lemma basicMalwareCheck_scans_prefix_witness :
  basicMalwareCheck (sample_fs true (inr late_script)) (js "<Script>") = true /\
  basicMalwareCheck (sample_fs true (inr late_script)) late_script = false.
Proof.
  split; [by vm_compute|].
  rewrite (basicMalwareCheck_scans_prefix (sample_fs true (inr late_script))
             late_script (replicate 10000 65%N)).
  - by vm_compute.
  - by vm_compute.
Defined.

(** *** Allowed extensions *)

(** X26: [addAllowedExtension] lowers its argument and only widens the
    allowed set.  For an existing file whose lowered extension is the
    lowered argument, the verdict afterwards is the verdict before
    without the extension issue (same hash and size); for a file with
    another extension the verdict is as before. *)
Theorem addAllowedExtension_effect (fs : file_system) (this : SafetyManager)
    (ext filePath : jsstring) :
  let this' := addAllowedExtension fs ext this in
  allowedExtensions this ⊆ allowedExtensions this' /\
  toLowerCase fs ext ∈ allowedExtensions this' /\
  (toLowerCase fs (path_extname fs filePath) <> toLowerCase fs ext ->
   run_validateFile fs this' filePath = run_validateFile fs this filePath) /\
  (toLowerCase fs (path_extname fs filePath) = toLowerCase fs ext ->
   fs_existsSync fs filePath = true ->
   exists r r',
     run_validateFile fs this filePath = Returned r /\
     run_validateFile fs this' filePath = Returned r' /\
     issues r = extension_issue fs this filePath ++ issues r' /\
     hash r' = hash r /\ fileSize r' = fileSize r).
Proof.
  cbv zeta. split; [cbn [addAllowedExtension allowedExtensions]; set_solver|].
  split; [cbn [addAllowedExtension allowedExtensions]; set_solver|].
  rewrite !validateFile_course. split.
  - intros Hne. f_equal. unfold verdict_of, extension_issue, size_issue.
    cbn [addAllowedExtension allowedExtensions maxFileSize].
    assert (bool_decide (toLowerCase fs (path_extname fs filePath)
                           ∈ ({[toLowerCase fs ext]} ∪ allowedExtensions this : gset (list N)))
            = bool_decide (toLowerCase fs (path_extname fs filePath)
                             ∈ allowedExtensions this)) as ->; [|done].
    apply bool_decide_ext. rewrite elem_of_union, elem_of_singleton.
    split; [intros [Hx|Hx]; [by destruct Hne | exact Hx] | intros Hx; by right].
  - intros Heq Hex. eexists _, _. split; [done|]. split; [done|].
    unfold verdict_of. rewrite Hex.
    assert (extension_issue fs (addAllowedExtension fs ext this) filePath = []) as ->.
    { unfold extension_issue. cbn [addAllowedExtension allowedExtensions].
      rewrite bool_decide_eq_true_2; [done|]. rewrite Heq. set_solver. }
    unfold size_issue. cbn [addAllowedExtension maxFileSize app].
    destruct (fs_statSync_size fs filePath) as [e|size]; [done|].
    by destruct (fs_readFileSync fs filePath) as [e|buffer].
Qed.

Lemma addAllowedExtension_effect_witness :
  isSafe (verdict_of (sample_fs true (inr (js "plain notes")))
            (new_manager (sample_fs true (inr (js "plain notes")))) (js "notes.txt")) = false /\
  exists r',
    run_validateFile (sample_fs true (inr (js "plain notes")))
      (addAllowedExtension (sample_fs true (inr (js "plain notes"))) (js ".TXT")
         (new_manager (sample_fs true (inr (js "plain notes")))))
      (js "notes.txt") = Returned r' /\
    issues r' = [].
Proof.
  split; [by vm_compute|].
  destruct (addAllowedExtension_effect (sample_fs true (inr (js "plain notes")))
              (new_manager (sample_fs true (inr (js "plain notes"))))
              (js ".TXT") (js "notes.txt")) as [_ [_ [_ H]]].
  destruct H as [r [r' [Hr [Hr' [Hi _]]]]]; [reflexivity | reflexivity |].
  exists r'. split; [exact Hr'|].
  rewrite validateFile_course in Hr. injection Hr as <-.
  revert Hi. vm_compute. intros [= <-]. reflexivity.
Defined.

(** *** The parser behind its safety manager *)

Lemma guarded_verdict fs w filePath :
  guarded_by fs w filePath ->
  safety_validateFile w filePath = inr (verdict_of fs (new_manager fs) filePath).
Proof.
  unfold guarded_by. rewrite validateFile_course.
  destruct (safety_validateFile w filePath); simpl; congruence.
Qed.

Lemma js_nonempty_app (a : string) (b : jsstring) : a <> EmptyString -> js a ++ b <> [].
Proof. by destruct a. Qed.

Lemma parse_outcome_cases w cfg filePath r :
  fst (parse_outcome w cfg filePath) = Returned r ->
  (success r = false /\
   (errors r = [MISSING_DOCUMENT]
    \/ (exists e, errors r = [failure_message e])
    \/ (exists verdict,
          enabled cfg "safetyChecks" = true /\
          safety_validateFile w filePath = inr verdict /\
          isSafe verdict = false /\ errors r = issues verdict)))
  \/ (success r = true /\
      (enabled cfg "safetyChecks" = true ->
       exists verdict, safety_validateFile w filePath = inr verdict
                       /\ isSafe verdict = true)).
Proof.
  unfold parse_outcome.
  destruct (enabled _ "safetyChecks") eqn:Hon;
    [destruct (safety_validateFile w filePath) as [e|verdict] eqn:Hv; simpl;
     [intros [= <-]; left; split; [done|]; right; left; by eexists|];
     destruct (isSafe verdict) eqn:Hs; simpl;
     [|intros [= <-]; left; split; [done|]; right; right; by exists verdict] |];
    (destruct (yauzl_open w filePath) as [e|[z|]]; simpl;
     [intros [= <-]; left; split; [done|]; right; left; by eexists| |
      intros [= <-]; left; split; [done|]; right; left; by eexists];
     destruct (read_entries (zip_entries z) (zip_ending_event z) []) as [c|e|e];
       simpl; [|intros [= <-]; left; split; [done|]; right; left; by eexists|done];
     destruct (present_part (js "word/document.xml") c) as [xml|]; simpl;
       [|intros [= <-]; left; split; [done|]; by left];
     destruct (xml2js_parse w xml) as [e|parsed]; simpl;
       [intros [= <-]; left; split; [done|]; right; left; by eexists|];
     intros [= <-]; right; split; [done|]; intros ?; by eauto).
Qed.

(** X27: a parser whose safety manager is the one its constructor makes.
    With safety checks enabled, a path that does not exist gives the
    failed result with the single error ["File does not exist"] and the
    container is never opened; a failed result always names at least
    one error; and a successful result with safety checks enabled means
    that the file exists, has one of the four default extensions, was
    read, is not larger than 100 MiB and shows none of the patterns. *)
Theorem guarded_parseDocument (fs : file_system) (w : collaborators) (h : heap)
    (this : WordParser) (filePath : jsstring) :
  guarded_by fs w filePath ->
  (enabled (deref (config this) h) "safetyChecks" = true ->
   fs_existsSync fs filePath = false ->
   run_parseDocument w h this filePath
   = (Returned (failed [js "File does not exist"]), [EvValidate filePath])) /\
  (forall r,
     fst (run_parseDocument w h this filePath) = Returned r ->
     success r = false -> errors r <> []) /\
  (forall r,
     fst (run_parseDocument w h this filePath) = Returned r ->
     success r = true ->
     enabled (deref (config this) h) "safetyChecks" = true ->
     fs_existsSync fs filePath = true /\
     toLowerCase fs (path_extname fs filePath)
       ∈ ({[js ".docx"; js ".doc"; js ".rtf"; js ".odt"]} : gset (list N)) /\
     exists size fileBuffer,
       fs_statSync_size fs filePath = inr size /\ (size <= 100 * 1024 * 1024)%Z /\
       fs_readFileSync fs filePath = inr fileBuffer /\
       basicMalwareCheck fs fileBuffer = false).
Proof.
  intros Hg. apply guarded_verdict in Hg.
  rewrite parseDocument_course. split; [|split].
  - intros Hon Hex. unfold parse_outcome. rewrite Hon, Hg.
    unfold verdict_of. by rewrite Hex.
  - intros r Hr Hfail.
    destruct (parse_outcome_cases _ _ _ _ Hr) as [[_ Herr] | [Hs _]]; [|congruence].
    destruct Herr as [-> | [[e ->] | [verdict [_ [Hv [Hu ->]]]]]]; [done|done|].
    rewrite Hg in Hv. injection Hv as <-. intros Hnil.
    apply verdict_of_sound in Hnil. congruence.
  - intros r Hr Hs Hon.
    destruct (parse_outcome_cases _ _ _ _ Hr) as [[Hf _] | [_ Hsafe]]; [congruence|].
    destruct (Hsafe Hon) as [verdict [Hv Hok]].
    rewrite Hg in Hv. injection Hv as <-.
    apply verdict_of_safe_iff in Hok
      as [Hex [Hext [size [buffer [Hstat [Hsize [Hread [Hscan _]]]]]]]].
    split; [done|]. split; [exact Hext|].
    exists size, buffer. split; [done|]. split; [|done].
    cbn [new_manager maxFileSize exceeds] in Hsize. by apply Z.ltb_ge in Hsize.
Qed.

Lemma guarded_parseDocument_witness :
  run_parseDocument (guarded_world (sample_fs false (inr [])) (inr (Some sample_zip)))
    (snd (new_parser ∅ ∅)) (fst (new_parser ∅ ∅)) (js "missing.docx")
  = (Returned (failed [js "File does not exist"]), [EvValidate (js "missing.docx")]).
Proof.
  destruct (guarded_parseDocument (sample_fs false (inr []))
              (guarded_world (sample_fs false (inr [])) (inr (Some sample_zip)))
              (snd (new_parser ∅ ∅)) (fst (new_parser ∅ ∅)) (js "missing.docx"))
    as [H _].
  - by vm_compute.
  - apply H; reflexivity.
Defined.

End SafetyExtras.
